(** * A shell's execution core: job registry and pipeline executor

    Shallow embedding of [jobs.h], [jobs.c] and [executor.c].

    The shell process is modelled from the parent's point of view.  Its
    state is the table of open descriptors, the global job table [g_jobs],
    the global [g_last_cmdline], and the chronological trace of the system
    calls and writes it has performed.  What the operating system answers
    to a call (does [fork] succeed, what does [waitpid] return, what does a
    fresh [malloc] block contain) is given by an oracle that may depend on
    everything that happened before. *)

From Stdlib Require Import Ascii.
From stdpp Require Import base numbers list strings gmap pretty.

Local Open Scope Z_scope.

#[local] Set Warnings "-clear-no-such-hyp".

(** ** Constants of [unistd.h], [stdlib.h] and [jobs.h] *)

Definition STDIN_FILENO : Z := 0.
Definition STDOUT_FILENO : Z := 1.
Definition EXIT_SUCCESS : Z := 0.
Definition EXIT_FAILURE : Z := 1.

(** [#define MAX_JOBS 64] *)
Definition MAX_JOBS : nat := 64.

(** [char cmdline[256]] in [job_t]. *)
Definition CMDLINE_SIZE : nat := 256.

(** ** Data model *)

(** [job_t]: [active] is an [int], 1 = running, 0 = finished/empty. *)
Record job_t := Job { pid : Z; active : Z; cmdline : string }.

(** [job_t g_jobs[MAX_JOBS] = {0}]. *)
Definition job_zero : job_t := Job 0 0 "".
Definition g_jobs_init : list job_t := replicate MAX_JOBS job_zero.

(** [struct cmdline] of the parser: [seq] is the NULL-terminated array of
    NULL-terminated argv vectors, [in] and [out] are nullable paths. *)
Record cmdline_t := Cmdline {
  seq : list (list string);
  l_in : option string;
  l_out : option string;
  l_bg : bool
}.

Inductive open_mode := O_RDONLY | O_WRONLY_CREAT_TRUNC.

(** What a forked child runs before it stops being the shell.  A failing
    [CDup2] ends the child with status 126, a failing [CExecvp] with 127. *)
Inductive child_op :=
| CDup2 (oldfd newfd : Z)
| CClose (fd : Z)
| CExecvp (file : string) (argv : list string).

Inductive event :=
| EvFork (child : list child_op) (ret : Z)
| EvOpen (path : string) (mode : open_mode) (ret : Z)
| EvPipe (ret : option (Z * Z))
| EvClose (fd : Z)
| EvWaitpid (p : Z) (nohang : bool) (ret : Z)
| EvMalloc (ok : bool)
| EvStdout (s : string)
| EvStderr (s : string)
| EvPerror (s : string).

(** The answers of the operating system, as functions of the trace so far.
    [os_fork] gives the child's process id in the parent, or [None] when
    [fork] fails.  [os_malloc] gives [None] for a NULL result, otherwise the
    indeterminate initial content of the block, read as an array of [int]. *)
Record os_t := OS {
  os_fork : list event → option positive;
  os_open : list event → string → open_mode → bool;
  os_pipe : list event → bool;
  os_waitpid : list event → Z → bool → Z;
  os_malloc : list event → option (nat → Z)
}.

Record world := World {
  w_fds : gset Z;
  g_jobs : list job_t;
  g_last_cmdline : string;
  w_trace : list event
}.

(** ** State monad over the world *)

Definition M (A : Type) : Type := world → A * world.

Definition ret {A} (a : A) : M A := λ w, (a, w).
Definition bind {A B} (m : M A) (k : A → M B) : M B :=
  λ w, let (a, w') := m w in k a w'.

Notation "x <~ m ;; k" := (bind m (λ x, k))
  (at level 100, m at next level, right associativity).
Notation "m ;;; k" := (bind m (λ _, k))
  (at level 100, right associativity).

Definition when_ (b : bool) (m : M unit) : M unit := if b then m else ret tt.

Definition emit (e : event) : M unit :=
  λ w, (tt, World (w_fds w) (g_jobs w) (g_last_cmdline w) (w_trace w ++ [e])).

Definition set_fds (fds : gset Z) : M unit :=
  λ w, (tt, World fds (g_jobs w) (g_last_cmdline w) (w_trace w)).

Definition set_jobs (jobs : list job_t) : M unit :=
  λ w, (tt, World (w_fds w) jobs (g_last_cmdline w) (w_trace w)).

(** ** System calls *)

(** POSIX allocates the lowest descriptor that is not open. *)
Fixpoint lowest_free_from (fuel : nat) (n : Z) (fds : gset Z) : Z :=
  match fuel with
  | O => n
  | S fuel' => if decide (n ∈ fds) then lowest_free_from fuel' (n + 1) fds else n
  end.

Definition lowest_free (fds : gset Z) : Z := lowest_free_from (size fds) 0 fds.

(** The newline character of the format strings. *)
Definition NL : string := String "010"%char "".

(** [snprintf(buf, size, "%s", s)]: at most [size - 1] characters. *)
Fixpoint string_take (n : nat) (s : string) : string :=
  match n, s with
  | S n', String c s' => String c (string_take n' s')
  | _, _ => ""
  end.

Definition snprintf_s (size : nat) (s : string) : string :=
  string_take (size - 1) s.

Section Syscalls.
Variable os : os_t.

Definition sys_close (fd : Z) : M unit :=
  λ w, emit (EvClose fd)
         (World (w_fds w ∖ {[fd]}) (g_jobs w) (g_last_cmdline w) (w_trace w)).

Definition sys_open (path : string) (mode : open_mode) : M Z :=
  λ w, if os_open os (w_trace w) path mode
       then let fd := lowest_free (w_fds w) in
            (fd, snd (emit (EvOpen path mode fd)
               (World (w_fds w ∪ {[fd]}) (g_jobs w) (g_last_cmdline w) (w_trace w))))
       else (-1, snd (emit (EvOpen path mode (-1)) w)).

Definition sys_pipe : M (option (Z * Z)) :=
  λ w, if os_pipe os (w_trace w)
       then let r := lowest_free (w_fds w) in
            let wr := lowest_free (w_fds w ∪ {[r]}) in
            (Some (r, wr), snd (emit (EvPipe (Some (r, wr)))
               (World (w_fds w ∪ {[r]} ∪ {[wr]}) (g_jobs w) (g_last_cmdline w) (w_trace w))))
       else (None, snd (emit (EvPipe None) w)).

Definition sys_fork (child : list child_op) : M Z :=
  λ w, let r := match os_fork os (w_trace w) with
                | Some p => Z.pos p
                | None => -1
                end in
       (r, snd (emit (EvFork child r) w)).

Definition sys_waitpid (p : Z) (nohang : bool) : M Z :=
  λ w, let r := os_waitpid os (w_trace w) p nohang in
       (r, snd (emit (EvWaitpid p nohang r) w)).

Definition sys_malloc : M (option (nat → Z)) :=
  λ w, let r := os_malloc os (w_trace w) in
       (r, snd (emit (EvMalloc (bool_decide (is_Some r))) w)).

(** [perror(s)] and [fprintf(stderr, "...: %s\n", strerror(errno))]: the
    prefix is recorded, the text of [errno] is not modelled. *)
Definition perror (s : string) : M unit := emit (EvPerror s).

(** ** jobs.c *)

(** The [for] loop of [add_job], from index [i], [fuel] iterations left. *)
Fixpoint add_job_loop (fuel i : nat) (p : Z) (text : option string) : M Z :=
  match fuel with
  | O =>
      emit (EvStderr ("jobs: job table full" +:+ NL)) ;;;
      ret (-1)
  | S fuel' =>
      λ w, match g_jobs w !! i with
           | Some j =>
               if active j =? 0
               then (set_jobs (<[i := Job p 1 (snprintf_s CMDLINE_SIZE (default "" text))]>
                                 (g_jobs w)) ;;;
                     ret (Z.of_nat i)) w
               else add_job_loop fuel' (S i) p text w
           | None => add_job_loop fuel' (S i) p text w
           end
  end.

Definition add_job (p : Z) (text : option string) : M Z :=
  add_job_loop MAX_JOBS 0 p text.

Fixpoint reap_loop (fuel i : nat) : M unit :=
  match fuel with
  | O => ret tt
  | S fuel' =>
      λ w, match g_jobs w !! i with
           | Some j =>
               if active j =? 0
               then reap_loop fuel' (S i) w
               else (r <~ sys_waitpid (pid j) true ;;
                     when_ (r =? pid j)
                       (λ w', set_jobs (<[i := Job (pid j) 0 (cmdline j)]> (g_jobs w')) w') ;;;
                     reap_loop fuel' (S i)) w
           | None => reap_loop fuel' (S i) w
           end
  end.

Definition reap_finished_jobs : M unit := reap_loop MAX_JOBS 0.

(** [printf("[%d] Running  %s\n", pid, cmdline[0] ? cmdline : "(unknown)")] *)
Definition job_line (j : job_t) : string :=
  "[" +:+ pretty (pid j) +:+ "] Running  " +:+
  (match cmdline j with "" => "(unknown)" | s => s end) +:+ NL.

Fixpoint print_loop (fuel i : nat) (any : bool) : M bool :=
  match fuel with
  | O => ret any
  | S fuel' =>
      λ w, match g_jobs w !! i with
           | Some j =>
               if active j =? 0
               then print_loop fuel' (S i) any w
               else (emit (EvStdout (job_line j)) ;;;
                     print_loop fuel' (S i) true) w
           | None => print_loop fuel' (S i) any w
           end
  end.

Definition print_jobs : M unit :=
  reap_finished_jobs ;;;
  any <~ print_loop MAX_JOBS 0 false ;;
  when_ (negb any) (emit (EvStdout ("(no background jobs)" +:+ NL))).

(** ** executor.c *)

(** The child branch of [execute_command] (lines 32-44). *)
Definition command_child (cmd : string) (args : list string)
    (in_ out : Z) : list child_op :=
  (if decide (in_ ≠ STDIN_FILENO) then [CDup2 in_ STDIN_FILENO; CClose in_] else []) ++
  (if decide (out ≠ STDOUT_FILENO) then [CDup2 out STDOUT_FILENO; CClose out] else []) ++
  [CExecvp cmd args].

(** [int execute_command(char* cmd, char** args, int in, int out, int bg)];
    [cmd] and [args] are nullable, [args[0] == NULL] is the empty vector. *)
Definition execute_command (cmd : option string) (args : option (list string))
    (in_ out : Z) (bg : Z) : M Z :=
  match cmd, args with
  | Some c, Some (a0 :: rest) =>
      p <~ sys_fork (command_child c (a0 :: rest) in_ out) ;;
      if p <? 0 then
        perror "fork" ;;;
        when_ (bool_decide (in_ ≠ STDIN_FILENO)) (sys_close in_) ;;;
        when_ (bool_decide (out ≠ STDOUT_FILENO)) (sys_close out) ;;;
        ret EXIT_FAILURE
      else
        when_ (bool_decide (in_ ≠ STDIN_FILENO)) (sys_close in_) ;;;
        when_ (bool_decide (out ≠ STDOUT_FILENO)) (sys_close out) ;;;
        (if bg =? 0
         then (_ <~ sys_waitpid p false ;; ret tt)
         else (λ w, (_ <~ add_job p (Some (g_last_cmdline w)) ;; ret tt) w)) ;;;
        ret EXIT_SUCCESS
  | _, _ => ret EXIT_SUCCESS
  end.

(** [for (k = 0; k < n; k++) { close(pipes[k][0]); close(pipes[k][1]); }] *)
Fixpoint close_pipes (pipes : list (Z * Z)) : M unit :=
  match pipes with
  | [] => ret tt
  | p :: rest => sys_close (fst p) ;;; sys_close (snd p) ;;; close_pipes rest
  end.

(** The pipe-creating loop (lines 114-121); [acc] holds [pipes[0..i-1]]. *)
Fixpoint create_pipes (n : nat) (acc : list (Z * Z)) : M (option (list (Z * Z))) :=
  match n with
  | O => ret (Some acc)
  | S n' =>
      r <~ sys_pipe ;;
      match r with
      | None => perror "pipe" ;;; close_pipes acc ;;; ret None
      | Some p => create_pipes n' (acc ++ [p])
      end
  end.

(** [pipes[k]]; every index used by the code is below [npipes]. *)
Definition pipe_at (pipes : list (Z * Z)) (k : nat) : Z * Z :=
  default (0, 0) (pipes !! k).

Definition child_close_pipes (pipes : list (Z * Z)) : list child_op :=
  flat_map (λ p, [CClose (fst p); CClose (snd p)]) pipes.

(** The child branch of stage [i] of a pipeline (lines 170-191). *)
Definition stage_child (l : cmdline_t) (ncmds i : nat) (pipes : list (Z * Z))
    (in_fd_first out_fd_last : Z) (argv0 : string) (argv : list string)
    : list child_op :=
  let in_fd := if decide (i = 0%nat) then in_fd_first else fst (pipe_at pipes (i - 1)) in
  let out_fd := if decide (i = (ncmds - 1)%nat) then out_fd_last else snd (pipe_at pipes i) in
  (if decide (in_fd ≠ STDIN_FILENO) then [CDup2 in_fd STDIN_FILENO] else []) ++
  (if decide (out_fd ≠ STDOUT_FILENO) then [CDup2 out_fd STDOUT_FILENO] else []) ++
  child_close_pipes pipes ++
  (if decide (is_Some (l_in l) ∧ in_fd_first ≠ STDIN_FILENO ∧ in_fd ≠ STDIN_FILENO)
   then [CClose in_fd_first] else []) ++
  (if decide (is_Some (l_out l) ∧ out_fd_last ≠ STDOUT_FILENO ∧ out_fd ≠ STDOUT_FILENO)
   then [CClose out_fd_last] else []) ++
  [CExecvp argv0 argv].

(** How the spawning loop (lines 157-205) ends: by falling through, or
    by [goto PIPE_FAIL]. *)
Inductive loop_exit := LoopDone | LoopFail.

(** The spawning loop from stage [i] on; [stages] is [l->seq + i].  The
    locals [in_fd_first] and [pids] change in the loop and are returned. *)
Fixpoint spawn_loop (l : cmdline_t) (ncmds : nat) (pipes : list (Z * Z))
    (out_fd_last : Z) (stages : list (list string)) (i : nat)
    (in_fd_first : Z) (pids : list Z) : M (loop_exit * Z * list Z) :=
  match stages with
  | [] => ret (LoopDone, in_fd_first, pids)
  | [] :: _ =>
      emit (EvStderr ("empty command in pipeline at stage " +:+ pretty (Z.of_nat i) +:+ NL)) ;;;
      ret (LoopFail, in_fd_first, pids)
  | (a0 :: args) :: stages' =>
      p <~ sys_fork (stage_child l ncmds i pipes in_fd_first out_fd_last a0 (a0 :: args)) ;;
      if p <? 0 then
        perror "fork" ;;;
        ret (LoopFail, in_fd_first, pids)
      else
        let pids := <[i := p]> pids in
        in_fd_first <~
          (if bool_decide (i = 0%nat ∧ in_fd_first ≠ STDIN_FILENO)
           then sys_close in_fd_first ;;; ret STDIN_FILENO
           else ret in_fd_first) ;;
        when_ (bool_decide (0 < i)%nat) (sys_close (snd (pipe_at pipes (i - 1)))) ;;;
        spawn_loop l ncmds pipes out_fd_last stages' (S i) in_fd_first pids
  end.

(** [for (t = 0; t < ncmds; t++) (void)waitpid(pids[t], &status, 0);] *)
Fixpoint wait_all (pids : list Z) : M unit :=
  match pids with
  | [] => ret tt
  | p :: rest => _ <~ sys_waitpid p false ;; wait_all rest
  end.

(** [for (t...) if (pids && pids[t] > 0) (void)waitpid(pids[t], NULL, 0);] *)
Fixpoint reap_spawned (pids : list Z) : M unit :=
  match pids with
  | [] => ret tt
  | p :: rest =>
      when_ (0 <? p) (_ <~ sys_waitpid p false ;; ret tt) ;;;
      reap_spawned rest
  end.

(** The block after the label [PIPE_FAIL] (lines 226-239). *)
Definition pipe_fail (pipes : list (Z * Z)) (in_fd_first out_fd_last : Z)
    (pids : list Z) : M Z :=
  close_pipes pipes ;;;
  when_ (bool_decide (in_fd_first ≠ STDIN_FILENO)) (sys_close in_fd_first) ;;;
  when_ (bool_decide (out_fd_last ≠ STDOUT_FILENO)) (sys_close out_fd_last) ;;;
  reap_spawned pids ;;;
  ret EXIT_FAILURE.

(** The N-stage part of [execute] (lines 104-239), [ncmds >= 2]. *)
Definition execute_pipeline (l : cmdline_t) : M Z :=
  let ncmds := length (seq l) in
  let npipes := (ncmds - 1)%nat in
  mp <~ (if bool_decide (0 < npipes)%nat then sys_malloc else ret (Some (λ _, 0))) ;;
  match mp with
  | None => perror "malloc pipes" ;;; ret EXIT_FAILURE
  | Some _ =>
      op <~ create_pipes npipes [] ;;
      match op with
      | None => ret EXIT_FAILURE
      | Some pipes =>
          in_fd_first <~
            match l_in l with
            | Some path => sys_open path O_RDONLY
            | None => ret STDIN_FILENO
            end ;;
          if in_fd_first <? 0 then
            perror (default "" (l_in l)) ;;;
            close_pipes pipes ;;;
            ret EXIT_FAILURE
          else
            out_fd_last <~
              match l_out l with
              | Some path => sys_open path O_WRONLY_CREAT_TRUNC
              | None => ret STDOUT_FILENO
              end ;;
            if out_fd_last <? 0 then
              perror (default "" (l_out l)) ;;;
              when_ (bool_decide (in_fd_first ≠ STDIN_FILENO)) (sys_close in_fd_first) ;;;
              close_pipes pipes ;;;
              ret EXIT_FAILURE
            else
              mq <~ sys_malloc ;;
              match mq with
              | None =>
                  perror "malloc pids" ;;;
                  when_ (bool_decide (in_fd_first ≠ STDIN_FILENO)) (sys_close in_fd_first) ;;;
                  when_ (bool_decide (out_fd_last ≠ STDOUT_FILENO)) (sys_close out_fd_last) ;;;
                  close_pipes pipes ;;;
                  ret EXIT_FAILURE
              | Some garbage =>
                  let pids0 := garbage <$> List.seq 0%nat ncmds in
                  r <~ spawn_loop l ncmds pipes out_fd_last (seq l) 0 in_fd_first pids0 ;;
                  match r with
                  | (LoopFail, in_fd_first, pids) =>
                      pipe_fail pipes in_fd_first out_fd_last pids
                  | (LoopDone, _, pids) =>
                      close_pipes pipes ;;;
                      when_ (bool_decide (out_fd_last ≠ STDOUT_FILENO)) (sys_close out_fd_last) ;;;
                      (if l_bg l
                       then (λ w, (_ <~ add_job (default 0 (pids !! 0%nat))
                                           (Some (g_last_cmdline w)) ;; ret tt) w)
                       else wait_all pids) ;;;
                      ret EXIT_SUCCESS
                  end
              end
      end
  end.

(** [int execute(struct cmdline *l)]; [None] is the NULL pointer. *)
Definition execute (l : option cmdline_t) : M Z :=
  match l with
  | None => ret EXIT_SUCCESS
  | Some l =>
      reap_finished_jobs ;;;
      match seq l with
      | [] => ret EXIT_SUCCESS
      | [argv] =>
          match argv with
          | [] => ret EXIT_SUCCESS
          | a0 :: _ =>
              if bool_decide (a0 = "jobs") then
                print_jobs ;;;
                ret EXIT_SUCCESS
              else
                in_fd <~
                  match l_in l with
                  | Some path => sys_open path O_RDONLY
                  | None => ret STDIN_FILENO
                  end ;;
                if in_fd <? 0 then
                  perror (default "" (l_in l)) ;;;
                  ret EXIT_FAILURE
                else
                  out_fd <~
                    match l_out l with
                    | Some path => sys_open path O_WRONLY_CREAT_TRUNC
                    | None => ret STDOUT_FILENO
                    end ;;
                  if out_fd <? 0 then
                    perror (default "" (l_out l)) ;;;
                    when_ (bool_decide (in_fd ≠ STDIN_FILENO)) (sys_close in_fd) ;;;
                    ret EXIT_FAILURE
                  else
                    execute_command (Some a0) (Some argv) in_fd out_fd
                      (if l_bg l then 1 else 0)
          end
      | _ => execute_pipeline l
      end
  end.

End Syscalls.

(** * Specification vocabulary *)

(** The record [add_job] writes into a slot. *)
Definition new_job (p : Z) (text : option string) : job_t :=
  Job p 1 (snprintf_s CMDLINE_SIZE (default "" text)).

(** Slot [n] is the first one whose [active] field is 0. *)
Definition first_inactive (jobs : list job_t) (n : nat) : Prop :=
  (∃ j, jobs !! n = Some j ∧ active j = 0) ∧
  ∀ k j, (k < n)%nat → jobs !! k = Some j → active j ≠ 0.

Definition all_active (jobs : list job_t) : Prop :=
  ∀ k j, jobs !! k = Some j → active j ≠ 0.

(** A run of insertions, as a caller filling the table would issue them. *)
Fixpoint add_jobs (reqs : list (Z * option string)) : M (list Z) :=
  match reqs with
  | [] => ret []
  | r :: rest =>
      i <~ add_job (fst r) (snd r) ;;
      ids <~ add_jobs rest ;;
      ret (i :: ids)
  end.

(** An event is a non-blocking status check. *)
Definition is_nohang_wait (e : event) : Prop :=
  match e with EvWaitpid _ true _ => True | _ => False end.

(** What [reap_finished_jobs] leaves in a slot that held [j], when the
    status check on it returned [r]. *)
Definition reaped (j : job_t) (r : Z) : job_t :=
  if r =? pid j then Job (pid j) 0 (cmdline j) else j.

(** The slots [print_jobs] reports, in slot order. *)
Definition active_jobs (jobs : list job_t) : list job_t :=
  filter (λ j, active j ≠ 0) jobs.

(** The line format as the specification words it: the stored command
    text itself follows [Running]. *)
Definition claimed_job_line (j : job_t) : string :=
  "[" +:+ pretty (pid j) +:+ "] Running  " +:+ cmdline j +:+ NL.

(** The texts written to standard output, in order. *)
Definition stdout_lines (tr : list event) : list string :=
  omap (λ e, match e with EvStdout s => Some s | _ => None end) tr.

(** ** Concrete environments used in examples *)

(** The values [fork] returned, in order. *)
Definition fork_rets (tr : list event) : list Z :=
  omap (λ e, match e with EvFork _ r => Some r | _ => None end) tr.

Definition fork_count (tr : list event) : nat := length (fork_rets tr).

(** Every call succeeds; the n-th fork yields process id 100 + n; a
    non-blocking check finds the process still running, a blocking wait
    returns its process id; fresh memory holds zeros. *)
Definition os_ok : os_t :=
  OS (λ tr, Some (Pos.of_nat (100 + fork_count tr)))
     (λ _ _ _, true)
     (λ _, true)
     (λ _ p nohang, if nohang then 0 else p)
     (λ _, Some (λ _, 0)).

(** As [os_ok], but [waitpid] fails with ECHILD: the process was already
    reaped elsewhere. *)
Definition os_echild : os_t :=
  OS (os_fork os_ok) (os_open os_ok) (os_pipe os_ok) (λ _ _ _, -1) (os_malloc os_ok).

(** The shell at start-up: the three standard descriptors, an empty table. *)
Definition shell_start : world := World {[0; 1; 2]} g_jobs_init "sleep 5 &" [].

(** One background job, pid 100, registered in the empty table. *)
Definition w_bg_job : world := snd (add_job 100 (Some "sleep 5 &") shell_start).

(** One background job registered with a NULL command text. *)
Definition w_untitled_job : world := snd (add_job 42 None shell_start).

(** The [close] a parent issues for a descriptor that is not the default
    [dflt], and its effect on the descriptor table. *)
Definition close_unless (dflt fd : Z) : list event :=
  if decide (fd ≠ dflt) then [EvClose fd] else [].

Definition drop_unless (dflt fd : Z) (fds : gset Z) : gset Z :=
  if decide (fd ≠ dflt) then fds ∖ {[fd]} else fds.

(** Chaining of an abortable step: [None] stops. *)
Definition and_then {A B} (m : M (option A)) (k : A → M (option B)) : M (option B) :=
  r <~ m ;; match r with Some a => k a | None => ret None end.

Notation "m >>>= k" := (and_then m k) (at level 90, left associativity).

(** Step 4 of the pipeline executor, in the specification's words: open
    the input path read-only if one is given, then the output path
    write-only (create, truncate) if one is given; either failure aborts,
    closing what was already opened. *)
Definition resolve_end_redirections (os : os_t) (l : cmdline_t) : M (option (Z * Z)) :=
  match l_in l with
  | Some path =>
      fd <~ sys_open os path O_RDONLY ;;
      if fd <? 0 then perror path ;;; ret None else ret (Some fd)
  | None => ret (Some STDIN_FILENO)
  end >>>= λ in_fd,
  match l_out l with
  | Some path =>
      fd <~ sys_open os path O_WRONLY_CREAT_TRUNC ;;
      if fd <? 0 then
        perror path ;;;
        when_ (bool_decide (in_fd ≠ STDIN_FILENO)) (sys_close in_fd) ;;;
        ret None
      else ret (Some (in_fd, fd))
  | None => ret (Some (in_fd, STDOUT_FILENO))
  end.

(** "Resolve the end redirections, then call the Single-Command Executor
    with the resolved descriptors and the background flag." *)
Definition single_stage_spec (os : os_t) (l : cmdline_t) (argv : list string) : M Z :=
  r <~ resolve_end_redirections os l ;;
  match r with
  | Some (in_fd, out_fd) =>
      execute_command os (head argv) (Some argv) in_fd out_fd (if l_bg l then 1 else 0)
  | None => ret EXIT_FAILURE
  end.

(** ** Frame relations between the world before and after a run *)

(** The run only appended events of class [P] to the trace and left
    [g_last_cmdline] alone. *)
Definition grows (P : event → Prop) : relation world :=
  λ w w', g_last_cmdline w' = g_last_cmdline w ∧
          ∃ evs, w_trace w' = w_trace w ++ evs ∧ Forall P evs.

Definition same_jobs : relation world := λ w w', g_jobs w' = g_jobs w.

Definition same_fds : relation world := λ w w', w_fds w' = w_fds w.

(** Every run of [m] relates its initial and final world by [R]. *)
Definition does {A} (R : relation world) (m : M A) : Prop :=
  ∀ w, R w (snd (m w)).

(** Event classes. *)
Definition not_stdout (e : event) : Prop :=
  match e with EvStdout _ => False | _ => True end.

Definition nohang_or_stdout (e : event) : Prop :=
  match e with EvWaitpid _ true _ | EvStdout _ => True | _ => False end.

Definition any_event (e : event) : Prop := True.

(** ** Reading a trace *)

(** The child scripts of the forks that succeeded, in order. *)
Definition spawned (tr : list event) : list (list child_op) :=
  omap (λ e, match e with
             | EvFork child r => if 0 <? r then Some child else None
             | _ => None
             end) tr.

(** The process ids of the forks that succeeded, in order. *)
Definition spawned_pids (tr : list event) : list Z :=
  omap (λ e, match e with
             | EvFork _ r => if 0 <? r then Some r else None
             | _ => None
             end) tr.

(** The program a child script ends in. *)
Definition child_program (child : list child_op) : option (string * list string) :=
  match last child with
  | Some (CExecvp file argv) => Some (file, argv)
  | _ => None
  end.

Definition programs_run (tr : list event) : list (option (string * list string)) :=
  child_program <$> spawned tr.

(** What running a stage as an external program means: [execvp(argv[0], argv)]. *)
Definition stage_program (argv : list string) : option (string * list string) :=
  Some (default "" (head argv), argv).

(** The blocking waits issued, in order. *)
Definition blocking_waits (tr : list event) : list Z :=
  omap (λ e, match e with EvWaitpid p false _ => Some p | _ => None end) tr.

(** Events of the set-up phase of a pipeline: no process is involved. *)
Definition setup_event (e : event) : Prop :=
  match e with
  | EvMalloc _ | EvPipe _ | EvOpen _ _ _ | EvClose _ | EvPerror _ => True
  | _ => False
  end.

(** ** The pipeline executor in two phases *)

(** Lines 104-155: allocate, create the pipes, resolve the redirections. *)
Definition pipeline_setup (os : os_t) (l : cmdline_t)
    : M (option (list (Z * Z) * Z * Z * (nat → Z))) :=
  let ncmds := length (seq l) in
  let npipes := (ncmds - 1)%nat in
  mp <~ (if bool_decide (0 < npipes)%nat then sys_malloc os else ret (Some (λ _, 0))) ;;
  match mp with
  | None => perror "malloc pipes" ;;; ret None
  | Some _ =>
      op <~ create_pipes os npipes [] ;;
      match op with
      | None => ret None
      | Some pipes =>
          in_fd_first <~
            match l_in l with
            | Some path => sys_open os path O_RDONLY
            | None => ret STDIN_FILENO
            end ;;
          if in_fd_first <? 0 then
            perror (default "" (l_in l)) ;;; close_pipes pipes ;;; ret None
          else
            out_fd_last <~
              match l_out l with
              | Some path => sys_open os path O_WRONLY_CREAT_TRUNC
              | None => ret STDOUT_FILENO
              end ;;
            if out_fd_last <? 0 then
              perror (default "" (l_out l)) ;;;
              when_ (bool_decide (in_fd_first ≠ STDIN_FILENO)) (sys_close in_fd_first) ;;;
              close_pipes pipes ;;;
              ret None
            else
              mq <~ sys_malloc os ;;
              match mq with
              | None =>
                  perror "malloc pids" ;;;
                  when_ (bool_decide (in_fd_first ≠ STDIN_FILENO)) (sys_close in_fd_first) ;;;
                  when_ (bool_decide (out_fd_last ≠ STDOUT_FILENO)) (sys_close out_fd_last) ;;;
                  close_pipes pipes ;;;
                  ret None
              | Some garbage => ret (Some (pipes, in_fd_first, out_fd_last, garbage))
              end
      end
  end.

(** Lines 222-224 and 207-220: what follows the spawning loop. *)
Definition pipeline_finish (os : os_t) (l : cmdline_t) (pipes : list (Z * Z))
    (out_fd_last : Z) (r : loop_exit * Z * list Z) : M Z :=
  match r with
  | (LoopFail, in_fd_first, pids) => pipe_fail os pipes in_fd_first out_fd_last pids
  | (LoopDone, _, pids) =>
      close_pipes pipes ;;;
      when_ (bool_decide (out_fd_last ≠ STDOUT_FILENO)) (sys_close out_fd_last) ;;;
      (if l_bg l
       then (λ w, (_ <~ add_job (default 0 (pids !! 0%nat))
                           (Some (g_last_cmdline w)) ;; ret tt) w)
       else wait_all os pids) ;;;
      ret EXIT_SUCCESS
  end.

(** Lines 157-239: the spawning loop and what follows it. *)
Definition pipeline_run (os : os_t) (l : cmdline_t) (pipes : list (Z * Z))
    (in_fd_first out_fd_last : Z) (garbage : nat → Z) : M Z :=
  let ncmds := length (seq l) in
  r <~ spawn_loop os l ncmds pipes out_fd_last (seq l) 0 in_fd_first
         (garbage <$> List.seq 0%nat ncmds) ;;
  pipeline_finish os l pipes out_fd_last r.

(** The descriptors held by an array of pipes. *)
Definition pipe_fds (pipes : list (Z * Z)) : gset Z :=
  list_to_set (flat_map (λ p, [fst p; snd p]) pipes).

(** The descriptor an end redirection occupies, if one was requested. *)
Definition redir_fds (path : option string) (fd : Z) : gset Z :=
  match path with Some _ => {[fd]} | None => ∅ end.

(** The descriptors the parent closes right after forking stage [i]
    (lines 197-204): the input redirection after stage 0, and for a later
    stage [pipes[i-1][1]]. *)
Definition parent_closes (pipes : list (Z * Z)) (i : nat) (in_fd_first : Z) : list Z :=
  (if bool_decide (i = 0%nat ∧ in_fd_first ≠ STDIN_FILENO) then [in_fd_first] else []) ++
  (if bool_decide (0 < i)%nat then [snd (pipe_at pipes (i - 1))] else []).

(** A one-stage command line whose only stage has an empty argv. *)
Definition cmd_empty_stage : cmdline_t := Cmdline [[]] None None false.

(** [cat < in.txt | wc > out.txt] and [cat < in.txt], in the foreground. *)
Definition cmd_cat_wc : cmdline_t :=
  Cmdline [["cat"]; ["wc"]] (Some "in.txt") (Some "out.txt") false.

Definition cmd_cat : cmdline_t := Cmdline [["cat"]] (Some "in.txt") None false.

Definition no_fork (e : event) : Prop :=
  match e with EvFork _ _ => False | _ => True end.

Definition is_stderr (e : event) : Prop :=
  match e with EvStderr _ => True | _ => False end.

(** [yes | head], in the foreground. *)
Definition cmd_yes_head : cmdline_t := Cmdline [["yes"]; ["head"]] None None false.

(** The first [fork] succeeds with process id 100, every later one fails;
    a fresh [malloc] block holds 0 in its first cell and the stale value
    777 in every other cell. *)
Definition os_second_fork_fails : os_t :=
  OS (λ tr, if decide (fork_count tr = 0%nat) then Some 100%positive else None)
     (os_open os_ok) (os_pipe os_ok) (os_waitpid os_ok)
     (λ _, Some (λ n, if decide (n = 0%nat) then 0 else 777)).

(** [sleep 9 | jobs &]: [jobs] as the second stage of a background pipeline. *)
Definition cmd_sleep_jobs_bg : cmdline_t :=
  Cmdline [["sleep"; "9"]; ["jobs"]] None None true.

(** [jobs > out.txt &]. *)
Definition cmd_jobs_redirected : cmdline_t :=
  Cmdline [["jobs"]] (Some "in.txt") (Some "out.txt") true.

(** The run kept the number of slots of the job table. *)
Definition same_size : relation world :=
  λ w w', length (g_jobs w') = length (g_jobs w).

(** As [os_ok], but every status check reports the process as terminated. *)
Definition os_all_done : os_t :=
  OS (os_fork os_ok) (os_open os_ok) (os_pipe os_ok) (λ _ p _, p) (os_malloc os_ok).

(** Events in which no child is involved: no [fork] and no blocking wait. *)
Definition no_child (e : event) : Prop :=
  match e with EvFork _ _ | EvWaitpid _ false _ => False | _ => True end.

(** Events that leave every output file alone. *)
Definition no_truncate (e : event) : Prop :=
  match e with EvOpen _ O_WRONLY_CREAT_TRUNC _ => False | _ => True end.

(** As [os_ok], but no file can be opened. *)
Definition os_no_open : os_t :=
  OS (os_fork os_ok) (λ _ _ _, false) (os_pipe os_ok) (os_waitpid os_ok) (os_malloc os_ok).

(** ** What a child does to the descriptors it inherited *)

(** The descriptor table of a child maps each open descriptor to the open
    file it refers to.  [run_child] follows a child script up to its
    [execvp] and gives the table the program starts with; [None] means the
    child ended before, by [_exit(126)] after a failed [dup2].
    [dup2(old, new)] fails when [old] is not open, and otherwise makes
    [new] refer to the file of [old]; [close] of a descriptor that is not
    open changes nothing. *)
Fixpoint run_child (m : gmap Z Z) (script : list child_op)
    : option (gmap Z Z * string * list string) :=
  match script with
  | [] => None
  | CDup2 oldfd newfd :: script' =>
      match m !! oldfd with
      | Some file => run_child (<[newfd := file]> m) script'
      | None => None
      end
  | CClose fd :: script' => run_child (delete fd m) script'
  | CExecvp file argv :: _ => Some (m, file, argv)
  end.

(** The table after closing the descriptors [fds], in order. *)
Definition close_all (fds : list Z) (m : gmap Z Z) : gmap Z Z :=
  foldl (λ m fd, delete fd m) m fds.

(** Both ends of every pipe, in the order of [pipes]. *)
Definition pipe_ends (pipes : list (Z * Z)) : list Z :=
  flat_map (λ p, [fst p; snd p]) pipes.

(** The descriptors stage [i] of a pipeline of [ncmds] stages reads from
    and writes to (lines 172-173). *)
Definition stage_in (pipes : list (Z * Z)) (i : nat) (in_fd_first : Z) : Z :=
  if decide (i = 0%nat) then in_fd_first else fst (pipe_at pipes (i - 1)).

Definition stage_out (pipes : list (Z * Z)) (ncmds i : nat) (out_fd_last : Z) : Z :=
  if decide (i = (ncmds - 1)%nat) then out_fd_last else snd (pipe_at pipes i).

(** ** Calls that can fail *)

(** A call whose failure [execute] checks for, and that failed: [fork] or
    [open] returning a negative value, [pipe] failing, [malloc] returning
    NULL. *)
Definition failed_call (e : event) : Prop :=
  match e with
  | EvFork _ r | EvOpen _ _ r => r < 0
  | EvPipe None | EvMalloc false => True
  | _ => False
  end.

Definition call_ok (e : event) : Prop := ¬ failed_call e.

(** The run appended events among which a call failed. *)
Definition fails_in : relation world :=
  λ w w', ∃ evs, w_trace w' = w_trace w ++ evs ∧ Exists failed_call evs.

(** What a step that can abort did: all its calls succeeded, or one failed. *)
Definition outcome_ok {A} (r : option A) : relation world :=
  match r with Some _ => grows call_ok | None => fails_in end.

(** What a run that returned [rv] did, [cause] being the one reason for
    failure that is not a failed call. *)
Definition verdict (cause : Prop) (rv : Z) : relation world :=
  λ w w', ∃ evs, w_trace w' = w_trace w ++ evs ∧
    (rv = EXIT_SUCCESS ∧ Forall call_ok evs ∧ ¬ cause ∨
     rv = EXIT_FAILURE ∧ (Exists failed_call evs ∨ cause)).

(** A shell whose job table is full: 64 running jobs. *)
Definition w_full_table : world :=
  World {[0; 1; 2]} (replicate MAX_JOBS (Job 7 1 "sleep 60 &")) "sleep 9 | jobs &" [].

(** Every run of [m] had all its calls succeed when it gives a value, and
    a call fail when it gives none. *)
Definition checked {A} (m : M (option A)) : Prop :=
  ∀ w, outcome_ok (fst (m w)) w (snd (m w)).

(** [m] is a clean-up path: it gives no value. *)
Definition aborts {A} (m : M (option A)) : Prop :=
  does (grows any_event) m ∧ ∀ w, fst (m w) = None.

(** The view a call returning a descriptor gives of its own success. *)
Definition checked_fd (m : M Z) : Prop :=
  ∀ w, if fst (m w) <? 0 then fails_in w (snd (m w)) else grows call_ok w (snd (m w)).

(** ** The descriptor table along a trace *)

(** The pipes created, in order. *)
Definition pipes_created (tr : list event) : list (Z * Z) :=
  omap (λ e, match e with EvPipe (Some p) => Some p | _ => None end) tr.

(** The effect of one call on the descriptor table of the shell. *)
Definition fds_step (fds : gset Z) (e : event) : gset Z :=
  match e with
  | EvOpen _ _ r => if r <? 0 then fds else fds ∪ {[r]}
  | EvPipe (Some (r, wr)) => fds ∪ {[r]} ∪ {[wr]}
  | EvClose fd => fds ∖ {[fd]}
  | _ => fds
  end.

(** The descriptor table after the calls of [tr], from the table [fds]. *)
Definition fds_after (fds : gset Z) (tr : list event) : gset Z :=
  foldl fds_step fds tr.

(** The table a child inherits from a parent holding [fds]: each descriptor
    refers to the open file the parent holds under that number at the
    [fork]. *)
Definition inherit (fds : gset Z) : gmap Z Z :=
  set_to_map (λ fd, (fd, fd)) fds.

(** What the set-up of a pipeline guarantees about the descriptors the
    spawning loop works with, [F] being the table of the shell before the
    set-up: the pipe ends are pairwise distinct and new, and so is each
    redirection descriptor that is not the default. *)
Definition layout (l : cmdline_t) (F : gset Z) (pipes : list (Z * Z)) (ncmds : nat)
    (in_fd out_fd : Z) : Prop :=
  STDIN_FILENO ∈ F ∧ STDOUT_FILENO ∈ F ∧
  length pipes = (ncmds - 1)%nat ∧
  NoDup (pipe_ends pipes) ∧
  (∀ fd, fd ∈ pipe_ends pipes → fd ∉ F) ∧
  (in_fd = STDIN_FILENO ∨ is_Some (l_in l) ∧ (in_fd ∉ F) ∧ (in_fd ∉ pipe_ends pipes)) ∧
  (out_fd = STDOUT_FILENO ∨ is_Some (l_out l) ∧ (out_fd ∉ F) ∧ (out_fd ∉ pipe_ends pipes)) ∧
  in_fd ≠ out_fd.

(** The descriptor table [W] of the parent when it forks stage [i]: the
    descriptors of the shell, the stage's input and output, and the pipe
    ends still to be handed out. *)
Definition loop_fds (F : gset Z) (pipes : list (Z * Z)) (ncmds i : nat)
    (in_fd out_fd : Z) (W : gset Z) : Prop :=
  F ⊆ W ∧
  (∀ fd, fd ∈ W → fd ∈ F ∨ fd ∈ pipe_ends pipes ∨ fd = in_fd ∨ fd = out_fd) ∧
  in_fd ∈ W ∧ out_fd ∈ W ∧
  (∀ k, (i - 1 ≤ k < ncmds - 1)%nat → fst (pipe_at pipes k) ∈ W) ∧
  (∀ k, (i ≤ k < ncmds - 1)%nat → snd (pipe_at pipes k) ∈ W).

Definition not_pipe (e : event) : Prop :=
  match e with EvPipe _ => False | _ => True end.

(** The non-blocking status check [reap_finished_jobs] makes on a slot. *)
Definition probe (j : job_t) (r : Z) : event := EvWaitpid (pid j) true r.

(** The table after its active slots, in slot order, got the answers [rs]
    to their status checks: the k-th active slot meets the k-th answer. *)
Fixpoint reap_with (jobs : list job_t) (rs : list Z) : list job_t :=
  match jobs with
  | [] => []
  | j :: jobs' =>
      if active j =? 0 then j :: reap_with jobs' rs
      else match rs with
           | r :: rs' => reaped j r :: reap_with jobs' rs'
           | [] => j :: jobs'
           end
  end.

(** [ls > out.txt], run in a shell whose standard output is closed. *)
Definition cmd_ls_out : cmdline_t := Cmdline [["ls"]] None (Some "out.txt") false.

Definition w_no_stdout : world := World {[0; 2]} g_jobs_init "ls > out.txt" [].

(** A single stage with an empty argv, and both redirections. *)
Definition cmd_empty_redirected : cmdline_t :=
  Cmdline [[]] (Some "in.txt") (Some "out.txt") false.

(** As [os_ok], but no file can be opened for writing. *)
Definition os_no_write : os_t :=
  OS (os_fork os_ok)
     (λ _ _ mode, match mode with O_RDONLY => true | O_WRONLY_CREAT_TRUNC => false end)
     (os_pipe os_ok) (os_waitpid os_ok) (os_malloc os_ok).

(** The table loops run [MAX_JOBS] times: they are reasoned about through
    their lemmas, never unrolled by simplification. *)
Arguments add_job : simpl never.
Arguments reap_finished_jobs : simpl never.
Arguments print_jobs : simpl never.

(** * Properties *)

Lemma world_eta w :
  World (w_fds w) (g_jobs w) (g_last_cmdline w) (w_trace w) = w.
Proof. by destruct w. Qed.

(** ** The job registry *)

Lemma add_job_loop_hit fuel i p text w n j :
  (i ≤ n < i + fuel)%nat →
  g_jobs w !! n = Some j → active j = 0 →
  (∀ k j', (i ≤ k < n)%nat → g_jobs w !! k = Some j' → active j' ≠ 0) →
  add_job_loop fuel i p text w =
    (Z.of_nat n,
     World (w_fds w) (<[n := new_job p text]> (g_jobs w)) (g_last_cmdline w) (w_trace w)).
Proof.
  revert i. induction fuel as [|fuel IH]; intros i Hn Hj Hz Hbefore; [lia|].
  simpl. destruct (decide (i = n)) as [->|Hne].
  - rewrite Hj. apply Z.eqb_eq in Hz. by rewrite Hz.
  - assert (Hrec : add_job_loop fuel (S i) p text w =
      (Z.of_nat n,
       World (w_fds w) (<[n := new_job p text]> (g_jobs w)) (g_last_cmdline w) (w_trace w))).
    { apply IH; [lia|done|done|]. intros k j' Hk. apply Hbefore. lia. }
    destruct (g_jobs w !! i) as [j'|] eqn:Hi; [|done].
    assert (active j' ≠ 0) as Hact by (apply (Hbefore i); [lia|done]).
    apply Z.eqb_neq in Hact. by rewrite Hact.
Qed.

Lemma add_job_loop_full fuel i p text w :
  (∀ k j, (i ≤ k)%nat → g_jobs w !! k = Some j → active j ≠ 0) →
  add_job_loop fuel i p text w =
    (-1, World (w_fds w) (g_jobs w) (g_last_cmdline w)
           (w_trace w ++ [EvStderr ("jobs: job table full" +:+ NL)])).
Proof.
  revert i. induction fuel as [|fuel IH]; intros i Hall; [done|].
  simpl. destruct (g_jobs w !! i) as [j|] eqn:Hi.
  - assert (active j ≠ 0) as Hact by (apply (Hall i); [lia|done]).
    apply Z.eqb_neq in Hact. rewrite Hact. apply IH. intros k j' Hk. apply Hall. lia.
  - apply IH. intros k j' Hk. apply Hall. lia.
Qed.

Lemma add_job_first_inactive p text w n :
  length (g_jobs w) = MAX_JOBS → first_inactive (g_jobs w) n →
  add_job p text w =
    (Z.of_nat n,
     World (w_fds w) (<[n := new_job p text]> (g_jobs w)) (g_last_cmdline w) (w_trace w)).
Proof.
  intros Hlen [(j & Hj & Hz) Hbefore]. unfold add_job.
  apply (add_job_loop_hit _ _ _ _ _ _ j); [|done|done|].
  - apply lookup_lt_Some in Hj. lia.
  - intros k j' Hk. apply Hbefore. lia.
Qed.

Lemma add_job_all_active p text w :
  all_active (g_jobs w) →
  add_job p text w =
    (-1, World (w_fds w) (g_jobs w) (g_last_cmdline w)
           (w_trace w ++ [EvStderr ("jobs: job table full" +:+ NL)])).
Proof. intros Hall. apply add_job_loop_full. intros k j _. apply Hall. Qed.

(** [string_take] keeps a prefix of the given length. *)
Lemma string_take_prefix n s :
  ∃ rest, s = string_take n s +:+ rest ∧
          String.length (string_take n s) = (n `min` String.length s)%nat.
Proof.
  revert s. induction n as [|n IH]; intros s.
  - exists s. by destruct s.
  - destruct s as [|c s]; [by exists ""|].
    destruct (IH s) as (rest & Heq & Hlen). exists rest. simpl. split; [|by rewrite Hlen].
    change (String c s = String c (string_take n s +:+ rest)). by f_equal.
Qed.

Lemma string_take_all n s : (String.length s ≤ n)%nat → string_take n s = s.
Proof.
  revert s. induction n as [|n IH]; intros [|c s] Hlen; simpl in *; try done; try lia.
  rewrite IH; [done|lia].
Qed.

Lemma new_jobs_active (reqs : list (Z * option string)) :
  all_active ((λ r, new_job (fst r) (snd r)) <$> reqs).
Proof.
  intros k j Hk. apply list_lookup_fmap_Some in Hk as (r & -> & _). done.
Qed.

Lemma add_jobs_fill reqs (act : list job_t) w :
  all_active act →
  g_jobs w = act ++ replicate (length reqs) job_zero →
  (length act + length reqs = MAX_JOBS)%nat →
  add_jobs reqs w =
    (Z.of_nat <$> List.seq (length act) (length reqs),
     World (w_fds w) (act ++ ((λ r, new_job (fst r) (snd r)) <$> reqs))
       (g_last_cmdline w) (w_trace w)).
Proof.
  revert act w. induction reqs as [|[p t] reqs IH]; intros act w Hact Hjobs Hlen.
  - simpl in *. unfold ret. rewrite <-Hjobs. by rewrite world_eta.
  - simpl in Hjobs, Hlen. simpl. unfold bind.
    rewrite (add_job_first_inactive p t w (length act)).
    + rewrite (IH (act ++ [new_job p t])).
      * simpl. rewrite length_app. simpl. replace (length act + 1)%nat with (S (length act)) by lia.
        by rewrite <-app_assoc.
      * intros k j Hk. apply lookup_app_Some in Hk as [Hk|[_ Hk]]; [by eapply Hact|].
        apply list_lookup_singleton_Some in Hk as [_ <-]. done.
      * simpl. rewrite Hjobs. rewrite insert_app_r_alt by lia.
        rewrite Nat.sub_diag. simpl. by rewrite <-app_assoc.
      * rewrite length_app. simpl. lia.
    + rewrite Hjobs, length_app. simpl. rewrite length_replicate. lia.
    + split.
      * exists job_zero. split; [|done]. rewrite Hjobs.
        rewrite lookup_app_r by lia. by rewrite Nat.sub_diag.
      * intros k j Hk Hj. rewrite Hjobs in Hj. rewrite lookup_app_l in Hj by lia.
        by eapply Hact.
Qed.

(** C4. [add_job] returns the index of the first inactive slot and stores
    there the process id, [active = 1] and the command text cut to at most
    255 characters, touching nothing else; when all 64 slots are active it
    returns -1 and leaves every slot as it was.  Hence 64 insertions into
    the empty table take slots 0..63 in order, and a 65th one fails while
    the first 64 records stay in place. *)
Theorem add_job_spec (p : Z) (text : option string) (w : world) :
  length (g_jobs w) = MAX_JOBS →
  (∀ n, first_inactive (g_jobs w) n →
     add_job p text w =
       (Z.of_nat n,
        World (w_fds w)
          (<[n := Job p 1 (snprintf_s CMDLINE_SIZE (default "" text))]> (g_jobs w))
          (g_last_cmdline w) (w_trace w))) ∧
  (∀ s, ∃ rest, s = snprintf_s CMDLINE_SIZE s +:+ rest ∧
     String.length (snprintf_s CMDLINE_SIZE s) = (255 `min` String.length s)%nat) ∧
  (all_active (g_jobs w) →
     fst (add_job p text w) = -1 ∧ g_jobs (snd (add_job p text w)) = g_jobs w) ∧
  (∀ reqs, g_jobs w = g_jobs_init → length reqs = MAX_JOBS →
     let w' := snd (add_jobs reqs w) in
     fst (add_jobs reqs w) = Z.of_nat <$> List.seq 0 MAX_JOBS ∧
     g_jobs w' = (λ r, Job (fst r) 1 (snprintf_s CMDLINE_SIZE (default "" (snd r)))) <$> reqs ∧
     fst (add_job p text w') = -1 ∧
     g_jobs (snd (add_job p text w')) = g_jobs w').
Proof.
  intros Hlen. split; [|split; [|split]].
  - intros n Hn. by apply add_job_first_inactive.
  - intros s. apply string_take_prefix.
  - intros Hall. by rewrite add_job_all_active.
  - intros reqs Hinit Hreqs. simpl.
    rewrite (add_jobs_fill reqs [] w); simpl.
    + rewrite Hreqs. split; [done|]. split; [done|].
      rewrite add_job_all_active; [done|]. simpl. apply new_jobs_active.
    + intros k j Hk. done.
    + by rewrite Hreqs.
    + by rewrite Hreqs.
Qed.

Lemma reap_loop_S os fuel i w :
  reap_loop os (S fuel) i w =
    match g_jobs w !! i with
    | Some j =>
        if active j =? 0 then reap_loop os fuel (S i) w
        else
          let r := os_waitpid os (w_trace w) (pid j) true in
          reap_loop os fuel (S i)
            (World (w_fds w)
               (if r =? pid j then <[i := Job (pid j) 0 (cmdline j)]> (g_jobs w) else g_jobs w)
               (g_last_cmdline w) (w_trace w ++ [EvWaitpid (pid j) true r]))
    | None => reap_loop os fuel (S i) w
    end.
Proof.
  simpl. destruct (g_jobs w !! i) as [j|]; [|done].
  destruct (active j =? 0); [done|].
  unfold bind, sys_waitpid, when_, set_jobs, emit; simpl.
  by destruct (os_waitpid os (w_trace w) (pid j) true =? pid j).
Qed.

Lemma reap_loop_spec os fuel i w :
  let w' := snd (reap_loop os fuel i w) in
  w_fds w' = w_fds w ∧ g_last_cmdline w' = g_last_cmdline w ∧
  length (g_jobs w') = length (g_jobs w) ∧
  ∃ evs, w_trace w' = w_trace w ++ evs ∧ Forall is_nohang_wait evs ∧
    ∀ k j, g_jobs w !! k = Some j →
      ((k < i)%nat ∨ (i + fuel ≤ k)%nat ∨ active j = 0 → g_jobs w' !! k = Some j) ∧
      ((i ≤ k < i + fuel)%nat → active j ≠ 0 →
         ∃ r, EvWaitpid (pid j) true r ∈ evs ∧ g_jobs w' !! k = Some (reaped j r)).
Proof.
  revert i w. induction fuel as [|fuel IH]; intros i w.
  { simpl. repeat split; try done. exists []. rewrite app_nil_r. repeat split; try done. lia. }
  rewrite reap_loop_S.
  destruct (g_jobs w !! i) as [j0|] eqn:Hi.
  2:{ destruct (IH (S i) w) as (Hf & Hc & Hl & evs & Ht & Hev & Hk).
      repeat split; try done. exists evs. repeat split; try done.
      - intros Hcase. apply (Hk k j H). destruct (decide (k = i)) as [->|]; [congruence|lia].
      - intros Hr Ha. apply (Hk k j H); [|done].
        destruct (decide (k = i)) as [->|]; [congruence|lia]. }
  destruct (active j0 =? 0) eqn:Hact.
  { apply Z.eqb_eq in Hact.
    destruct (IH (S i) w) as (Hf & Hc & Hl & evs & Ht & Hev & Hk).
    repeat split; try done. exists evs. repeat split; try done.
    - intros Hcase. apply (Hk k j H).
      destruct (decide (k = i)) as [->|]; [right; right; congruence|lia].
    - intros Hr Ha. apply (Hk k j H); [|done].
      destruct (decide (k = i)) as [->|]; [congruence|lia]. }
  apply Z.eqb_neq in Hact. simpl.
  set (r := os_waitpid os (w_trace w) (pid j0) true).
  set (w1 := World (w_fds w) (if r =? pid j0 then <[i := Job (pid j0) 0 (cmdline j0)]> (g_jobs w)
                                else g_jobs w)
               (g_last_cmdline w) (w_trace w ++ [EvWaitpid (pid j0) true r])).
  assert (Hjobs1 : ∀ k, k ≠ i → g_jobs w1 !! k = g_jobs w !! k).
  { intros k Hk. unfold w1; simpl. destruct (r =? pid j0); [|done].
    by rewrite list_lookup_insert_ne. }
  assert (Hjobs1i : g_jobs w1 !! i = Some (reaped j0 r)).
  { unfold w1, reaped; simpl. destruct (r =? pid j0); [|done].
    apply list_lookup_insert_eq. by eapply lookup_lt_Some. }
  assert (Hlen1 : length (g_jobs w1) = length (g_jobs w)).
  { unfold w1; simpl. destruct (r =? pid j0); [|done]. by rewrite length_insert. }
  destruct (IH (S i) w1) as (Hf & Hc & Hl & evs & Ht & Hev & Hk).
  split; [by rewrite Hf|]. split; [by rewrite Hc|]. split; [by rewrite Hl|].
  exists (EvWaitpid (pid j0) true r :: evs). split; [|split].
  - rewrite Ht. unfold w1; simpl. by rewrite <-app_assoc.
  - by constructor.
  - intros k j Hj. destruct (decide (k = i)) as [->|Hne].
    + assert (j = j0) as -> by congruence. split.
      * intros [?|[?|?]]; [lia|lia|done].
      * intros _ _. exists r. split; [by left|].
        apply (Hk i (reaped j0 r) Hjobs1i). lia.
    + rewrite <-(Hjobs1 k Hne) in Hj. split.
      * intros Hcase. apply (Hk k j Hj). lia.
      * intros Hr Ha. destruct (Hk k j Hj) as [_ Hk2].
        destruct Hk2 as (r' & Hin & Hres); [lia|done|].
        exists r'. split; [by right|done].
Qed.

Lemma reap_finished_jobs_spec os w :
  let w' := snd (reap_finished_jobs os w) in
  w_fds w' = w_fds w ∧ g_last_cmdline w' = g_last_cmdline w ∧
  length (g_jobs w') = length (g_jobs w) ∧
  ∃ evs, w_trace w' = w_trace w ++ evs ∧ Forall is_nohang_wait evs ∧
    ∀ k j, (k < MAX_JOBS)%nat → g_jobs w !! k = Some j →
      (active j = 0 → g_jobs w' !! k = Some j) ∧
      (active j ≠ 0 →
         ∃ r, EvWaitpid (pid j) true r ∈ evs ∧ g_jobs w' !! k = Some (reaped j r)).
Proof.
  destruct (reap_loop_spec os MAX_JOBS 0 w) as (Hf & Hc & Hl & evs & Ht & Hev & Hk).
  repeat split; try done. exists evs. repeat split; try done.
  - intros Ha. apply (Hk k j); auto.
  - intros Ha. apply (Hk k j); [done|lia|done].
Qed.

Lemma print_loop_spec fuel i any w :
  print_loop fuel i any w =
    (any || negb (bool_decide (active_jobs (take fuel (drop i (g_jobs w))) = [])),
     World (w_fds w) (g_jobs w) (g_last_cmdline w)
       (w_trace w ++ (EvStdout ∘ job_line <$> active_jobs (take fuel (drop i (g_jobs w)))))).
Proof.
  revert i any w. induction fuel as [|fuel IH]; intros i any w.
  { simpl. unfold ret. rewrite app_nil_r, world_eta. by rewrite orb_false_r. }
  simpl. destruct (g_jobs w !! i) as [j|] eqn:Hi.
  - rewrite (drop_S _ _ _ Hi). simpl. unfold active_jobs. rewrite filter_cons.
    destruct (active j =? 0) eqn:Hact.
    + apply Z.eqb_eq in Hact. rewrite decide_False by (intros ?; done).
      apply IH.
    + apply Z.eqb_neq in Hact. rewrite decide_True by done.
      unfold bind, emit; simpl. rewrite IH. simpl.
      rewrite <-app_assoc. simpl. by rewrite orb_true_r.
  - rewrite IH. apply lookup_ge_None in Hi.
    rewrite !drop_ge by lia. by rewrite !take_nil.
Qed.

Lemma job_line_format j :
  job_line j =
    "[" +:+ pretty (pid j) +:+ "] Running  " +:+
    (if decide (cmdline j = "") then "(unknown)" else cmdline j) +:+ NL.
Proof. unfold job_line. by destruct (cmdline j). Qed.

(** C6, as the code has it.  [print_jobs] first runs [reap_finished_jobs]
    and then writes, in slot order, one line [[<pid>] Running  <text>] per
    slot that is still active, where an empty stored text is shown as
    [(unknown)]; when no slot is active it writes the single line
    [(no background jobs)].  Every slot listed was probed by that reap and
    the probe did not report its process as terminated. *)
Theorem print_jobs_spec (os : os_t) (w : world) :
  length (g_jobs w) = MAX_JOBS →
  let w1 := snd (reap_finished_jobs os w) in
  let listed := active_jobs (g_jobs w1) in
  print_jobs os w =
    (tt, World (w_fds w1) (g_jobs w1) (g_last_cmdline w1)
           (w_trace w1 ++
              (if decide (listed = [])
               then [EvStdout ("(no background jobs)" +:+ NL)]
               else EvStdout ∘ job_line <$> listed))) ∧
  (∀ j, job_line j =
     "[" +:+ pretty (pid j) +:+ "] Running  " +:+
     (if decide (cmdline j = "") then "(unknown)" else cmdline j) +:+ NL) ∧
  (∀ k j, g_jobs w1 !! k = Some j → active j ≠ 0 →
     g_jobs w !! k = Some j ∧
     ∃ r, r ≠ pid j ∧
          EvWaitpid (pid j) true r ∈ drop (length (w_trace w)) (w_trace w1)).
Proof.
  intros Hlen w1 listed.
  destruct (reap_finished_jobs_spec os w) as (Hf & Hc & Hl & evs & Ht & Hev & Hk).
  fold w1 in Hf, Hc, Hl, Ht, Hk.
  split; [|split].
  - unfold print_jobs, bind.
    destruct (reap_finished_jobs os w) as [[] w1'] eqn:Hreap. simpl in w1. subst w1.
    rewrite print_loop_spec. rewrite drop_0.
    rewrite take_ge by (rewrite Hl, Hlen; done).
    fold listed. unfold when_. simpl. destruct (decide (listed = [])) as [Hnil|Hnil].
    + rewrite bool_decide_true by done. simpl. unfold emit; simpl.
      by rewrite Hnil, app_nil_r.
    + rewrite bool_decide_false by done. simpl. unfold ret. done.
  - apply job_line_format.
  - intros k j Hj Ha.
    assert (is_Some (g_jobs w !! k)) as [j0 Hj0].
    { apply lookup_lt_is_Some. rewrite <-Hl. by eapply lookup_lt_Some. }
    assert (k < MAX_JOBS)%nat as Hlt by (rewrite <-Hlen; by eapply lookup_lt_Some).
    destruct (Hk k j0 Hlt Hj0) as [Hk0 Hk1].
    destruct (decide (active j0 = 0)) as [Hz|Hnz].
    + rewrite (Hk0 Hz) in Hj. congruence.
    + destruct (Hk1 Hnz) as (r & Hin & Hres). rewrite Hres in Hj.
      unfold reaped in Hj. destruct (r =? pid j0) eqn:Hr.
      * inversion Hj; subst. done.
      * inversion Hj; subst. split; [done|]. exists r. apply Z.eqb_neq in Hr.
        split; [done|]. rewrite Ht. by rewrite drop_app_length.
Qed.

Lemma add_job_spec_witness :
  length (g_jobs shell_start) = MAX_JOBS ∧
  add_job 7 (Some "ls &") shell_start =
    (0, World {[0; 1; 2]} (<[0%nat := Job 7 1 "ls &"]> g_jobs_init) "sleep 5 &" []).
Proof.
  split; [reflexivity|].
  apply (proj1 (add_job_spec 7 (Some "ls &") shell_start eq_refl) 0%nat).
  split; [exists job_zero; split; reflexivity | intros k j Hk; lia].
Defined.

Lemma print_jobs_spec_witness :
  length (g_jobs w_untitled_job) = MAX_JOBS ∧
  stdout_lines (w_trace (snd (print_jobs os_ok w_untitled_job))) =
    ["[42] Running  (unknown)" +:+ NL].
Proof.
  split; [reflexivity|].
  rewrite (proj1 (print_jobs_spec os_ok w_untitled_job eq_refl)).
  reflexivity.
Defined.

(** C6, counterexample.  A job stored with an empty command text is listed
    as [[42] Running  (unknown)], not as [[42] Running  ] followed by its
    (empty) command text. *)
Lemma print_jobs_empty_text_counterexample :
  let w' := snd (print_jobs os_ok w_untitled_job) in
  stdout_lines (w_trace w') = ["[42] Running  (unknown)" +:+ NL] ∧
  claimed_job_line <$> active_jobs (g_jobs w') = ["[42] Running  " +:+ NL] ∧
  stdout_lines (w_trace w') ≠ claimed_job_line <$> active_jobs (g_jobs w').
Proof. vm_compute. repeat split; congruence. Qed.

(** C5, at the failing input.  One active slot holds process 100 and the
    non-blocking [waitpid] answers -1 (no such child: it was reaped
    elsewhere).  [reap_finished_jobs] makes that one status check and
    leaves the slot active. *)
Theorem reap_keeps_slot_reaped_elsewhere :
  let w' := snd (reap_finished_jobs os_echild w_bg_job) in
  g_jobs w_bg_job !! 0%nat = Some (Job 100 1 "sleep 5 &") ∧
  w_trace w' = [EvWaitpid 100 true (-1)] ∧
  g_jobs w' !! 0%nat = Some (Job 100 1 "sleep 5 &").
Proof. vm_compute. done. Qed.

(** Traces are compared with their appends associated to the right. *)
Ltac norm_trace :=
  repeat (rewrite <-app_assoc || rewrite <-app_comm_cons || rewrite app_nil_r).

(** ** The single-command executor *)

Lemma when_close dflt fd w :
  when_ (bool_decide (fd ≠ dflt)) (sys_close fd) w =
    (tt, World (drop_unless dflt fd (w_fds w)) (g_jobs w) (g_last_cmdline w)
           (w_trace w ++ close_unless dflt fd)).
Proof.
  unfold when_, close_unless, drop_unless, sys_close, emit, ret. simpl.
  destruct (decide (fd ≠ dflt)).
  - by rewrite bool_decide_true.
  - rewrite bool_decide_false by done. by rewrite app_nil_r, world_eta.
Qed.

Lemma execute_command_run (os : os_t) (c a0 : string) (rest : list string)
    (in_ out bg : Z) (w : world) :
  let child := command_child c (a0 :: rest) in_ out in
  let closes := close_unless STDIN_FILENO in_ ++ close_unless STDOUT_FILENO out in
  let fds' := drop_unless STDOUT_FILENO out (drop_unless STDIN_FILENO in_ (w_fds w)) in
  let res := execute_command os (Some c) (Some (a0 :: rest)) in_ out bg w in
  (os_fork os (w_trace w) = None →
     res = (EXIT_FAILURE,
            World fds' (g_jobs w) (g_last_cmdline w)
              (w_trace w ++ [EvFork child (-1); EvPerror "fork"] ++ closes))) ∧
  (∀ p, os_fork os (w_trace w) = Some p →
     let w_closed := World fds' (g_jobs w) (g_last_cmdline w)
                       (w_trace w ++ [EvFork child (Z.pos p)] ++ closes) in
     res = (EXIT_SUCCESS,
            if bg =? 0 then snd (sys_waitpid os (Z.pos p) false w_closed)
            else snd (add_job (Z.pos p) (Some (g_last_cmdline w)) w_closed))).
Proof.
  intros child closes fds' res. subst res. split.
  - intros Hf. unfold execute_command, bind, sys_fork. rewrite Hf. simpl.
    unfold perror, emit. simpl. rewrite !when_close. simpl. unfold ret.
    subst fds' closes child. by rewrite <-!app_assoc.
  - intros p Hf. unfold execute_command, bind, sys_fork. rewrite Hf. simpl.
    rewrite !when_close. simpl. subst fds' closes child. rewrite <-!app_assoc. simpl.
    destruct (bg =? 0); simpl.
    + unfold ret. by norm_trace.
    + norm_trace. by destruct (add_job _ _ _).
Qed.

(** C9, as the code has it.  After a successful [fork], and likewise after
    a failed one, the parent closes the input descriptor unless it is
    [STDIN_FILENO] and the output descriptor unless it is [STDOUT_FILENO];
    a default descriptor is left open.  When [fork] fails the call reports
    failure, and no child exists: nothing is waited for or registered. *)
Theorem execute_command_closes (os : os_t) (c a0 : string) (rest : list string)
    (in_ out bg : Z) (w : world) :
  let child := command_child c (a0 :: rest) in_ out in
  let closes := close_unless STDIN_FILENO in_ ++ close_unless STDOUT_FILENO out in
  let fds' := drop_unless STDOUT_FILENO out (drop_unless STDIN_FILENO in_ (w_fds w)) in
  let res := execute_command os (Some c) (Some (a0 :: rest)) in_ out bg w in
  (os_fork os (w_trace w) = None →
     res = (EXIT_FAILURE,
            World fds' (g_jobs w) (g_last_cmdline w)
              (w_trace w ++ [EvFork child (-1); EvPerror "fork"] ++ closes))) ∧
  (∀ p, os_fork os (w_trace w) = Some p →
     let w_closed := World fds' (g_jobs w) (g_last_cmdline w)
                       (w_trace w ++ [EvFork child (Z.pos p)] ++ closes) in
     res = (EXIT_SUCCESS,
            if bg =? 0 then snd (sys_waitpid os (Z.pos p) false w_closed)
            else snd (add_job (Z.pos p) (Some (g_last_cmdline w)) w_closed))).
Proof. apply execute_command_run. Qed.

Lemma execute_command_closes_witness :
  os_fork os_ok (w_trace shell_start) = Some 100%positive ∧
  execute_command os_ok (Some "cat") (Some ["cat"]) 5 STDOUT_FILENO 0
    (World {[0; 1; 2; 5]} g_jobs_init "cat < f" []) =
  (EXIT_SUCCESS,
   World {[0; 1; 2]} g_jobs_init "cat < f"
     [EvFork [CDup2 5 0; CClose 5; CExecvp "cat" ["cat"]] 100; EvClose 5;
      EvWaitpid 100 false 100]).
Proof.
  split; [reflexivity|].
  rewrite (proj2 (execute_command_closes os_ok "cat" "cat" [] 5 STDOUT_FILENO 0
                    (World {[0; 1; 2; 5]} g_jobs_init "cat < f" [])) 100%positive eq_refl).
  vm_compute. reflexivity.
Defined.

(** C9, counterexample.  Given the defaults-equivalent descriptors 0 and 1,
    the parent closes neither: no [close] is issued and both stay open. *)
Lemma execute_command_defaults_counterexample :
  let w' := snd (execute_command os_ok (Some "ls") (Some ["ls"])
                   STDIN_FILENO STDOUT_FILENO 0 shell_start) in
  w_trace w' = [EvFork [CExecvp "ls" ["ls"]] 100; EvWaitpid 100 false 100] ∧
  ¬ (EvClose STDIN_FILENO ∈ w_trace w' ∧ EvClose STDOUT_FILENO ∈ w_trace w') ∧
  w_fds w' = w_fds shell_start ∧ STDIN_FILENO ∈ w_fds w' ∧ STDOUT_FILENO ∈ w_fds w'.
Proof.
  assert (Htr : w_trace (snd (execute_command os_ok (Some "ls") (Some ["ls"])
                   STDIN_FILENO STDOUT_FILENO 0 shell_start)) =
                [EvFork [CExecvp "ls" ["ls"]] 100; EvWaitpid 100 false 100])
    by (vm_compute; reflexivity).
  assert (Hfds : w_fds (snd (execute_command os_ok (Some "ls") (Some ["ls"])
                   STDIN_FILENO STDOUT_FILENO 0 shell_start)) = w_fds shell_start)
    by (vm_compute; reflexivity).
  cbv zeta. rewrite Htr, Hfds. split; [done|]. split.
  - intros [H _]. apply list_elem_of_In in H. simpl in H.
    destruct H as [H|[H|[]]]; discriminate H.
  - split; [done|]. unfold shell_start, STDIN_FILENO, STDOUT_FILENO. simpl. set_solver.
Qed.

(** ** [execute] with no stage or one stage *)

Ltac run_open :=
  match goal with
  | |- context [sys_open ?os ?p ?m ?w] => destruct (sys_open os p m w) as [? ?]
  | |- context [if ?b <? 0 then _ else _] => destruct (b <? 0)
  | |- context [when_ ?b ?m ?w] => destruct (when_ b m w) as [? ?]
  end.

Opaque execute_command.

Lemma execute_one_stage os l w a0 rest :
  seq l = [a0 :: rest] → a0 ≠ "jobs" →
  execute os (Some l) w =
    single_stage_spec os l (a0 :: rest) (snd (reap_finished_jobs os w)).
Proof.
  intros Hseq Hjobs. unfold execute, bind at 1. rewrite Hseq.
  destruct (reap_finished_jobs os w) as [[] w1].
  rewrite bool_decide_false by done.
  unfold single_stage_spec, resolve_end_redirections, and_then, bind, perror, ret.
  destruct (l_in l) as [pin|], (l_out l) as [pout|];
    cbn -[execute_command when_ sys_open]; try reflexivity;
    repeat (run_open; cbn -[execute_command when_ sys_open]; try reflexivity).
Qed.

Transparent execute_command.

Lemma execute_no_stage os l w :
  seq l = [] → execute os (Some l) w = (EXIT_SUCCESS, snd (reap_finished_jobs os w)).
Proof.
  intros Hseq. unfold execute, bind. rewrite Hseq.
  by destruct (reap_finished_jobs os w) as [[] w1].
Qed.

Lemma execute_empty_argv os l w :
  seq l = [[]] → execute os (Some l) w = (EXIT_SUCCESS, snd (reap_finished_jobs os w)).
Proof.
  intros Hseq. unfold execute, bind. rewrite Hseq.
  by destruct (reap_finished_jobs os w) as [[] w1].
Qed.

(** C8.  After the reap that opens every call, [execute] on a command line
    without stages does nothing and returns success; on a single stage with
    a non-empty argv that is not the [jobs] builtin it does exactly what
    resolving the end redirections and then calling [execute_command] with
    the resolved descriptors and the background flag does; on a single
    stage with an empty argv it returns success at once, before any
    redirection is resolved. *)
Theorem execute_single_stage (os : os_t) (l : cmdline_t) (w : world) :
  let w1 := snd (reap_finished_jobs os w) in
  (seq l = [] →
     execute os (Some l) w = (EXIT_SUCCESS, w1) ∧
     w_fds w1 = w_fds w ∧
     ∃ evs, w_trace w1 = w_trace w ++ evs ∧ Forall is_nohang_wait evs) ∧
  (∀ argv, seq l = [argv] → argv ≠ [] → head argv ≠ Some "jobs" →
     execute os (Some l) w = single_stage_spec os l argv w1) ∧
  (seq l = [[]] → execute os (Some l) w = (EXIT_SUCCESS, w1)).
Proof.
  intros w1. split; [|split].
  - intros Hseq. destruct (reap_finished_jobs_spec os w) as (Hf & _ & _ & evs & Ht & Hev & _).
    split; [by apply execute_no_stage|]. split; [done|by exists evs].
  - intros [|a0 rest] Hseq Hne Hjobs; [done|].
    apply execute_one_stage; [done|]. simpl in Hjobs. congruence.
  - apply execute_empty_argv.
Qed.

(** ** Frame rules *)

Global Instance grows_refl P : Reflexive (grows P).
Proof. intros w. split; [done|]. exists []. by rewrite app_nil_r. Qed.

Global Instance grows_trans P : Transitive (grows P).
Proof.
  intros w1 w2 w3 [Hc1 (e1 & Ht1 & Hp1)] [Hc2 (e2 & Ht2 & Hp2)].
  split; [congruence|]. exists (e1 ++ e2). split.
  - by rewrite Ht2, Ht1, app_assoc.
  - by apply Forall_app.
Qed.

Global Instance same_jobs_refl : Reflexive same_jobs.
Proof. by intros w. Qed.

Global Instance same_jobs_trans : Transitive same_jobs.
Proof. unfold same_jobs. intros w1 w2 w3 H1 H2. congruence. Qed.

Global Instance same_fds_refl : Reflexive same_fds.
Proof. by intros w. Qed.

Global Instance same_fds_trans : Transitive same_fds.
Proof. unfold same_fds. intros w1 w2 w3 H1 H2. congruence. Qed.

Section FrameRules.
Context {A B : Type} (R : relation world).

Lemma does_ret `{!Reflexive R} (a : A) : does R (ret a).
Proof. intros w. simpl. reflexivity. Qed.

Lemma does_bind `{!Transitive R} (m : M A) (k : A → M B) :
  does R m → (∀ a, does R (k a)) → does R (bind m k).
Proof.
  intros Hm Hk w. unfold bind. specialize (Hm w).
  destruct (m w) as [a w1]. simpl in Hm. etrans; [exact Hm|]. apply Hk.
Qed.

Lemma does_when `{!Reflexive R} (b : bool) (m : M unit) :
  does R m → does R (when_ b m).
Proof. intros Hm. destruct b; [done|]. intros w. simpl. reflexivity. Qed.

End FrameRules.

Lemma grows_emit P e : P e → does (grows P) (emit e).
Proof. intros He w. split; [done|]. exists [e]. split; [done|]. by constructor. Qed.

Lemma grows_set_jobs P jobs : does (grows P) (set_jobs jobs).
Proof. intros w. split; [done|]. exists []. by rewrite app_nil_r. Qed.

Lemma grows_close P fd : P (EvClose fd) → does (grows P) (sys_close fd).
Proof. intros He w. split; [done|]. exists [EvClose fd]. split; [done|]. by constructor. Qed.

Lemma grows_open P os path mode :
  (∀ r, P (EvOpen path mode r)) → does (grows P) (sys_open os path mode).
Proof.
  intros He w. unfold sys_open. destruct (os_open _ _ _ _); simpl.
  all: split; [done|]; eexists [_]; split; [done|]; by constructor.
Qed.

Lemma grows_pipe P os : (∀ r, P (EvPipe r)) → does (grows P) (sys_pipe os).
Proof.
  intros He w. unfold sys_pipe. destruct (os_pipe _ _); simpl.
  all: split; [done|]; eexists [_]; split; [done|]; by constructor.
Qed.

Lemma grows_fork P os child : (∀ r, P (EvFork child r)) → does (grows P) (sys_fork os child).
Proof. intros He w. split; [done|]. eexists [_]. split; [done|]. by constructor. Qed.

Lemma grows_waitpid P os p nohang :
  (∀ r, P (EvWaitpid p nohang r)) → does (grows P) (sys_waitpid os p nohang).
Proof. intros He w. split; [done|]. eexists [_]. split; [done|]. by constructor. Qed.

Lemma grows_malloc P os : (∀ b, P (EvMalloc b)) → does (grows P) (sys_malloc os).
Proof. intros He w. split; [done|]. eexists [_]. split; [done|]. by constructor. Qed.

Lemma same_jobs_emit e : does same_jobs (emit e).
Proof. by intros w. Qed.

Lemma same_jobs_close fd : does same_jobs (sys_close fd).
Proof. by intros w. Qed.

Lemma same_jobs_open os path mode : does same_jobs (sys_open os path mode).
Proof. intros w. unfold sys_open. by destruct (os_open _ _ _ _). Qed.

Lemma same_jobs_pipe os : does same_jobs (sys_pipe os).
Proof. intros w. unfold sys_pipe. by destruct (os_pipe _ _). Qed.

Lemma same_jobs_fork os child : does same_jobs (sys_fork os child).
Proof. by intros w. Qed.

Lemma same_jobs_waitpid os p nohang : does same_jobs (sys_waitpid os p nohang).
Proof. by intros w. Qed.

Lemma same_jobs_malloc os : does same_jobs (sys_malloc os).
Proof. by intros w. Qed.

Lemma same_fds_emit e : does same_fds (emit e).
Proof. by intros w. Qed.

Lemma same_fds_set_jobs jobs : does same_fds (set_jobs jobs).
Proof. by intros w. Qed.

Lemma same_fds_fork os child : does same_fds (sys_fork os child).
Proof. by intros w. Qed.

Lemma same_fds_waitpid os p nohang : does same_fds (sys_waitpid os p nohang).
Proof. by intros w. Qed.

Lemma same_fds_malloc os : does same_fds (sys_malloc os).
Proof. by intros w. Qed.

Create HintDb frame discriminated.

#[global] Hint Resolve grows_emit grows_set_jobs grows_close grows_open grows_pipe
  grows_fork grows_waitpid grows_malloc
  same_jobs_emit same_jobs_close same_jobs_open same_jobs_pipe same_jobs_fork
  same_jobs_waitpid same_jobs_malloc
  same_fds_emit same_fds_set_jobs same_fds_fork same_fds_waitpid same_fds_malloc : frame.

#[global] Hint Extern 0 (not_stdout _) => exact I : frame.
#[global] Hint Extern 0 (nohang_or_stdout _) => exact I : frame.
#[global] Hint Extern 0 (setup_event _) => exact I : frame.
#[global] Hint Extern 0 (any_event _) => exact I : frame.

Lemma grows_mono (P Q : event → Prop) w w' :
  (∀ e, P e → Q e) → grows P w w' → grows Q w w'.
Proof.
  intros HPQ [Hc (evs & Ht & Hev)]. split; [done|]. exists evs. split; [done|].
  eapply Forall_impl; eauto.
Qed.

(** Walks through a monadic body, one construct at a time. *)
Ltac frame_step :=
  match goal with
  | |- does _ (ret _) => apply does_ret; try apply _
  | |- does _ (bind _ _) => apply does_bind; [apply _| |intros ?]
  | |- does _ (when_ _ _) => apply does_when; [apply _|]
  | |- does _ (perror _) => unfold perror
  | |- does _ (if ?b then _ else _) => destruct b
  | |- does _ (match ?x with Some _ => _ | None => _ end) => destruct x
  | |- does _ (match ?x with [] => _ | _ :: _ => _ end) => destruct x
  | |- does _ (match ?x with (_, _) => _ end) => destruct x
  | |- does _ (match ?x with LoopDone => _ | LoopFail => _ end) => destruct x
  | |- does _ (let _ := _ in _) => cbv zeta
  | |- does ?R (λ w, _) =>
        let w0 := fresh "w" in
        let H := fresh in
        intros w0; cbv beta;
        match goal with
        | |- _ _ (snd (?g w0)) => cut (does R g); [intros H; exact (H w0)|]
        end
  | |- _ => solve [eauto with frame]
  | |- _ => solve [simpl; eauto with frame]
  end.

Ltac frame := repeat frame_step.

(** ** Frame properties of the registry operations *)

Lemma add_job_loop_shape fuel i p text w :
  ∃ r jobs' evs,
    add_job_loop fuel i p text w =
      (r, World (w_fds w) jobs' (g_last_cmdline w) (w_trace w ++ evs)) ∧
    Forall (λ e, ∃ s, e = EvStderr s) evs.
Proof.
  revert i. induction fuel as [|fuel IH]; intros i.
  { simpl. eexists _, _, [_]. split; [done|]. constructor; [by eexists|done]. }
  simpl. destruct (g_jobs w !! i) as [j|]; [|apply IH].
  destruct (active j =? 0); [|apply IH].
  eexists _, _, []. rewrite app_nil_r. split; [done|done].
Qed.

Lemma add_job_same_fds p text : does same_fds (add_job p text).
Proof.
  intros w. destruct (add_job_loop_shape MAX_JOBS 0 p text w) as (r & jobs' & evs & Heq & _).
  unfold add_job. by rewrite Heq.
Qed.

Lemma add_job_grows P p text : (∀ s, P (EvStderr s)) → does (grows P) (add_job p text).
Proof.
  intros HP w. destruct (add_job_loop_shape MAX_JOBS 0 p text w) as (r & jobs' & evs & Heq & Hev).
  unfold add_job. rewrite Heq. split; [done|]. exists evs. split; [done|].
  eapply Forall_impl; [exact Hev|]. intros e [s ->]. apply HP.
Qed.

Lemma reap_same_fds os : does same_fds (reap_finished_jobs os).
Proof. intros w. by destruct (reap_finished_jobs_spec os w) as (Hf & _). Qed.

Lemma reap_grows P os : (∀ p r, P (EvWaitpid p true r)) → does (grows P) (reap_finished_jobs os).
Proof.
  intros HP w. destruct (reap_finished_jobs_spec os w) as (_ & Hc & _ & evs & Ht & Hev & _).
  split; [done|]. exists evs. split; [done|].
  eapply Forall_impl; [exact Hev|]. intros [] He; try done. destruct nohang; [apply HP|done].
Qed.

Lemma print_loop_same_fds fuel i any : does same_fds (print_loop fuel i any).
Proof. intros w. by rewrite print_loop_spec. Qed.

Lemma print_loop_grows P fuel i any :
  (∀ s, P (EvStdout s)) → does (grows P) (print_loop fuel i any).
Proof.
  intros HP w. rewrite print_loop_spec. split; [done|]. eexists. split; [done|].
  apply Forall_fmap, Forall_forall. intros j _. apply HP.
Qed.

#[global] Hint Resolve add_job_same_fds add_job_grows reap_same_fds reap_grows
  print_loop_same_fds print_loop_grows : frame.

Lemma print_jobs_same_fds os : does same_fds (print_jobs os).
Proof. unfold print_jobs. frame. Qed.

Lemma print_jobs_grows P os :
  (∀ p r, P (EvWaitpid p true r)) → (∀ s, P (EvStdout s)) → does (grows P) (print_jobs os).
Proof. intros H1 H2. unfold print_jobs. frame. Qed.

#[global] Hint Resolve print_jobs_same_fds print_jobs_grows : frame.

Lemma add_job_shape p text w :
  ∃ r jobs' evs,
    add_job p text w = (r, World (w_fds w) jobs' (g_last_cmdline w) (w_trace w ++ evs)) ∧
    Forall (λ e, ∃ s, e = EvStderr s) evs.
Proof. apply add_job_loop_shape. Qed.

Lemma add_job_loop_jobs_only fuel i p text w w' :
  g_jobs w = g_jobs w' →
  fst (add_job_loop fuel i p text w) = fst (add_job_loop fuel i p text w') ∧
  g_jobs (snd (add_job_loop fuel i p text w)) = g_jobs (snd (add_job_loop fuel i p text w')).
Proof.
  intros Hjobs. revert i. induction fuel as [|fuel IH]; intros i; [done|].
  simpl. rewrite <-Hjobs. destruct (g_jobs w !! i) as [j|]; [|apply IH].
  destruct (active j =? 0); [|apply IH]. simpl. by rewrite Hjobs.
Qed.

(** What [add_job] returns and stores depends on the table only. *)
Lemma add_job_jobs_only p text w w' :
  g_jobs w = g_jobs w' →
  fst (add_job p text w) = fst (add_job p text w') ∧
  g_jobs (snd (add_job p text w)) = g_jobs (snd (add_job p text w')).
Proof. apply add_job_loop_jobs_only. Qed.

(** ** Further properties of the registry *)

Global Instance same_size_refl : Reflexive same_size.
Proof. by intros w. Qed.

Global Instance same_size_trans : Transitive same_size.
Proof. unfold same_size. intros w1 w2 w3 H1 H2. congruence. Qed.

Lemma same_size_of_same_jobs {A} (m : M A) : does same_jobs m → does same_size m.
Proof. intros Hm w. unfold same_size. by rewrite (Hm w). Qed.

Lemma add_job_loop_same_size fuel i p text : does same_size (add_job_loop fuel i p text).
Proof.
  revert i. induction fuel as [|fuel IH]; intros i w; [done|].
  simpl. destruct (g_jobs w !! i) as [j|]; [|apply IH].
  destruct (active j =? 0); [|apply IH]. unfold same_size. simpl. apply length_insert.
Qed.

Lemma add_job_same_size p text : does same_size (add_job p text).
Proof. apply add_job_loop_same_size. Qed.

Lemma reap_same_size os : does same_size (reap_finished_jobs os).
Proof. intros w. by destruct (reap_finished_jobs_spec os w) as (_ & _ & Hl & _). Qed.

Lemma print_jobs_same_size os : does same_size (print_jobs os).
Proof.
  unfold print_jobs. apply does_bind; [apply _|apply reap_same_size|]. intros _.
  apply does_bind; [apply _| |intros any; apply does_when; [apply _|]].
  - intros w. rewrite print_loop_spec. done.
  - by apply same_size_of_same_jobs, same_jobs_emit.
Qed.

(** A slot is left alone by the reap when it is inactive, or when no
    status check on its process ever answers with its process id. *)
Lemma reap_loop_slot_kept os fuel i w k j :
  g_jobs w !! k = Some j →
  (active j ≠ 0 → ∀ tr, os_waitpid os tr (pid j) true ≠ pid j) →
  g_jobs (snd (reap_loop os fuel i w)) !! k = Some j.
Proof.
  revert i w. induction fuel as [|fuel IH]; intros i w Hk Hkeep; [done|].
  rewrite reap_loop_S. destruct (g_jobs w !! i) as [j0|] eqn:Hi; [|by apply IH].
  destruct (active j0 =? 0) eqn:Hact; [by apply IH|].
  apply Z.eqb_neq in Hact. cbv zeta. apply IH; [|done]. simpl.
  destruct (os_waitpid os (w_trace w) (pid j0) true =? pid j0) eqn:Hr; [|done].
  apply Z.eqb_eq in Hr. destruct (decide (k = i)) as [->|Hne].
  - assert (j0 = j) as -> by congruence. by destruct (Hkeep Hact (w_trace w)).
  - by rewrite list_lookup_insert_ne.
Qed.

Lemma reap_slot_kept os w k j :
  g_jobs w !! k = Some j →
  (active j ≠ 0 → ∀ tr, os_waitpid os tr (pid j) true ≠ pid j) →
  g_jobs (snd (reap_finished_jobs os w)) !! k = Some j.
Proof. apply reap_loop_slot_kept. Qed.

(** What [print_jobs] writes, in terms of the table after its reap. *)
Lemma print_jobs_run os w w1 :
  reap_finished_jobs os w = (tt, w1) → (length (g_jobs w1) ≤ MAX_JOBS)%nat →
  print_jobs os w =
    (tt, World (w_fds w1) (g_jobs w1) (g_last_cmdline w1)
           (w_trace w1 ++
              (if decide (active_jobs (g_jobs w1) = [])
               then [EvStdout ("(no background jobs)" +:+ NL)]
               else EvStdout ∘ job_line <$> active_jobs (g_jobs w1)))).
Proof.
  intros Hr Hlen. unfold print_jobs, bind. rewrite Hr.
  rewrite print_loop_spec, drop_0, take_ge by done.
  unfold when_. destruct (decide (active_jobs (g_jobs w1) = [])) as [Hnil|Hnil].
  - rewrite bool_decide_true by done. simpl. unfold emit; simpl.
    by rewrite Hnil, app_nil_r.
  - rewrite bool_decide_false by done. done.
Qed.

Lemma reap_loop_past os fuel : ∀ i w,
  (length (g_jobs w) ≤ i)%nat → reap_loop os fuel i w = (tt, w).
Proof.
  induction fuel as [|fuel IH]; intros i w Hi; [done|].
  rewrite reap_loop_S, lookup_ge_None_2 by done. apply IH. lia.
Qed.

(** The loop of [reap_finished_jobs], as a walk over the slots not yet
    visited: one probe per active slot, in order, each deciding its slot. *)
Lemma reap_loop_run os fuel : ∀ i w before rest,
  g_jobs w = before ++ rest → length before = i →
  ∃ rs,
    length rs = length (active_jobs (take fuel rest)) ∧
    reap_loop os fuel i w =
      (tt, World (w_fds w)
             (before ++ reap_with (take fuel rest) rs ++ drop fuel rest)
             (g_last_cmdline w)
             (w_trace w ++ zip_with probe (active_jobs (take fuel rest)) rs)) ∧
    ∀ k j r, active_jobs (take fuel rest) !! k = Some j → rs !! k = Some r →
      r = os_waitpid os
            (w_trace w ++ take k (zip_with probe (active_jobs (take fuel rest)) rs))
            (pid j) true.
Proof.
  induction fuel as [|fuel IH]; intros i w before rest Hjobs Hlen.
  { change (take 0 rest) with (@nil job_t). change (active_jobs []) with (@nil job_t).
    exists []. split; [done|]. split; [|intros k j r Hk; by rewrite lookup_nil in Hk].
    cbn [reap_loop drop reap_with zip_with app]. unfold ret.
    by rewrite drop_0, app_nil_r, <-Hjobs, world_eta. }
  destruct rest as [|j rest].
  { change (take (S fuel) []) with (@nil job_t). change (active_jobs []) with (@nil job_t).
    exists []. split; [done|]. split; [|intros k j r Hk; by rewrite lookup_nil in Hk].
    rewrite reap_loop_past by (rewrite Hjobs, length_app; simpl; lia).
    cbn [drop reap_with zip_with app]. rewrite !app_nil_r. rewrite app_nil_r in Hjobs.
    by rewrite <-Hjobs, world_eta. }
  assert (Hi : g_jobs w !! i = Some j).
  { rewrite Hjobs, <-Hlen. apply list_lookup_middle. done. }
  rewrite reap_loop_S, Hi.
  unfold active_jobs. cbn [take drop reap_with]. rewrite filter_cons.
  destruct (active j =? 0) eqn:Hact.
  - apply Z.eqb_eq in Hact. rewrite decide_False by (intros Hne; by apply Hne).
    destruct (IH (S i) w (before ++ [j]) rest) as (rs & Hl & Hrun & Htie).
    { by rewrite Hjobs, <-app_assoc. }
    { rewrite length_app. simpl. lia. }
    exists rs. split; [done|]. split; [|done].
    rewrite Hrun. by rewrite <-!app_assoc.
  - apply Z.eqb_neq in Hact. rewrite decide_True by done. cbv zeta.
    set (r := os_waitpid os (w_trace w) (pid j) true).
    set (w1 := World _ _ _ _).
    assert (Hjobs1 : g_jobs w1 = (before ++ [reaped j r]) ++ rest).
    { unfold w1, reaped. cbn [g_jobs]. rewrite Hjobs, <-app_assoc. cbn [app].
      destruct (r =? pid j); [|done].
      rewrite <-Hlen. replace (length before) with (length before + 0)%nat by lia.
      by rewrite insert_app_r. }
    destruct (IH (S i) w1 (before ++ [reaped j r]) rest Hjobs1) as (rs & Hl & Hrun & Htie).
    { rewrite length_app. simpl. lia. }
    exists (r :: rs). split; [simpl; by rewrite Hl|]. split.
    + rewrite Hrun. unfold w1. cbn [w_fds g_last_cmdline w_trace zip_with].
      by rewrite <-!app_assoc.
    + intros [|k] j' r' Hj' Hr'.
      * injection Hj' as <-. injection Hr' as <-. cbn [take]. by rewrite app_nil_r.
      * cbn [lookup list_lookup] in Hj', Hr'. rewrite (Htie k j' r' Hj' Hr').
        unfold w1. cbn [w_trace zip_with take]. by rewrite <-app_assoc.
Qed.

(** X1.  [reap_finished_jobs] probes every active slot exactly once, in
    slot order, with a non-blocking [waitpid] on the slot's process id, and
    does nothing else: the descriptors and [g_last_cmdline] are untouched
    and the trace grows by exactly these probes.  Each slot is decided by
    its own probe: the k-th active slot meets the answer to the k-th probe
    and becomes inactive, with its process id and command text kept,
    exactly when that answer is the slot's process id; an inactive slot,
    and a slot whose probe answers anything else, is left as it is. *)
Theorem reap_frees_exactly_the_terminated (os : os_t) (w : world) :
  length (g_jobs w) = MAX_JOBS →
  let w' := snd (reap_finished_jobs os w) in
  let probed := active_jobs (g_jobs w) in
  w_fds w' = w_fds w ∧ g_last_cmdline w' = g_last_cmdline w ∧
  ∃ rs,
    length rs = length probed ∧
    w_trace w' = w_trace w ++ zip_with probe probed rs ∧
    g_jobs w' = reap_with (g_jobs w) rs ∧
    ∀ k j r, probed !! k = Some j → rs !! k = Some r →
      r = os_waitpid os (w_trace w ++ take k (zip_with probe probed rs)) (pid j) true.
Proof.
  intros Hlen w' probed. subst w' probed. unfold reap_finished_jobs.
  destruct (reap_loop_run os MAX_JOBS 0 w [] (g_jobs w) eq_refl eq_refl)
    as (rs & Hl & Hrun & Htie).
  rewrite firstn_all2 in Hl, Hrun, Htie by lia.
  rewrite drop_ge, app_nil_r in Hrun by lia.
  rewrite Hrun. cbn [snd w_fds g_last_cmdline w_trace g_jobs app].
  split; [done|]. split; [done|]. by exists rs.
Qed.

(** X2.  A job that has just been added is listed by [print_jobs], in the
    documented format, as long as no status check on its process answers
    with its process id. *)
Theorem added_job_is_listed (os : os_t) (p : Z) (text : option string) (w : world) (n : nat) :
  length (g_jobs w) = MAX_JOBS → first_inactive (g_jobs w) n →
  (∀ tr, os_waitpid os tr p true ≠ p) →
  let w1 := snd (add_job p text w) in
  let w2 := snd (print_jobs os w1) in
  fst (add_job p text w) = Z.of_nat n ∧
  job_line (Job p 1 (snprintf_s CMDLINE_SIZE (default "" text)))
    ∈ stdout_lines (drop (length (w_trace w1)) (w_trace w2)).
Proof.
  intros Hlen Hfree Halive w1 w2. subst w1 w2.
  rewrite (add_job_first_inactive p text w n Hlen Hfree). cbn [fst snd].
  split; [done|].
  set (w1 := World _ _ _ _).
  assert (Hn : g_jobs w1 !! n = Some (new_job p text)).
  { destruct Hfree as [(j & Hj & _) _]. simpl.
    apply list_lookup_insert_eq. by eapply lookup_lt_Some. }
  pose proof (reap_slot_kept os w1 n (new_job p text) Hn (λ _, Halive)) as Hkept.
  destruct (reap_finished_jobs_spec os w1) as (_ & _ & Hl & evs & Ht & _).
  destruct (reap_finished_jobs os w1) as [[] w2] eqn:Hr. cbn [snd] in *.
  rewrite (print_jobs_run os w1 w2 Hr).
  2:{ rewrite Hl. simpl. rewrite length_insert. by rewrite Hlen. }
  cbn [snd w_trace]. rewrite Ht, <-app_assoc, drop_app_length.
  assert (new_job p text ∈ active_jobs (g_jobs w2)) as Hin.
  { apply list_elem_of_filter. split; [done|]. by eapply list_elem_of_lookup_2. }
  rewrite decide_False by (intros Hnil; rewrite Hnil in Hin; by apply elem_of_nil in Hin).
  unfold stdout_lines. rewrite omap_app. apply elem_of_app. right.
  apply list_elem_of_omap. exists (EvStdout (job_line (new_job p text))).
  split; [|done]. apply (list_elem_of_fmap_2 (EvStdout ∘ job_line)) in Hin. exact Hin.
Qed.

(** From here on the table loops are used through the lemmas above only. *)
Opaque add_job reap_finished_jobs print_jobs.

(** ** Frame properties of the executor's loops *)

Lemma close_pipes_grows P pipes : (∀ fd, P (EvClose fd)) → does (grows P) (close_pipes pipes).
Proof. intros HP. induction pipes as [|p pipes IH]; simpl; frame. Qed.

Lemma close_pipes_same_jobs pipes : does same_jobs (close_pipes pipes).
Proof. induction pipes as [|p pipes IH]; simpl; frame. Qed.

#[global] Hint Resolve close_pipes_grows close_pipes_same_jobs : frame.

Lemma create_pipes_grows P os n acc :
  (∀ fd, P (EvClose fd)) → (∀ r, P (EvPipe r)) → (∀ s, P (EvPerror s)) →
  does (grows P) (create_pipes os n acc).
Proof. intros H1 H2 H3. revert acc. induction n as [|n IH]; intros acc; simpl; frame. Qed.

Lemma create_pipes_same_jobs os n acc : does same_jobs (create_pipes os n acc).
Proof. revert acc. induction n as [|n IH]; intros acc; simpl; frame. Qed.

Lemma wait_all_grows P os pids :
  (∀ p r, P (EvWaitpid p false r)) → does (grows P) (wait_all os pids).
Proof. intros HP. induction pids as [|p pids IH]; simpl; frame. Qed.

Lemma wait_all_same_jobs os pids : does same_jobs (wait_all os pids).
Proof. induction pids as [|p pids IH]; simpl; frame. Qed.

Lemma wait_all_same_fds os pids : does same_fds (wait_all os pids).
Proof. induction pids as [|p pids IH]; simpl; frame. Qed.

Lemma reap_spawned_grows P os pids :
  (∀ p r, P (EvWaitpid p false r)) → does (grows P) (reap_spawned os pids).
Proof. intros HP. induction pids as [|p pids IH]; simpl; frame. Qed.

Lemma reap_spawned_same_jobs os pids : does same_jobs (reap_spawned os pids).
Proof. induction pids as [|p pids IH]; simpl; frame. Qed.

Lemma reap_spawned_same_fds os pids : does same_fds (reap_spawned os pids).
Proof. induction pids as [|p pids IH]; simpl; frame. Qed.

#[global] Hint Resolve create_pipes_grows create_pipes_same_jobs
  wait_all_grows wait_all_same_jobs wait_all_same_fds
  reap_spawned_grows reap_spawned_same_jobs reap_spawned_same_fds : frame.

Lemma spawn_loop_quiet os l ncmds pipes out stages i in_fd pids :
  does (grows not_stdout) (spawn_loop os l ncmds pipes out stages i in_fd pids).
Proof.
  revert i in_fd pids.
  induction stages as [|argv stages IH]; intros i in_fd pids; simpl; [frame|].
  destruct argv as [|a0 args]; frame.
Qed.

Lemma spawn_loop_same_jobs os l ncmds pipes out stages i in_fd pids :
  does same_jobs (spawn_loop os l ncmds pipes out stages i in_fd pids).
Proof.
  revert i in_fd pids.
  induction stages as [|argv stages IH]; intros i in_fd pids; simpl; [frame|].
  destruct argv as [|a0 args]; frame.
Qed.

#[global] Hint Resolve spawn_loop_quiet spawn_loop_same_jobs : frame.

(** ** The pipeline executor, phase by phase *)

Ltac run_setup :=
  match goal with
  | |- context [sys_open ?os ?p ?m ?w] => destruct (sys_open os p m w) as [? ?]
  | |- context [sys_malloc ?os ?w] => destruct (sys_malloc os w) as [[?|] ?]
  | |- context [create_pipes ?os ?n ?acc ?w] => destruct (create_pipes os n acc w) as [[?|] ?]
  | |- context [if ?b <? 0 then _ else _] => destruct (b <? 0)
  | |- context [if bool_decide ?P then _ else _] => destruct (bool_decide P)
  | |- context [let (_, _) := when_ ?b ?m ?w in _] => destruct (when_ b m w) as [? ?]
  | |- context [let (_, _) := close_pipes ?p ?w in _] => destruct (close_pipes p w) as [? ?]
  end.

Lemma execute_pipeline_phases os l w :
  execute_pipeline os l w =
    (s <~ pipeline_setup os l ;;
     match s with
     | Some (pipes, in_fd_first, out_fd_last, garbage) =>
         pipeline_run os l pipes in_fd_first out_fd_last garbage
     | None => ret EXIT_FAILURE
     end) w.
Proof.
  unfold execute_pipeline, pipeline_setup, pipeline_run, pipeline_finish, pipe_fail.
  unfold bind, ret, perror.
  destruct (l_in l) as [pin|], (l_out l) as [pout|];
    cbn -[sys_open sys_malloc create_pipes close_pipes spawn_loop when_ wait_all
          reap_spawned add_job];
    repeat (run_setup;
            cbn -[sys_open sys_malloc create_pipes close_pipes spawn_loop when_ wait_all
                  reap_spawned add_job];
            try reflexivity).
Qed.

(** ** Descriptors *)

Lemma range_in_size (fds : gset Z) (m : Z) :
  0 ≤ m → (∀ k, 0 ≤ k < m → k ∈ fds) → (Z.to_nat m ≤ size fds)%nat.
Proof.
  intros Hm Hall.
  rewrite <-(length_seqZ 0 m), <-(size_list_to_set (C:=gset Z)) by apply NoDup_seqZ.
  apply subseteq_size. intros k Hk. apply elem_of_list_to_set, elem_of_seqZ in Hk.
  apply Hall. lia.
Qed.

Lemma lowest_free_from_fresh fuel n (fds : gset Z) :
  0 ≤ n → (∀ k, 0 ≤ k < n → k ∈ fds) → (size fds ≤ fuel + Z.to_nat n)%nat →
  lowest_free_from fuel n fds ∉ fds.
Proof.
  revert n. induction fuel as [|fuel IH]; intros n Hn Hall Hsize; simpl.
  - intros Hin. assert (Z.to_nat (n + 1) ≤ size fds)%nat; [|lia].
    apply range_in_size; [lia|]. intros k Hk.
    destruct (decide (k = n)) as [->|]; [done|]. apply Hall. lia.
  - destruct (decide (n ∈ fds)) as [Hin|]; [|done].
    apply IH; [lia| |lia]. intros k Hk.
    destruct (decide (k = n)) as [->|]; [done|]. apply Hall. lia.
Qed.

(** A descriptor handed out by the system was not open before. *)
Lemma lowest_free_fresh (fds : gset Z) : lowest_free fds ∉ fds.
Proof. apply lowest_free_from_fresh; [done|lia|lia]. Qed.

Lemma pipe_fds_nil : pipe_fds [] = ∅.
Proof. done. Qed.

Lemma pipe_fds_cons p pipes : pipe_fds (p :: pipes) = {[fst p]} ∪ {[snd p]} ∪ pipe_fds pipes.
Proof. unfold pipe_fds. simpl. set_solver. Qed.

Lemma pipe_fds_app ps qs : pipe_fds (ps ++ qs) = pipe_fds ps ∪ pipe_fds qs.
Proof.
  induction ps as [|p ps IH]; [rewrite pipe_fds_nil; set_solver|].
  simpl. rewrite !pipe_fds_cons, IH. set_solver.
Qed.

Lemma pipe_at_fds pipes k :
  (k < length pipes)%nat →
  fst (pipe_at pipes k) ∈ pipe_fds pipes ∧ snd (pipe_at pipes k) ∈ pipe_fds pipes.
Proof.
  intros Hk. apply lookup_lt_is_Some in Hk as [p Hp].
  unfold pipe_at. rewrite Hp. simpl.
  apply list_elem_of_split_length in Hp as (ps & qs & -> & _).
  rewrite pipe_fds_app, pipe_fds_cons. set_solver.
Qed.

Lemma close_pipes_fds pipes w :
  w_fds (snd (close_pipes pipes w)) = w_fds w ∖ pipe_fds pipes.
Proof.
  revert w. induction pipes as [|p pipes IH]; intros w.
  - simpl. rewrite pipe_fds_nil. set_solver.
  - simpl. unfold bind. simpl. rewrite IH. simpl. rewrite pipe_fds_cons. set_solver.
Qed.

Lemma lowest_free_from_ge fuel n fds : n ≤ lowest_free_from fuel n fds.
Proof.
  revert n. induction fuel as [|fuel IH]; intros n; simpl; [lia|].
  destruct (decide (n ∈ fds)); [|lia]. specialize (IH (n + 1)). lia.
Qed.

Lemma lowest_free_nonneg fds : 0 ≤ lowest_free fds.
Proof. apply lowest_free_from_ge. Qed.

Lemma sys_open_fds os path mode w fd w' :
  sys_open os path mode w = (fd, w') →
  ((fd <? 0) = true ∧ w_fds w' = w_fds w) ∨
  (fd ∉ w_fds w) ∧ 0 ≤ fd ∧ w_fds w' = w_fds w ∪ {[fd]}.
Proof.
  unfold sys_open. destruct (os_open _ _ _ _); simpl; intros [= <- <-].
  - right. split; [apply lowest_free_fresh|]. split; [apply lowest_free_nonneg|done].
  - by left.
Qed.

Lemma create_pipes_fds os n acc w (F : gset Z) :
  w_fds w = F ∪ pipe_fds acc → F ## pipe_fds acc →
  let r := create_pipes os n acc w in
  match fst r with
  | Some pipes =>
      w_fds (snd r) = F ∪ pipe_fds pipes ∧ F ## pipe_fds pipes ∧
      length pipes = (length acc + n)%nat
  | None => w_fds (snd r) = F
  end.
Proof.
  revert acc w. induction n as [|n IH]; intros acc w Hfds Hdisj.
  - simpl. split; [done|]. split; [done|lia].
  - simpl. unfold bind, sys_pipe. destruct (os_pipe os (w_trace w)); simpl.
    + pose proof (lowest_free_fresh (w_fds w)) as Hr.
      pose proof (lowest_free_fresh (w_fds w ∪ {[lowest_free (w_fds w)]})) as Hw.
      set (r := lowest_free (w_fds w)) in *.
      set (wr := lowest_free (w_fds w ∪ {[r]})) in *.
      match goal with |- context [create_pipes os n ?a ?w'] =>
        assert (IH' := IH a w') end.
      simpl in IH'. rewrite pipe_fds_app, pipe_fds_cons, pipe_fds_nil in IH'.
      lapply IH'; [clear IH'; intros IH'|set_solver].
      lapply IH'; [clear IH'; intros IH'|set_solver].
      destruct (fst (create_pipes os n (acc ++ [(r, wr)]) _)); [|done].
      rewrite length_app in IH'. simpl in IH'.
      destruct IH' as (IH1 & IH2 & IH3). split; [done|]. split; [done|lia].
    + unfold perror, emit. simpl.
      match goal with |- context [close_pipes acc ?w'] =>
        pose proof (close_pipes_fds acc w') as Hc;
        destruct (close_pipes acc w') as [[] w3] end.
      simpl in *. rewrite Hc. set_solver.
Qed.

(** ** The set-up phase *)

Lemma pipeline_setup_setup_events os l : does (grows setup_event) (pipeline_setup os l).
Proof. unfold pipeline_setup. frame. Qed.

Lemma pipeline_setup_same_jobs os l : does same_jobs (pipeline_setup os l).
Proof. unfold pipeline_setup. frame. Qed.

Lemma open_redirection_fds os (path : option string) mode dflt w fd w' :
  0 ≤ dflt →
  match path with
  | Some p => sys_open os p mode
  | None => ret dflt
  end w = (fd, w') →
  ((fd <? 0) = true ∧ w_fds w' = w_fds w) ∨
  ((fd <? 0) = false ∧
   w_fds w' = w_fds w ∪ redir_fds path fd ∧ redir_fds path fd ## w_fds w ∧
   (path = None → fd = dflt)).
Proof.
  intros Hd. destruct path as [p|]; simpl.
  - intros Hopen. apply sys_open_fds in Hopen as [?|(Hfresh & Hpos & Hfds)]; [by left|right].
    split; [lia|]. split; [done|]. split; [set_solver|done].
  - intros [= <- <-]. right. split; [lia|]. split; [set_solver|]. split; [set_solver|done].
Qed.

Lemma drop_unless_redir dflt (path : option string) fd (F X : gset Z) :
  dflt ∈ F → redir_fds path fd ## F → (path = None → fd = dflt) →
  drop_unless dflt fd X = X ∖ redir_fds path fd.
Proof.
  intros Hd Hdisj Hnone. unfold drop_unless, redir_fds in *. destruct path.
  - rewrite decide_True; [done|]. intros ->. set_solver.
  - rewrite decide_False; [set_solver|]. intros Hne. by apply Hne, Hnone.
Qed.

Lemma when_close_fds dflt fd w :
  w_fds (snd (when_ (bool_decide (fd ≠ dflt)) (sys_close fd) w)) =
    drop_unless dflt fd (w_fds w).
Proof. by rewrite when_close. Qed.

Section SetAlgebra.
Context (F PF I O : gset Z).

Lemma restore_pipes : F ## PF → (F ∪ PF) ∖ PF = F.
Proof. set_solver. Qed.

Lemma restore_pipes_in : F ## PF → I ## F ∪ PF → (F ∪ PF ∪ I) ∖ I ∖ PF = F.
Proof. set_solver. Qed.

Lemma restore_pipes_in_out :
  F ## PF → I ## F ∪ PF → O ## F ∪ PF ∪ I → (F ∪ PF ∪ I ∪ O) ∖ I ∖ O ∖ PF = F.
Proof. set_solver. Qed.

Lemma opened_fresh : F ## PF → I ## F ∪ PF → O ## F ∪ PF ∪ I → PF ∪ I ∪ O ## F.
Proof. set_solver. Qed.

Lemma disjoint_union_l1 : I ## F ∪ PF → I ## F.
Proof. set_solver. Qed.

Lemma disjoint_union_l2 : O ## F ∪ PF ∪ I → O ## F.
Proof. set_solver. Qed.

End SetAlgebra.

(** After a successful set-up the pipes and the requested redirections
    are open, all on descriptors that were free before; after a failed one
    the descriptor table is what it was. *)
Lemma pipeline_setup_fds os l w r w' :
  STDIN_FILENO ∈ w_fds w → STDOUT_FILENO ∈ w_fds w →
  pipeline_setup os l w = (r, w') →
  match r with
  | None => w_fds w' = w_fds w
  | Some (pipes, in_fd, out_fd, _) =>
      length pipes = (length (seq l) - 1)%nat ∧
      w_fds w' = w_fds w ∪ pipe_fds pipes ∪ redir_fds (l_in l) in_fd
                   ∪ redir_fds (l_out l) out_fd ∧
      (pipe_fds pipes ∪ redir_fds (l_in l) in_fd ∪ redir_fds (l_out l) out_fd) ## w_fds w ∧
      (l_in l = None → in_fd = STDIN_FILENO) ∧
      (l_out l = None → out_fd = STDOUT_FILENO)
  end.
Proof.
  intros Hstdin Hstdout.
  unfold pipeline_setup, bind. set (n := (length (seq l) - 1)%nat).
  destruct ((if bool_decide (0 < n)%nat then sys_malloc os else ret (Some (λ _, 0))) w)
    as [mp w1] eqn:Hm.
  assert (Hf1 : w_fds w1 = w_fds w).
  { destruct (bool_decide (0 < n)%nat); inversion Hm; by subst. }
  clear Hm. destruct mp as [g0|]; [|intros [= <- <-]; done].
  pose proof (create_pipes_fds os n [] w1 (w_fds w1)) as Hcp. simpl in Hcp.
  rewrite pipe_fds_nil, union_empty_r_L in Hcp.
  specialize (Hcp eq_refl (disjoint_empty_r _)).
  destruct (create_pipes os n [] w1) as [[pipes|] w2]; simpl in Hcp;
    [|intros [= <- <-]; congruence].
  destruct Hcp as (Hf2 & Hd2 & Hlen). rewrite Hf1 in Hf2, Hd2. clear Hf1 w1.
  destruct (match l_in l with
            | Some path => sys_open os path O_RDONLY
            | None => ret STDIN_FILENO
            end w2) as [in_fd w3] eqn:Hin.
  apply open_redirection_fds in Hin; [|done].
  destruct Hin as [[Hneg_in Hf3]|(Hneg_in & Hf3 & Hd3 & Hin0)]; rewrite Hneg_in.
  { unfold perror, emit. simpl.
    match goal with |- context [close_pipes pipes ?w0] =>
      pose proof (close_pipes_fds pipes w0) as Hc;
      destruct (close_pipes pipes w0) as [[] w4] end.
    simpl in Hc. intros [= <- <-]. rewrite Hc, Hf3, Hf2. by apply restore_pipes. }
  rewrite Hf2 in Hf3, Hd3. clear Hf2 w2.
  set (I := redir_fds (l_in l) in_fd) in *.
  assert (HcloseI : ∀ X, drop_unless STDIN_FILENO in_fd X = X ∖ I).
  { intros X. apply (drop_unless_redir _ _ _ (w_fds w)); [done| |done].
    by eapply disjoint_union_l1. }
  destruct (match l_out l with
            | Some path => sys_open os path O_WRONLY_CREAT_TRUNC
            | None => ret STDOUT_FILENO
            end w3) as [out_fd w4] eqn:Hout.
  apply open_redirection_fds in Hout; [|done].
  destruct Hout as [[Hneg_out Hf4]|(Hneg_out & Hf4 & Hd4 & Hout0)]; rewrite Hneg_out.
  { unfold perror, emit. simpl.
    match goal with |- context [when_ ?b ?m ?w0] =>
      pose proof (when_close_fds STDIN_FILENO in_fd w0) as Hw;
      destruct (when_ b m w0) as [[] w5] end.
    pose proof (close_pipes_fds pipes w5) as Hc.
    destruct (close_pipes pipes w5) as [[] w6].
    simpl in Hw, Hc. intros [= <- <-]. rewrite Hc, Hw, Hf4, Hf3, HcloseI.
    by apply restore_pipes_in. }
  rewrite Hf3 in Hf4, Hd4. clear Hf3 w3.
  set (O := redir_fds (l_out l) out_fd) in *.
  assert (HcloseO : ∀ X, drop_unless STDOUT_FILENO out_fd X = X ∖ O).
  { intros X. apply (drop_unless_redir _ _ _ (w_fds w)); [done| |done].
    by eapply disjoint_union_l2. }
  destruct (sys_malloc os w4) as [mq w5] eqn:Hmq.
  assert (Hf5 : w_fds w5 = w_fds w4) by (inversion Hmq; by subst).
  clear Hmq. destruct mq as [garbage|].
  { intros [= <- <-]. rewrite Hf5, Hf4.
    split; [done|]. split; [done|]. split; [by apply opened_fresh|]. by split. }
  unfold perror, emit. simpl.
  match goal with |- context [when_ ?b ?m ?w0] =>
    pose proof (when_close_fds STDIN_FILENO in_fd w0) as Hw;
    destruct (when_ b m w0) as [[] w6] end.
  pose proof (when_close_fds STDOUT_FILENO out_fd w6) as Hw'.
  destruct (when_ _ _ w6) as [[] w7].
  pose proof (close_pipes_fds pipes w7) as Hc.
  destruct (close_pipes pipes w7) as [[] w8].
  simpl in Hw, Hw', Hc. intros [= <- <-].
  rewrite Hc, Hw', Hw, Hf5, Hf4, HcloseI, HcloseO.
  by apply restore_pipes_in_out.
Qed.

(** ** The spawning loop, one iteration at a time *)

Lemma spawn_loop_empty_stage os l ncmds pipes out stages i in_fd pids w :
  spawn_loop os l ncmds pipes out ([] :: stages) i in_fd pids w =
    ((LoopFail, in_fd, pids),
     World (w_fds w) (g_jobs w) (g_last_cmdline w)
       (w_trace w ++
          [EvStderr ("empty command in pipeline at stage " +:+ pretty (Z.of_nat i) +:+ NL)])).
Proof. done. Qed.

Lemma spawn_loop_fork_fails os l ncmds pipes out a0 args stages i in_fd pids w :
  os_fork os (w_trace w) = None →
  spawn_loop os l ncmds pipes out ((a0 :: args) :: stages) i in_fd pids w =
    ((LoopFail, in_fd, pids),
     World (w_fds w) (g_jobs w) (g_last_cmdline w)
       (w_trace w ++
          [EvFork (stage_child l ncmds i pipes in_fd out a0 (a0 :: args)) (-1);
           EvPerror "fork"])).
Proof.
  intros Hf. simpl. unfold bind, sys_fork. rewrite Hf. simpl.
  unfold perror, emit, ret. simpl. by rewrite <-app_assoc.
Qed.

Lemma spawn_loop_fork_ok os l ncmds pipes out a0 args stages i in_fd pids w p :
  os_fork os (w_trace w) = Some p →
  spawn_loop os l ncmds pipes out ((a0 :: args) :: stages) i in_fd pids w =
    spawn_loop os l ncmds pipes out stages (S i)
      (if bool_decide (i = 0%nat ∧ in_fd ≠ STDIN_FILENO) then STDIN_FILENO else in_fd)
      (<[i := Z.pos p]> pids)
      (World (w_fds w ∖ list_to_set (parent_closes pipes i in_fd))
         (g_jobs w) (g_last_cmdline w)
         (w_trace w ++
            EvFork (stage_child l ncmds i pipes in_fd out a0 (a0 :: args)) (Z.pos p)
            :: (EvClose <$> parent_closes pipes i in_fd))).
Proof.
  intros Hf. cbn [spawn_loop]. unfold bind at 1. unfold sys_fork. rewrite Hf.
  cbn -[spawn_loop when_ bool_decide]. unfold bind, parent_closes.
  destruct (bool_decide (i = 0%nat ∧ in_fd ≠ STDIN_FILENO));
    destruct (bool_decide (0 < i)%nat); cbn -[spawn_loop];
    f_equal; f_equal; first [set_solver | by norm_trace].
Qed.

Lemma parent_closes_sub pipes i in_fd :
  (i ≤ length pipes)%nat →
  list_to_set (parent_closes pipes i in_fd) ⊆@{gset Z}
    pipe_fds pipes ∪ ({[in_fd]} ∖ {[STDIN_FILENO]}).
Proof.
  intros Hi. unfold parent_closes.
  destruct (bool_decide (i = 0%nat ∧ in_fd ≠ STDIN_FILENO)) eqn:Hb;
    destruct (bool_decide (0 < i)%nat) eqn:Hpos; simpl.
  - apply bool_decide_eq_true in Hb, Hpos. lia.
  - apply bool_decide_eq_true in Hb as [_ Hne]. set_solver.
  - apply bool_decide_eq_true in Hpos.
    destruct (pipe_at_fds pipes (i - 1)) as [_ Hin]; [lia|]. set_solver.
  - set_solver.
Qed.

Lemma parent_closes_input pipes in_fd :
  in_fd ≠ STDIN_FILENO → in_fd ∈ parent_closes pipes 0 in_fd.
Proof.
  intros Hne. unfold parent_closes. rewrite bool_decide_true by done. set_solver.
Qed.

(** The loop only closes descriptors of the pipes and the input
    redirection; when it hands the input descriptor back as the sentinel,
    it has closed it. *)
Lemma spawn_loop_fds os l ncmds pipes out stages :
  ∀ i in_fd pids w ex in' pids' w',
    (i + length stages ≤ length pipes + 1)%nat →
    spawn_loop os l ncmds pipes out stages i in_fd pids w = (ex, in', pids', w') →
    ∃ C : gset Z,
      w_fds w' = w_fds w ∖ C ∧
      C ⊆ pipe_fds pipes ∪ ({[in_fd]} ∖ {[STDIN_FILENO]}) ∧
      (in' = in_fd ∨ in' = STDIN_FILENO ∧ in_fd ∈ C) ∧
      (ex = LoopDone → i = 0%nat → stages ≠ [] → in_fd ≠ STDIN_FILENO → in_fd ∈ C).
Proof.
  induction stages as [|argv stages IH]; intros i in_fd pids w ex in' pids' w' Hlen Hrun.
  { inversion Hrun; subst. exists ∅. split; [set_solver|]. split; [set_solver|].
    split; [by left|done]. }
  destruct argv as [|a0 args].
  { rewrite spawn_loop_empty_stage in Hrun. inversion Hrun; subst.
    exists ∅. split; [set_solver|]. split; [set_solver|]. split; [by left|done]. }
  destruct (os_fork os (w_trace w)) as [p|] eqn:Hf.
  2:{ rewrite spawn_loop_fork_fails in Hrun by done. inversion Hrun; subst.
      exists ∅. split; [set_solver|]. split; [set_solver|]. split; [by left|done]. }
  rewrite (spawn_loop_fork_ok _ _ _ _ _ _ _ _ _ _ _ _ p) in Hrun by done.
  simpl in Hlen.
  apply IH in Hrun as (C2 & Hfds & Hsub & Hin & _); [|lia]. simpl in Hfds.
  pose proof (parent_closes_sub pipes i in_fd) as Hpc.
  lapply Hpc; [clear Hpc; intros Hpc|lia].
  set (C1 := list_to_set (parent_closes pipes i in_fd) : gset Z) in *.
  exists (C1 ∪ C2). split; [rewrite Hfds; set_solver|].
  destruct (bool_decide (i = 0%nat ∧ in_fd ≠ STDIN_FILENO)) eqn:Hb.
  - apply bool_decide_eq_true in Hb as [-> Hne].
    assert (in_fd ∈ C1).
    { unfold C1. apply elem_of_list_to_set. by apply parent_closes_input. }
    split; [set_solver|]. split; [|set_solver].
    right. split; [|set_solver]. destruct Hin as [->|[-> _]]; done.
  - apply bool_decide_eq_false in Hb.
    split; [set_solver|]. split.
    + destruct Hin as [->|[-> Hin]]; [by left|right]. split; [done|set_solver].
    + intros _ -> _ Hne. destruct Hb. done.
Qed.

(** ** No descriptor outlives a call *)

Lemma drop_unless_diff dflt fd (X : gset Z) :
  drop_unless dflt fd X = X ∖ ({[fd]} ∖ {[dflt]}).
Proof. unfold drop_unless. destruct (decide (fd ≠ dflt)); set_solver. Qed.

Lemma loop_done_sets (W C PF OUT : gset Z) (in_fd : Z) :
  C ⊆ PF ∪ ({[in_fd]} ∖ {[STDIN_FILENO]}) →
  (in_fd ≠ STDIN_FILENO → in_fd ∈ C) →
  W ∖ C ∖ PF ∖ OUT = W ∖ PF ∖ ({[in_fd]} ∖ {[STDIN_FILENO]}) ∖ OUT.
Proof. intros Hsub Hin. destruct (decide (in_fd = STDIN_FILENO)); set_solver. Qed.

Lemma loop_fail_sets (W C PF OUT : gset Z) (in_fd in' : Z) :
  C ⊆ PF ∪ ({[in_fd]} ∖ {[STDIN_FILENO]}) →
  (in' = in_fd ∨ in' = STDIN_FILENO ∧ in_fd ∈ C) →
  W ∖ C ∖ PF ∖ ({[in']} ∖ {[STDIN_FILENO]}) ∖ OUT =
    W ∖ PF ∖ ({[in_fd]} ∖ {[STDIN_FILENO]}) ∖ OUT.
Proof. intros Hsub [->|[-> Hin]]; set_solver. Qed.

Lemma pipeline_finish_fds os l pipes out_fd ex in' pids w :
  w_fds (snd (pipeline_finish os l pipes out_fd (ex, in', pids) w)) =
    match ex with
    | LoopDone => w_fds w ∖ pipe_fds pipes ∖ ({[out_fd]} ∖ {[STDOUT_FILENO]})
    | LoopFail =>
        w_fds w ∖ pipe_fds pipes ∖ ({[in']} ∖ {[STDIN_FILENO]})
          ∖ ({[out_fd]} ∖ {[STDOUT_FILENO]})
    end.
Proof.
  unfold pipeline_finish. destruct ex.
  - unfold bind.
    pose proof (close_pipes_fds pipes w) as Hc.
    destruct (close_pipes pipes w) as [[] w1].
    pose proof (when_close_fds STDOUT_FILENO out_fd w1) as Hw.
    destruct (when_ _ _ w1) as [[] w2]. simpl in Hc, Hw.
    assert (Hlast : ∀ w3,
      (if l_bg l
       then λ w0, (let (_, w'0) := add_job (default 0 (pids !! 0%nat))
                                     (Some (g_last_cmdline w0)) w0 in ret tt w'0)
       else wait_all os pids) w2 = (tt, w3) → w_fds w3 = w_fds w2).
    { intros w3. destruct (l_bg l).
      - pose proof (add_job_same_fds (default 0 (pids !! 0%nat))
                      (Some (g_last_cmdline w2)) w2) as Ha.
        destruct (add_job _ _ w2) as [r w4]. intros [= <-]. exact Ha.
      - pose proof (wait_all_same_fds os pids w2) as Ha.
        destruct (wait_all os pids w2) as [[] w4]. intros [= <-]. exact Ha. }
    destruct (_ w2) as [[] w3] eqn:Hrun in |- *.
    simpl. rewrite (Hlast w3 Hrun), Hw, Hc. by rewrite drop_unless_diff.
  - unfold pipe_fail, bind.
    pose proof (close_pipes_fds pipes w) as Hc.
    destruct (close_pipes pipes w) as [[] w1].
    pose proof (when_close_fds STDIN_FILENO in' w1) as Hw.
    destruct (when_ _ _ w1) as [[] w2].
    pose proof (when_close_fds STDOUT_FILENO out_fd w2) as Hw'.
    destruct (when_ _ _ w2) as [[] w3].
    pose proof (reap_spawned_same_fds os pids w3) as Hr.
    destruct (reap_spawned os pids w3) as [[] w4].
    simpl in *. rewrite Hr, Hw', Hw, Hc. by rewrite !drop_unless_diff.
Qed.

Lemma pipeline_run_fds os l pipes in_fd out_fd garbage w :
  seq l ≠ [] → (length (seq l) ≤ length pipes + 1)%nat →
  w_fds (snd (pipeline_run os l pipes in_fd out_fd garbage w)) =
    w_fds w ∖ pipe_fds pipes ∖ ({[in_fd]} ∖ {[STDIN_FILENO]})
      ∖ ({[out_fd]} ∖ {[STDOUT_FILENO]}).
Proof.
  intros Hne Hlen. unfold pipeline_run, bind.
  destruct (spawn_loop _ _ _ _ _ _ _ _ _ w) as [[[ex in'] pids'] w1] eqn:Hloop.
  apply spawn_loop_fds in Hloop as (C & Hfds & Hsub & Hin & Hdone); [|simpl; lia].
  rewrite pipeline_finish_fds, Hfds. destruct ex.
  - apply loop_done_sets; [done|]. intros Hin0. by apply Hdone.
  - by apply loop_fail_sets.
Qed.

Ltac open_cases :=
  match goal with
  | |- context [sys_open ?os ?p ?m ?w] =>
      let H := fresh "Hopen" in
      let Hn := fresh "Hneg" in
      let Hf := fresh "Hfds" in
      let Hfr := fresh "Hfresh" in
      let Hpos := fresh "Hpos" in
      destruct (sys_open os p m w) as [? ?] eqn:H;
      apply sys_open_fds in H as [[Hn Hf]|(Hfr & Hpos & Hf)];
      [rewrite Hn | rewrite (proj2 (Z.ltb_ge _ _) Hpos)]
  end.

Lemma resolve_end_redirections_fds os l w r w' :
  STDIN_FILENO ∈ w_fds w → STDOUT_FILENO ∈ w_fds w →
  resolve_end_redirections os l w = (r, w') →
  match r with
  | None => w_fds w' = w_fds w
  | Some (in_fd, out_fd) =>
      drop_unless STDOUT_FILENO out_fd (drop_unless STDIN_FILENO in_fd (w_fds w')) = w_fds w
  end.
Proof.
  intros Hstdin Hstdout.
  unfold resolve_end_redirections, and_then, bind, perror, emit, ret.
  destruct (l_in l) as [pin|], (l_out l) as [pout|]; cbn -[sys_open when_].
  - open_cases; cbn -[sys_open when_]; [intros [= <- <-]; by simpl|].
    open_cases; cbn -[sys_open when_].
    + rewrite when_close. intros [= <- <-]. simpl. rewrite Hfds0, Hfds.
      unfold drop_unless. destruct (decide (z ≠ STDIN_FILENO)); set_solver.
    + intros [= <- <-]. rewrite Hfds0, Hfds. unfold drop_unless.
      destruct (decide (z ≠ STDIN_FILENO)), (decide (z0 ≠ STDOUT_FILENO)); set_solver.
  - open_cases; cbn -[sys_open when_]; [intros [= <- <-]; by simpl|].
    intros [= <- <-]. rewrite Hfds. unfold drop_unless.
    rewrite (decide_False (P := STDOUT_FILENO ≠ STDOUT_FILENO)) by (intros ?; done).
    destruct (decide (z ≠ STDIN_FILENO)); set_solver.
  - open_cases; cbn -[sys_open when_].
    + rewrite when_close. intros [= <- <-]. simpl. rewrite Hfds.
      unfold drop_unless. by rewrite decide_False by (intros ?; done).
    + intros [= <- <-]. rewrite Hfds. unfold drop_unless.
      rewrite (decide_False (P := STDIN_FILENO ≠ STDIN_FILENO)) by (intros ?; done).
      destruct (decide (z ≠ STDOUT_FILENO)); set_solver.
  - intros [= <- <-]. unfold drop_unless. by rewrite !decide_False by (intros ?; done).
Qed.

Lemma execute_command_fds os c a0 rest in_fd out_fd bg w :
  w_fds (snd (execute_command os (Some c) (Some (a0 :: rest)) in_fd out_fd bg w)) =
    drop_unless STDOUT_FILENO out_fd (drop_unless STDIN_FILENO in_fd (w_fds w)).
Proof.
  destruct (execute_command_run os c a0 rest in_fd out_fd bg w) as [Hfail Hok].
  destruct (os_fork os (w_trace w)) as [p|].
  - rewrite (Hok p eq_refl). simpl. destruct (bg =? 0); [done|].
    match goal with |- context [add_job ?p ?t ?w0] =>
      exact (add_job_same_fds p t w0) end.
  - by rewrite (Hfail eq_refl).
Qed.

Lemma single_stage_spec_fds os l a0 rest w :
  STDIN_FILENO ∈ w_fds w → STDOUT_FILENO ∈ w_fds w →
  w_fds (snd (single_stage_spec os l (a0 :: rest) w)) = w_fds w.
Proof.
  intros Hstdin Hstdout. unfold single_stage_spec, bind.
  destruct (resolve_end_redirections os l w) as [r w1] eqn:Hres.
  apply resolve_end_redirections_fds in Hres; [|done|done].
  destruct r as [[in_fd out_fd]|]; [|done].
  change (head (a0 :: rest)) with (Some a0). cbv beta iota.
  by rewrite execute_command_fds.
Qed.

Lemma execute_pipeline_fds os l w :
  STDIN_FILENO ∈ w_fds w → STDOUT_FILENO ∈ w_fds w → seq l ≠ [] →
  w_fds (snd (execute_pipeline os l w)) = w_fds w.
Proof.
  intros Hstdin Hstdout Hne. rewrite execute_pipeline_phases. unfold bind.
  destruct (pipeline_setup os l w) as [r w1] eqn:Hsetup.
  apply pipeline_setup_fds in Hsetup; [|done|done].
  destruct r as [[[[pipes in_fd] out_fd] garbage]|]; [|done].
  destruct Hsetup as (Hlen & Hfds & Hdisj & Hin & Hout).
  rewrite pipeline_run_fds; [|done|lia]. rewrite Hfds.
  rewrite <-!drop_unless_diff.
  rewrite (drop_unless_redir _ (l_out l) _ (w_fds w)); [|done|set_solver|done].
  rewrite (drop_unless_redir _ (l_in l) _ (w_fds w)); [|done|set_solver|done].
  set_solver.
Qed.

(** [execute] case by case, with the outcome of the opening reap named. *)
Lemma execute_cases os l w w1 :
  reap_finished_jobs os w = (tt, w1) →
  execute os (Some l) w =
    match seq l with
    | [] => (EXIT_SUCCESS, w1)
    | [[]] => (EXIT_SUCCESS, w1)
    | [a0 :: rest] =>
        if bool_decide (a0 = "jobs")
        then (let (_, w2) := print_jobs os w1 in (EXIT_SUCCESS, w2))
        else single_stage_spec os l (a0 :: rest) w1
    | _ => execute_pipeline os l w1
    end.
Proof.
  intros Hr. destruct (seq l) as [|argv [|argv' stages]] eqn:Hseq.
  - rewrite execute_no_stage by done. by rewrite Hr.
  - destruct argv as [|a0 rest].
    + unfold execute, bind. by rewrite Hseq, Hr.
    + destruct (bool_decide (a0 = "jobs")) eqn:Hb.
      * unfold execute, bind. by rewrite Hseq, Hr, Hb.
      * apply bool_decide_eq_false in Hb.
        rewrite (execute_one_stage os l w a0 rest) by done. by rewrite Hr.
  - unfold execute, bind. rewrite Hseq, Hr. by destruct argv.
Qed.


(** ** What the spawning loop leaves in the trace and in [pids] *)

Lemma spawned_app tr1 tr2 : spawned (tr1 ++ tr2) = spawned tr1 ++ spawned tr2.
Proof. apply omap_app. Qed.

Lemma spawned_pids_app tr1 tr2 :
  spawned_pids (tr1 ++ tr2) = spawned_pids tr1 ++ spawned_pids tr2.
Proof. apply omap_app. Qed.

Lemma programs_run_app tr1 tr2 :
  programs_run (tr1 ++ tr2) = programs_run tr1 ++ programs_run tr2.
Proof. unfold programs_run. by rewrite spawned_app, fmap_app. Qed.

Lemma blocking_waits_app tr1 tr2 :
  blocking_waits (tr1 ++ tr2) = blocking_waits tr1 ++ blocking_waits tr2.
Proof. apply omap_app. Qed.

Lemma spawned_closes fds : spawned (EvClose <$> fds) = [].
Proof. by induction fds. Qed.

Lemma spawned_pids_closes fds : spawned_pids (EvClose <$> fds) = [].
Proof. by induction fds. Qed.

Lemma blocking_waits_closes fds : blocking_waits (EvClose <$> fds) = [].
Proof. by induction fds. Qed.

Lemma child_program_stage_child l ncmds i pipes in_fd out_fd a0 argv :
  child_program (stage_child l ncmds i pipes in_fd out_fd a0 argv) = Some (a0, argv).
Proof.
  unfold child_program, stage_child. rewrite !app_assoc. by rewrite last_snoc.
Qed.

(** The loop spawns the stages in order, each as [execvp(argv[0], argv)],
    stores the process ids from index [i] on, and stops at the first stage
    that cannot be started. *)
Lemma spawn_loop_trace os l ncmds pipes out stages :
  ∀ i in_fd pids w ex in' pids' w',
    (i + length stages ≤ length pids)%nat →
    spawn_loop os l ncmds pipes out stages i in_fd pids w = (ex, in', pids', w') →
    ∃ evs k,
      w_trace w' = w_trace w ++ evs ∧
      programs_run evs = stage_program <$> take k stages ∧
      length (spawned_pids evs) = k ∧
      Forall (λ p, 0 < p) (spawned_pids evs) ∧
      pids' = take i pids ++ spawned_pids evs ++ drop (i + k) pids ∧
      blocking_waits evs = [] ∧
      (ex = LoopDone → k = length stages) ∧
      (ex = LoopFail → (k < length stages)%nat).
Proof.
  induction stages as [|argv stages IH]; intros i in_fd pids w ex in' pids' w' Hlen Hrun.
  { inversion Hrun; subst. exists [], 0%nat. rewrite app_nil_r, Nat.add_0_r.
    split_and!; try done. simpl. by rewrite take_drop. }
  destruct argv as [|a0 args].
  { rewrite spawn_loop_empty_stage in Hrun. inversion Hrun; subst.
    eexists [_], 0%nat. rewrite Nat.add_0_r.
    split_and!; try done; simpl; [by rewrite take_drop|lia]. }
  destruct (os_fork os (w_trace w)) as [p|] eqn:Hf.
  2:{ rewrite spawn_loop_fork_fails in Hrun by done. inversion Hrun; subst.
      eexists [_; _], 0%nat. rewrite Nat.add_0_r.
      split_and!; try done; simpl; [by rewrite take_drop|lia]. }
  rewrite (spawn_loop_fork_ok _ _ _ _ _ _ _ _ _ _ _ _ p) in Hrun by done.
  simpl in Hlen.
  apply IH in Hrun as (evs & k & Ht & Hprog & Hk & Hpos & Hpids & Hwaits & Hdone & Hfail);
    [|rewrite length_insert; lia].
  simpl in Ht.
  exists (EvFork (stage_child l ncmds i pipes in_fd out a0 (a0 :: args)) (Z.pos p)
          :: (EvClose <$> parent_closes pipes i in_fd) ++ evs), (S k).
  split; [by rewrite Ht, <-app_assoc|].
  split.
  { change (programs_run (?e :: ?t)) with (programs_run ([e] ++ t)).
    rewrite !programs_run_app. unfold programs_run at 2.
    rewrite spawned_closes. simpl. rewrite Hprog.
    unfold programs_run. simpl. by rewrite child_program_stage_child. }
  assert (Hsp : spawned_pids
            (EvFork (stage_child l ncmds i pipes in_fd out a0 (a0 :: args)) (Z.pos p)
             :: (EvClose <$> parent_closes pipes i in_fd) ++ evs) =
          Z.pos p :: spawned_pids evs).
  { change (spawned_pids (?e :: ?t)) with (spawned_pids ([e] ++ t)).
    by rewrite !spawned_pids_app, spawned_pids_closes. }
  rewrite Hsp. split; [by rewrite <-Hk|]. split; [constructor; [lia|done]|].
  split.
  { rewrite Hpids. rewrite (take_S_r _ _ (Z.pos p)) by (apply list_lookup_insert_eq; lia).
    rewrite take_insert_ge, drop_insert_lt by lia.
    rewrite <-app_assoc. simpl. by replace (i + S k)%nat with (S (i + k)) by lia. }
  split.
  { change (blocking_waits (?e :: ?t)) with (blocking_waits ([e] ++ t)).
    by rewrite !blocking_waits_app, blocking_waits_closes, Hwaits. }
  split; [intros He; simpl; by rewrite Hdone|].
  intros He. simpl. specialize (Hfail He). lia.
Qed.

(** ** Empty stages *)

Lemma spawn_loop_hits_empty os l ncmds pipes out stages :
  [] ∈ stages →
  ∀ i in_fd pids w, fst (fst (fst (spawn_loop os l ncmds pipes out stages i in_fd pids w))) = LoopFail.
Proof.
  induction stages as [|argv stages IH]; intros Hin i in_fd pids w.
  { by apply elem_of_nil in Hin. }
  destruct argv as [|a0 args]; [done|].
  apply elem_of_cons in Hin as [Hin|Hin]; [done|].
  destruct (os_fork os (w_trace w)) as [p|] eqn:Hf.
  - rewrite (spawn_loop_fork_ok _ _ _ _ _ _ _ _ _ _ _ _ p) by done. by apply IH.
  - by rewrite spawn_loop_fork_fails.
Qed.

Lemma pipeline_finish_result os l pipes out_fd ex in' pids w :
  fst (pipeline_finish os l pipes out_fd (ex, in', pids) w) =
    match ex with LoopDone => EXIT_SUCCESS | LoopFail => EXIT_FAILURE end.
Proof.
  unfold pipeline_finish. destruct ex.
  - unfold bind. destruct (close_pipes pipes w) as [[] w1].
    destruct (when_ _ _ w1) as [[] w2].
    by destruct (l_bg l); [destruct (add_job _ _ w2)|destruct (wait_all os pids w2) as [[] w3]].
  - unfold pipe_fail, bind. destruct (close_pipes pipes w) as [[] w1].
    destruct (when_ _ _ w1) as [[] w2]. destruct (when_ _ _ w2) as [[] w3].
    by destruct (reap_spawned os pids w3) as [[] w4].
Qed.

Lemma execute_pipeline_empty_stage os l w :
  [] ∈ seq l → fst (execute_pipeline os l w) = EXIT_FAILURE.
Proof.
  intros Hin. rewrite execute_pipeline_phases. unfold bind.
  destruct (pipeline_setup os l w) as [[[[[pipes in_fd] out_fd] garbage]|] w1]; [|done].
  unfold pipeline_run, bind.
  pose proof (spawn_loop_hits_empty os l (length (seq l)) pipes out_fd (seq l) Hin 0%nat
                in_fd (garbage <$> List.seq 0 (length (seq l))) w1) as Hex.
  destruct (spawn_loop _ _ _ _ _ _ _ _ _ w1) as [[[ex in'] pids] w2].
  simpl in Hex. subst ex. apply pipeline_finish_result.
Qed.

(** C3, as the code has it.  A command line of two or more stages that
    contains a stage with an empty argv, at whatever position, makes
    [execute] report failure.  A command line whose single stage has an
    empty argv makes [execute] return success, having done nothing but the
    opening reap. *)
Theorem empty_stage_outcome (os : os_t) (l : cmdline_t) (w : world) :
  [] ∈ seq l →
  ((2 ≤ length (seq l))%nat → fst (execute os (Some l) w) = EXIT_FAILURE) ∧
  (length (seq l) = 1%nat →
     execute os (Some l) w = (EXIT_SUCCESS, snd (reap_finished_jobs os w))).
Proof.
  intros Hin.
  destruct (reap_finished_jobs os w) as [[] w1] eqn:Hr.
  rewrite (execute_cases os l w w1 Hr). cbn [snd].
  destruct (seq l) as [|argv [|argv' stages]] eqn:Hseq; simpl.
  - split; [lia|done].
  - apply list_elem_of_singleton in Hin as <-. split; [lia|done].
  - split; [|lia]. intros _.
    assert (fst (execute_pipeline os l w1) = EXIT_FAILURE) as Hfail
      by (apply execute_pipeline_empty_stage; by rewrite Hseq).
    by destruct argv.
Qed.

Lemma empty_stage_outcome_witness :
  [] ∈ seq (Cmdline [["ls"]; []] None None false) ∧
  fst (execute os_ok (Some (Cmdline [["ls"]; []] None None false)) shell_start) = EXIT_FAILURE.
Proof.
  assert ([] ∈ seq (Cmdline [["ls"]; []] None None false)) as Hin
    by (right; left).
  split; [exact Hin|].
  apply (proj1 (empty_stage_outcome os_ok (Cmdline [["ls"]; []] None None false)
                  shell_start Hin)).
  simpl. lia.
Defined.

(** C3, counterexample.  A single stage with an empty argv is not treated
    as an error: [execute] returns success and does nothing at all. *)
Lemma single_empty_stage_counterexample :
  [] ∈ seq cmd_empty_stage ∧
  execute os_ok (Some cmd_empty_stage) shell_start = (EXIT_SUCCESS, shell_start) ∧
  fst (execute os_ok (Some cmd_empty_stage) shell_start) ≠ EXIT_FAILURE.
Proof.
  split; [left|].
  assert (execute os_ok (Some cmd_empty_stage) shell_start = (EXIT_SUCCESS, shell_start)) as ->
    by (vm_compute; reflexivity).
  split; [done|]. simpl. unfold EXIT_SUCCESS, EXIT_FAILURE. lia.
Qed.



Lemma execute_single_stage_witness :
  seq cmd_cat = [["cat"]] ∧
  execute os_ok (Some cmd_cat) shell_start =
    (EXIT_SUCCESS,
     World {[0; 1; 2]} g_jobs_init "sleep 5 &"
       [EvOpen "in.txt" O_RDONLY 3;
        EvFork [CDup2 3 0; CClose 3; CExecvp "cat" ["cat"]] 100;
        EvClose 3; EvWaitpid 100 false 100]).
Proof.
  split; [reflexivity|].
  rewrite (proj1 (proj2 (execute_single_stage os_ok cmd_cat shell_start)) ["cat"] eq_refl);
    [|discriminate|discriminate].
  vm_compute. reflexivity.
Defined.

(** C8, counterexample.  On a single stage with an empty argv and both
    redirections, [execute] returns success without opening anything,
    whereas resolving the end redirections and calling [execute_command]
    opens [in.txt], creates or truncates [out.txt], and returns success
    with both descriptors left open. *)
Lemma single_empty_stage_not_delegated_counterexample :
  let w1 := snd (reap_finished_jobs os_ok shell_start) in
  seq cmd_empty_redirected = [[]] ∧
  execute os_ok (Some cmd_empty_redirected) shell_start = (EXIT_SUCCESS, shell_start) ∧
  single_stage_spec os_ok cmd_empty_redirected [] w1 =
    (EXIT_SUCCESS,
     World {[0; 1; 2; 3; 4]} g_jobs_init "sleep 5 &"
       [EvOpen "in.txt" O_RDONLY 3; EvOpen "out.txt" O_WRONLY_CREAT_TRUNC 4]) ∧
  execute os_ok (Some cmd_empty_redirected) shell_start ≠
    single_stage_spec os_ok cmd_empty_redirected [] w1.
Proof.
  assert (execute os_ok (Some cmd_empty_redirected) shell_start = (EXIT_SUCCESS, shell_start))
    as H1 by (vm_compute; reflexivity).
  assert (single_stage_spec os_ok cmd_empty_redirected []
            (snd (reap_finished_jobs os_ok shell_start)) =
          (EXIT_SUCCESS,
           World {[0; 1; 2; 3; 4]} g_jobs_init "sleep 5 &"
             [EvOpen "in.txt" O_RDONLY 3; EvOpen "out.txt" O_WRONLY_CREAT_TRUNC 4]))
    as H2 by (vm_compute; reflexivity).
  split; [reflexivity|]. split; [exact H1|]. split; [exact H2|].
  cbv zeta. rewrite H1, H2. intros Heq.
  apply (f_equal (λ r, w_trace (snd r))) in Heq. discriminate Heq.
Qed.

(** ** The closing phase of a pipeline *)

#[global] Hint Extern 0 (no_fork _) => exact I : frame.

Lemma spawned_no_fork evs : Forall no_fork evs → spawned evs = [].
Proof.
  induction 1 as [|e evs He _ IH]; [done|].
  by destruct e.
Qed.

Lemma spawned_pids_no_fork evs : Forall no_fork evs → spawned_pids evs = [].
Proof.
  induction 1 as [|e evs He _ IH]; [done|].
  by destruct e.
Qed.

Lemma programs_run_no_fork evs : Forall no_fork evs → programs_run evs = [].
Proof. intros H. unfold programs_run. by rewrite spawned_no_fork. Qed.

Lemma close_pipes_run pipes w :
  close_pipes pipes w =
    (tt, World (w_fds w ∖ pipe_fds pipes) (g_jobs w) (g_last_cmdline w)
           (w_trace w ++ (EvClose <$> flat_map (λ p, [fst p; snd p]) pipes))).
Proof.
  revert w. induction pipes as [|p pipes IH]; intros w.
  - simpl. unfold ret. rewrite pipe_fds_nil, app_nil_r, difference_empty_L.
    by rewrite world_eta.
  - simpl. unfold bind, sys_close, emit. simpl. rewrite IH. simpl.
    rewrite pipe_fds_cons. f_equal. f_equal; [set_solver|by norm_trace].
Qed.

Lemma wait_all_run os pids w :
  ∃ evs,
    wait_all os pids w =
      (tt, World (w_fds w) (g_jobs w) (g_last_cmdline w) (w_trace w ++ evs)) ∧
    blocking_waits evs = pids ∧ Forall no_fork evs.
Proof.
  revert w. induction pids as [|p pids IH]; intros w.
  - exists []. simpl. unfold ret. by rewrite app_nil_r, world_eta.
  - simpl. unfold bind, sys_waitpid, emit. simpl.
    match goal with |- context [wait_all os pids ?w0] => destruct (IH w0) as (evs & -> & Hw & Hnf) end.
    simpl. eexists (_ :: evs). split; [by rewrite <-app_assoc|].
    split; [simpl; by rewrite Hw|by constructor].
Qed.

Lemma reap_spawned_run os pids w :
  ∃ evs,
    reap_spawned os pids w =
      (tt, World (w_fds w) (g_jobs w) (g_last_cmdline w) (w_trace w ++ evs)) ∧
    blocking_waits evs = filter (λ p, 0 < p) pids ∧ Forall no_fork evs.
Proof.
  revert w. induction pids as [|p pids IH]; intros w.
  - exists []. simpl. unfold ret. by rewrite app_nil_r, world_eta.
  - simpl. unfold bind, when_. rewrite filter_cons. destruct (0 <? p) eqn:Hp.
    + apply Z.ltb_lt in Hp. rewrite decide_True by done.
      unfold sys_waitpid, emit. simpl.
      match goal with |- context [reap_spawned os pids ?w0] =>
        destruct (IH w0) as (evs & -> & Hw & Hnf) end.
      simpl. eexists (_ :: evs). split; [by rewrite <-app_assoc|].
      split; [simpl; by rewrite Hw|by constructor].
    + apply Z.ltb_ge in Hp. rewrite decide_False by lia. unfold ret.
      destruct (IH w) as (evs & -> & Hw & Hnf). by exists evs.
Qed.

(** After a loop that spawned every stage: close, then register or wait. *)
Lemma pipeline_finish_done os l pipes out_fd in' pids w rv w' :
  pipeline_finish os l pipes out_fd (LoopDone, in', pids) w = (rv, w') →
  rv = EXIT_SUCCESS ∧ g_last_cmdline w' = g_last_cmdline w ∧
  ∃ evs, w_trace w' = w_trace w ++ evs ∧ Forall no_fork evs ∧
    if l_bg l
    then blocking_waits evs = [] ∧
         g_jobs w' = g_jobs (snd (add_job (default 0 (pids !! 0%nat))
                                    (Some (g_last_cmdline w)) w))
    else blocking_waits evs = pids ∧ g_jobs w' = g_jobs w.
Proof.
  unfold pipeline_finish, bind. rewrite close_pipes_run, when_close. cbn [fst snd].
  set (w2 := World _ _ _ _).
  assert (Hev : Forall no_fork
            ((EvClose <$> flat_map (λ p, [fst p; snd p]) pipes) ++
             close_unless STDOUT_FILENO out_fd)).
  { apply Forall_app. split; [by apply Forall_fmap, Forall_forall|].
    unfold close_unless. destruct (decide _); by repeat constructor. }
  assert (Hbw : blocking_waits
            ((EvClose <$> flat_map (λ p, [fst p; snd p]) pipes) ++
             close_unless STDOUT_FILENO out_fd) = []).
  { rewrite blocking_waits_app, blocking_waits_closes. unfold close_unless.
    by destruct (decide _). }
  destruct (l_bg l).
  - destruct (add_job_shape (default 0 (pids !! 0%nat)) (Some (g_last_cmdline w2)) w2)
      as (r & jobs' & evs & Hadd & Hst).
    pose proof (add_job_jobs_only (default 0 (pids !! 0%nat)) (Some (g_last_cmdline w)) w2 w
                  eq_refl) as [_ Hjobs].
    change (g_last_cmdline w2) with (g_last_cmdline w) in *.
    rewrite Hadd in Hjobs |- *. simpl in Hjobs. intros [= <- <-]. simpl.
    split; [done|]. split; [done|].
    exists (((EvClose <$> flat_map (λ p, [fst p; snd p]) pipes) ++
             close_unless STDOUT_FILENO out_fd) ++ evs).
    split; [by rewrite !app_assoc|].
    assert (Forall no_fork evs) as Hnf.
    { eapply Forall_impl; [exact Hst|]. by intros e [s ->]. }
    assert (blocking_waits evs = []) as Hbe.
    { clear -Hst. induction Hst as [|e evs [s ->] _ IH]; [done|exact IH]. }
    split; [by apply Forall_app|]. split; [|done].
    by rewrite blocking_waits_app, Hbw, Hbe.
  - destruct (wait_all_run os pids w2) as (evs & -> & Hw & Hnf).
    intros [= <- <-]. simpl. split; [done|]. split; [done|].
    exists (((EvClose <$> flat_map (λ p, [fst p; snd p]) pipes) ++
             close_unless STDOUT_FILENO out_fd) ++ evs).
    split; [by rewrite !app_assoc|]. split; [by apply Forall_app|].
    split; [|done]. by rewrite blocking_waits_app, Hbw, Hw.
Qed.

(** After [goto PIPE_FAIL]: close, wait for every positive entry of
    [pids], report failure. *)
Lemma pipeline_finish_fail os l pipes out_fd in' pids w rv w' :
  pipeline_finish os l pipes out_fd (LoopFail, in', pids) w = (rv, w') →
  rv = EXIT_FAILURE ∧ g_last_cmdline w' = g_last_cmdline w ∧ g_jobs w' = g_jobs w ∧
  ∃ evs, w_trace w' = w_trace w ++ evs ∧ Forall no_fork evs ∧
    blocking_waits evs = filter (λ p, 0 < p) pids.
Proof.
  unfold pipeline_finish, pipe_fail, bind.
  rewrite close_pipes_run, !when_close. cbn [fst snd].
  set (w2 := World _ _ _ _).
  destruct (reap_spawned_run os pids w2) as (evs & -> & Hw & Hnf).
  intros [= <- <-]. simpl. split; [done|]. split; [done|]. split; [done|].
  exists ((((EvClose <$> flat_map (λ p, [fst p; snd p]) pipes) ++
            close_unless STDIN_FILENO in') ++ close_unless STDOUT_FILENO out_fd) ++ evs).
  split; [by rewrite !app_assoc|]. split.
  - repeat (apply Forall_app; split); try done.
    + by apply Forall_fmap, Forall_forall.
    + unfold close_unless. destruct (decide _); by repeat constructor.
    + unfold close_unless. destruct (decide _); by repeat constructor.
  - rewrite !blocking_waits_app, blocking_waits_closes, Hw. unfold close_unless.
    by destruct (decide _), (decide _).
Qed.

(** ** A pipeline from start to end *)

Lemma setup_event_no_fork evs : Forall setup_event evs → Forall no_fork evs.
Proof. intros H. eapply Forall_impl; [exact H|]. by intros []. Qed.

Lemma blocking_waits_setup evs : Forall setup_event evs → blocking_waits evs = [].
Proof. induction 1 as [|e evs He _ IH]; [done|]. by destruct e. Qed.

Lemma blocking_waits_no_wait evs :
  Forall (λ e, match e with EvWaitpid _ false _ => False | _ => True end) evs →
  blocking_waits evs = [].
Proof. induction 1 as [|e evs He _ IH]; [done|]. destruct e; try done. by destruct nohang. Qed.

Lemma filter_positive_all (ps : list Z) : Forall (λ p, 0 < p) ps → filter (λ p, 0 < p) ps = ps.
Proof.
  induction 1 as [|p ps Hp _ IH]; [done|]. rewrite filter_cons, decide_True by done.
  by rewrite IH.
Qed.

(** The whole N-stage path: which programs were started, which process
    ids were waited for, and what happened to the job table. *)
Lemma execute_pipeline_outcome os l w rv w' :
  execute_pipeline os l w = (rv, w') →
  g_last_cmdline w' = g_last_cmdline w ∧
  ∃ evs k,
    w_trace w' = w_trace w ++ evs ∧
    programs_run evs = stage_program <$> take k (seq l) ∧
    length (spawned_pids evs) = k ∧
    Forall (λ p, 0 < p) (spawned_pids evs) ∧
    (rv = EXIT_SUCCESS ∧ k = length (seq l) ∧
       (if l_bg l
        then blocking_waits evs = [] ∧
             g_jobs w' = g_jobs (snd (add_job (default 0 (head (spawned_pids evs)))
                                        (Some (g_last_cmdline w)) w))
        else blocking_waits evs = spawned_pids evs ∧ g_jobs w' = g_jobs w)
     ∨
     rv = EXIT_FAILURE ∧ g_jobs w' = g_jobs w ∧
       ((k < length (seq l))%nat ∨ seq l = []) ∧
       ∃ garbage : list Z,
         length garbage = (length (seq l) - k)%nat ∧
         blocking_waits evs = spawned_pids evs ++ filter (λ p, 0 < p) garbage).
Proof.
  intros Hrun. rewrite execute_pipeline_phases in Hrun. unfold bind in Hrun.
  pose proof (pipeline_setup_setup_events os l w) as [Hc1 (e1 & Ht1 & He1)].
  pose proof (pipeline_setup_same_jobs os l w) as Hj1. unfold same_jobs in Hj1.
  destruct (pipeline_setup os l w) as [[[[[pipes in_fd] out_fd] g]|] w1];
    cbn [fst snd] in *.
  2:{ inversion Hrun; subst. split; [done|]. exists e1, 0%nat.
      split; [done|]. rewrite take_0. rewrite programs_run_no_fork, spawned_pids_no_fork
        by by apply setup_event_no_fork.
      split; [done|]. split; [done|]. split; [done|]. right.
      split; [done|]. split; [done|]. split.
      { destruct (seq l); [by right|left; simpl; lia]. }
      exists (replicate (length (seq l)) 0). rewrite length_replicate.
      split; [lia|]. rewrite blocking_waits_setup by done. simpl.
      clear. induction (length (seq l)) as [|n IH]; [done|]. simpl.
      rewrite filter_cons, decide_False by lia. exact IH. }
  unfold pipeline_run, bind in Hrun.
  set (pids0 := g <$> List.seq 0 (length (seq l))) in *.
  pose proof (spawn_loop_same_jobs os l (length (seq l)) pipes out_fd (seq l) 0%nat in_fd
                pids0 w1) as Hj2.
  pose proof (spawn_loop_quiet os l (length (seq l)) pipes out_fd (seq l) 0%nat in_fd
                pids0 w1) as [Hc2 _].
  unfold same_jobs in Hj2.
  destruct (spawn_loop _ _ _ _ _ _ _ _ _ w1) as [[[ex in'] pids'] w2] eqn:Hloop.
  cbn [fst snd] in *.
  assert (Hlen0 : length pids0 = length (seq l))
    by (unfold pids0; by rewrite length_fmap, length_seq).
  apply spawn_loop_trace in Hloop
    as (e2 & k & Ht2 & Hprog & Hk & Hpos & Hpids & Hbw & Hdone & Hfail); [|simpl; lia].
  rewrite take_0 in Hpids. simpl in Hpids.
  assert (Hsp : spawned_pids (e1 ++ e2) = spawned_pids e2).
  { by rewrite spawned_pids_app, (spawned_pids_no_fork e1) by by apply setup_event_no_fork. }
  assert (Hpr : programs_run (e1 ++ e2) = stage_program <$> take k (seq l)).
  { by rewrite programs_run_app, (programs_run_no_fork e1) by by apply setup_event_no_fork. }
  assert (Hb12 : blocking_waits (e1 ++ e2) = []).
  { by rewrite blocking_waits_app, blocking_waits_setup, Hbw. }
  destruct ex.
  - apply pipeline_finish_done in Hrun as (-> & Hc3 & e3 & Ht3 & Hnf3 & Hbg).
    specialize (Hdone eq_refl). rewrite Hdone in Hk, Hpr, Hpids. clear Hdone Hfail Hprog.
    split; [congruence|]. exists ((e1 ++ e2) ++ e3), (length (seq l)).
    split; [by rewrite Ht3, Ht2, Ht1, !app_assoc|].
    rewrite programs_run_app, (programs_run_no_fork e3), app_nil_r by done.
    rewrite spawned_pids_app, (spawned_pids_no_fork e3), app_nil_r, Hsp by done.
    split; [done|]. split; [done|]. split; [done|]. left.
    split; [done|]. split; [done|].
    rewrite blocking_waits_app, Hb12. simpl.
    assert (Hhead : default 0 (pids' !! 0%nat) = default 0 (head (spawned_pids e2))).
    { rewrite Hpids. destruct (spawned_pids e2); [|done]. simpl in Hk.
      rewrite drop_ge by lia. done. }
    destruct (l_bg l).
    + destruct Hbg as [Hb3 Hjobs]. split; [done|]. rewrite Hjobs, Hhead.
      rewrite Hc2, Hc1.
      apply (add_job_jobs_only _ _ w2 w). congruence.
    + destruct Hbg as [Hb3 Hjobs]. split; [|congruence].
      rewrite Hb3, Hpids. rewrite drop_ge by lia. by rewrite app_nil_r.
  - apply pipeline_finish_fail in Hrun as (-> & Hc3 & Hj3 & e3 & Ht3 & Hnf3 & Hb3).
    specialize (Hfail eq_refl).
    split; [congruence|]. exists ((e1 ++ e2) ++ e3), k.
    split; [by rewrite Ht3, Ht2, Ht1, !app_assoc|].
    rewrite programs_run_app, (programs_run_no_fork e3), app_nil_r by done.
    rewrite spawned_pids_app, (spawned_pids_no_fork e3), app_nil_r, Hsp by done.
    split; [done|]. split; [done|]. split; [done|]. right.
    split; [done|]. split; [congruence|]. split; [by left|].
    exists (drop k pids0). split; [rewrite length_drop; lia|].
    rewrite blocking_waits_app, Hb12, Hb3, Hpids. simpl.
    by rewrite filter_app, filter_positive_all.
Qed.

(** ** Background pipelines *)

(** C7.  When a pipeline of two or more stages is run in the background
    and every stage was spawned, [execute] calls [add_job] once, with the
    process id of the first stage and the text of [g_last_cmdline]: the job
    table it leaves is the one this single insertion yields from the reaped
    table.  With a free slot that is one new record, holding the first
    process id and the command text (the whole text, as it is shorter than
    the record's buffer); no other stage's process id is stored. *)
Theorem background_pipeline_registers_first_pid (os : os_t) (l : cmdline_t) (w : world) :
  (2 ≤ length (seq l))%nat → l_bg l = true →
  fst (execute os (Some l) w) = EXIT_SUCCESS →
  let w1 := snd (reap_finished_jobs os w) in
  let w' := snd (execute os (Some l) w) in
  ∃ evs pid0 others,
    w_trace w' = w_trace w1 ++ evs ∧
    spawned_pids evs = pid0 :: others ∧
    length (pid0 :: others) = length (seq l) ∧
    g_jobs w' = g_jobs (snd (add_job pid0 (Some (g_last_cmdline w)) w1)) ∧
    (∀ n, length (g_jobs w1) = MAX_JOBS → first_inactive (g_jobs w1) n →
       g_jobs w' =
         <[n := Job pid0 1 (snprintf_s CMDLINE_SIZE (g_last_cmdline w))]> (g_jobs w1)) ∧
    ((String.length (g_last_cmdline w) ≤ 255)%nat →
       snprintf_s CMDLINE_SIZE (g_last_cmdline w) = g_last_cmdline w).
Proof.
  intros Hlen Hbg Hok w1 w'. subst w1 w'. revert Hok.
  destruct (reap_finished_jobs_spec os w) as (_ & Hcmd & _).
  destruct (reap_finished_jobs os w) as [[] w1] eqn:Hr. cbn [snd] in Hcmd.
  rewrite (execute_cases os l w w1 Hr). cbn [snd].
  destruct (seq l) as [|argv [|argv' stages]] eqn:Hseq; [simpl in Hlen; lia..|].
  assert (match argv with
          | [] | _ => execute_pipeline os l w1
          end = execute_pipeline os l w1) as -> by by destruct argv.
  destruct (execute_pipeline os l w1) as [rv w'] eqn:Hp. cbn [fst snd].
  apply execute_pipeline_outcome in Hp
    as (Hc & evs & k & Ht & _ & Hk & _ & [(_ & -> & Hjobs)|(-> & _)]); [|done].
  intros _. rewrite Hbg in Hjobs. destruct Hjobs as [_ Hjobs].
  rewrite Hseq in Hk.
  destruct (spawned_pids evs) as [|pid0 others] eqn:Hsp; [done|].
  exists evs, pid0, others. simpl in Hjobs. rewrite Hcmd in Hjobs.
  split; [done|]. split; [done|]. split; [done|]. split; [done|]. split.
  - intros n Hfull Hfree. rewrite Hjobs.
    by rewrite (add_job_first_inactive pid0 (Some (g_last_cmdline w)) w1 n).
  - intros Hshort. apply string_take_all. simpl. lia.
Qed.

Lemma background_pipeline_registers_first_pid_witness :
  (2 ≤ length (seq cmd_sleep_jobs_bg))%nat ∧ l_bg cmd_sleep_jobs_bg = true ∧
  fst (execute os_ok (Some cmd_sleep_jobs_bg) shell_start) = EXIT_SUCCESS ∧
  ∃ evs pid0 others,
    w_trace (snd (execute os_ok (Some cmd_sleep_jobs_bg) shell_start)) =
      w_trace (snd (reap_finished_jobs os_ok shell_start)) ++ evs ∧
    spawned_pids evs = pid0 :: others.
Proof.
  assert (2 ≤ length (seq cmd_sleep_jobs_bg))%nat as H1 by (simpl; lia).
  assert (fst (execute os_ok (Some cmd_sleep_jobs_bg) shell_start) = EXIT_SUCCESS) as H3
    by (vm_compute; reflexivity).
  split; [exact H1|]. split; [reflexivity|]. split; [exact H3|].
  destruct (background_pipeline_registers_first_pid os_ok cmd_sleep_jobs_bg shell_start
              H1 eq_refl H3) as (evs & pid0 & others & Ht & Hsp & _).
  exists evs, pid0, others. split; [exact Ht|exact Hsp].
Defined.

(** ** The [jobs] builtin *)

Lemma execute_command_quiet os cmd args in_fd out_fd bg :
  does (grows not_stdout) (execute_command os cmd args in_fd out_fd bg).
Proof. unfold execute_command. destruct cmd, args as [[|a0 rest]|]; frame. Qed.

Lemma resolve_end_redirections_quiet os l :
  does (grows not_stdout) (resolve_end_redirections os l).
Proof. unfold resolve_end_redirections, and_then. frame. Qed.

Lemma single_stage_spec_quiet os l argv : does (grows not_stdout) (single_stage_spec os l argv).
Proof.
  unfold single_stage_spec. apply does_bind; [apply _|apply resolve_end_redirections_quiet|].
  intros [[in_fd out_fd]|]; [apply execute_command_quiet|frame].
Qed.

Lemma execute_pipeline_quiet os l : does (grows not_stdout) (execute_pipeline os l).
Proof. unfold execute_pipeline, pipe_fail. frame. Qed.

Lemma stdout_lines_quiet evs : Forall not_stdout evs → stdout_lines evs = [].
Proof. induction 1 as [|e evs He _ IH]; [done|]. by destruct e. Qed.

(** C10.  [execute] runs the [jobs] builtin exactly when the command line
    has a single stage whose argv[0] is "jobs".  Then it only lists the
    jobs: its result does not depend on the redirection paths or on the
    background flag, the descriptor table is unchanged, and the only events
    are non-blocking status checks and writes to standard output (no open,
    no fork).  On every other command line nothing is written to standard
    output; and in a pipeline of two or more stages every stage that is
    started, a stage named [jobs] included, is a child running
    [execvp(argv[0], argv)], all stages having been started when [execute]
    returns success. *)
Theorem jobs_builtin_single_stage_only (os : os_t) (l : cmdline_t) (w : world) :
  let res := execute os (Some l) w in
  (∀ rest, seq l = ["jobs" :: rest] →
     res = (EXIT_SUCCESS, snd (print_jobs os (snd (reap_finished_jobs os w)))) ∧
     w_fds (snd res) = w_fds w ∧
     ∃ evs, w_trace (snd res) = w_trace w ++ evs ∧ Forall nohang_or_stdout evs) ∧
  ((∀ rest, seq l ≠ ["jobs" :: rest]) →
     ∃ evs, w_trace (snd res) = w_trace w ++ evs ∧ stdout_lines evs = []) ∧
  ((2 ≤ length (seq l))%nat →
     ∃ evs k, w_trace (snd res) = w_trace w ++ evs ∧
       programs_run evs = stage_program <$> take k (seq l) ∧
       (fst res = EXIT_SUCCESS → k = length (seq l))).
Proof.
  intros res. subst res.
  destruct (reap_finished_jobs_spec os w) as (Hfds & _ & _ & e0 & Ht0 & He0 & _).
  destruct (reap_finished_jobs os w) as [[] w1] eqn:Hr. cbn [snd] in Hfds, Ht0.
  rewrite (execute_cases os l w w1 Hr). cbn [snd].
  assert (Hq0 : Forall not_stdout e0).
  { eapply Forall_impl; [exact He0|]. intros [] He; try done. }
  assert (Hn0 : Forall nohang_or_stdout e0).
  { eapply Forall_impl; [exact He0|]. intros [] He; try done. }
  assert (Hf0 : Forall no_fork e0).
  { eapply Forall_impl; [exact He0|]. intros [] He; try done. }
  split; [|split].
  - intros rest Hseq. rewrite Hseq. rewrite bool_decide_true by done.
    pose proof (print_jobs_same_fds os w1) as Hpf.
    pose proof (print_jobs_grows nohang_or_stdout os (λ _ _, I) (λ _, I) w1)
      as [_ (e1 & Ht1 & He1)].
    destruct (print_jobs os w1) as [[] w2]. unfold same_fds in Hpf. cbn [fst snd] in *.
    split; [done|]. split; [congruence|]. exists (e0 ++ e1).
    split; [by rewrite Ht1, Ht0, app_assoc|by apply Forall_app].
  - intros Hnot.
    assert (∀ (m : M Z), does (grows not_stdout) m →
              ∃ evs, w_trace (snd (m w1)) = w_trace w ++ evs ∧ stdout_lines evs = [])
      as Hquiet.
    { intros m Hm. destruct (Hm w1) as [_ (e1 & Ht1 & He1)]. exists (e0 ++ e1).
      split; [by rewrite Ht1, Ht0, app_assoc|].
      apply stdout_lines_quiet. by apply Forall_app. }
    assert (∃ evs, w_trace w1 = w_trace w ++ evs ∧ stdout_lines evs = []) as Hstop.
    { exists e0. split; [done|by apply stdout_lines_quiet]. }
    destruct (seq l) as [|argv [|argv' stages]] eqn:Hseq; [done| |].
    + destruct argv as [|a0 rest]; [done|].
      rewrite bool_decide_false by (intros ->; by apply (Hnot rest)).
      apply (Hquiet (single_stage_spec os l (a0 :: rest))), single_stage_spec_quiet.
    + assert (∃ evs, w_trace (snd (execute_pipeline os l w1)) = w_trace w ++ evs ∧
                     stdout_lines evs = []) as Hpipe.
      { apply (Hquiet (execute_pipeline os l)), execute_pipeline_quiet. }
      by destruct argv.
  - intros Hlen.
    destruct (seq l) as [|argv [|argv' stages]] eqn:Hseq; [simpl in Hlen; lia..|].
    assert (match argv with
            | [] | _ => execute_pipeline os l w1
            end = execute_pipeline os l w1) as -> by by destruct argv.
    destruct (execute_pipeline os l w1) as [rv w'] eqn:Hp. cbn [fst snd].
    apply execute_pipeline_outcome in Hp
      as (_ & e1 & k & Ht1 & Hprog & _ & _ & Hcases).
    rewrite <-Hseq.
    exists (e0 ++ e1), k. split; [by rewrite Ht1, Ht0, app_assoc|].
    rewrite programs_run_app, (programs_run_no_fork e0) by done.
    split; [done|].
    intros ->. by destruct Hcases as [(_ & -> & _)|(Hbad & _)].
Qed.

Lemma jobs_builtin_single_stage_only_witness :
  seq cmd_jobs_redirected = [["jobs"]] ∧
  execute os_ok (Some cmd_jobs_redirected) shell_start =
    (EXIT_SUCCESS,
     World {[0; 1; 2]} g_jobs_init "sleep 5 &" [EvStdout ("(no background jobs)" +:+ NL)]) ∧
  programs_run (w_trace (snd (execute os_ok (Some cmd_sleep_jobs_bg) shell_start))) =
    [Some ("sleep", ["sleep"; "9"]); Some ("jobs", ["jobs"])].
Proof.
  split; [reflexivity|]. split.
  - rewrite (proj1 (proj1 (jobs_builtin_single_stage_only os_ok cmd_jobs_redirected
                             shell_start) [] eq_refl)).
    vm_compute. reflexivity.
  - vm_compute. reflexivity.
Defined.

(** ** Aborting a pipeline *)

(** C2, at the failing input.  In [yes | head] the second [fork] fails.
    [execute] reports failure, has closed every descriptor it opened and has
    waited for the one child it spawned (process 100); but it has also
    issued a blocking wait on 777, the value the uninitialised second cell
    of [pids] happened to hold, which is no process of this call. *)
Theorem pipe_fail_waits_on_stale_pid :
  let res := execute os_second_fork_fails (Some cmd_yes_head) shell_start in
  fst res = EXIT_FAILURE ∧
  w_fds (snd res) = w_fds shell_start ∧
  spawned_pids (w_trace (snd res)) = [100] ∧
  blocking_waits (w_trace (snd res)) = [100; 777].
Proof. vm_compute. done. Qed.

(** * Further properties of the code *)

Lemma reap_frees_exactly_the_terminated_witness :
  length (g_jobs w_bg_job) = MAX_JOBS ∧
  g_jobs w_bg_job !! 0%nat = Some (Job 100 1 "sleep 5 &") ∧
  w_trace (snd (reap_finished_jobs os_all_done w_bg_job)) = [EvWaitpid 100 true 100] ∧
  g_jobs (snd (reap_finished_jobs os_all_done w_bg_job)) !! 0%nat =
    Some (Job 100 0 "sleep 5 &").
Proof.
  assert (length (g_jobs w_bg_job) = MAX_JOBS) as Hlen by (vm_compute; reflexivity).
  assert (active_jobs (g_jobs w_bg_job) = [Job 100 1 "sleep 5 &"]) as Hact
    by (vm_compute; reflexivity).
  split; [exact Hlen|]. split; [vm_compute; reflexivity|].
  destruct (reap_frees_exactly_the_terminated os_all_done w_bg_job Hlen)
    as (_ & _ & rs & Hl & Ht & Hj & Htie).
  rewrite Hact in Hl, Ht, Htie.
  destruct rs as [|r [|r' rs]]; [discriminate Hl| |discriminate Hl].
  pose proof (Htie 0%nat (Job 100 1 "sleep 5 &") r eq_refl eq_refl) as Hr.
  cbn in Hr. subst r.
  split; [rewrite Ht; reflexivity|]. rewrite Hj. vm_compute. reflexivity.
Defined.

Lemma added_job_is_listed_witness :
  length (g_jobs shell_start) = MAX_JOBS ∧ first_inactive (g_jobs shell_start) 0 ∧
  (∀ tr, os_waitpid os_ok tr 100 true ≠ 100) ∧
  job_line (Job 100 1 "sleep 5 &")
    ∈ stdout_lines (drop (length (w_trace (snd (add_job 100 (Some "sleep 5 &") shell_start))))
                      (w_trace (snd (print_jobs os_ok
                                       (snd (add_job 100 (Some "sleep 5 &") shell_start)))))).
Proof.
  assert (first_inactive (g_jobs shell_start) 0) as Hfree
    by (split; [exists job_zero; split; reflexivity | intros k j Hk; lia]).
  assert (∀ tr : list event, os_waitpid os_ok tr 100 true ≠ 100) as Halive
    by (intros tr; simpl; lia).
  split; [reflexivity|]. split; [exact Hfree|]. split; [exact Halive|].
  exact (proj2 (added_job_is_listed os_ok 100 (Some "sleep 5 &") shell_start 0
                  eq_refl Hfree Halive)).
Defined.

(** ** The job table keeps its size *)

#[global] Hint Resolve add_job_same_size reap_same_size print_jobs_same_size : frame.
#[global] Hint Resolve same_size_of_same_jobs | 10 : frame.

Lemma execute_same_size os l : does same_size (execute os l).
Proof. unfold execute, execute_command, execute_pipeline, pipe_fail. frame. Qed.

(** X3.  No operation changes the number of slots of the job table:
    [execute] on any command line, [add_job], [reap_finished_jobs] and
    [print_jobs] all return a table as long as the one they were given, so
    a table of [MAX_JOBS] slots stays one. *)
Theorem job_table_keeps_its_size (os : os_t) (l : option cmdline_t) (p : Z)
    (text : option string) (w : world) :
  length (g_jobs (snd (execute os l w))) = length (g_jobs w) ∧
  length (g_jobs (snd (add_job p text w))) = length (g_jobs w) ∧
  length (g_jobs (snd (reap_finished_jobs os w))) = length (g_jobs w) ∧
  length (g_jobs (snd (print_jobs os w))) = length (g_jobs w).
Proof.
  split; [apply execute_same_size|]. split; [apply add_job_same_size|].
  split; [apply reap_same_size|apply print_jobs_same_size].
Qed.

(** ** Who is waited for, and who is registered *)

Lemma resolve_end_redirections_setup_events os l :
  does (grows setup_event) (resolve_end_redirections os l).
Proof. unfold resolve_end_redirections, and_then. frame. Qed.

Lemma resolve_end_redirections_same_jobs os l :
  does same_jobs (resolve_end_redirections os l).
Proof. unfold resolve_end_redirections, and_then. frame. Qed.

Lemma close_unless_no_fork dflt fd : Forall no_fork (close_unless dflt fd).
Proof. unfold close_unless. destruct (decide _); by repeat constructor. Qed.

Lemma close_unless_no_wait dflt fd : blocking_waits (close_unless dflt fd) = [].
Proof. unfold close_unless. by destruct (decide _). Qed.

Lemma spawned_pids_close_unless dflt fd : spawned_pids (close_unless dflt fd) = [].
Proof. unfold close_unless. by destruct (decide _). Qed.

Lemma spawned_close_unless dflt fd : spawned (close_unless dflt fd) = [].
Proof. unfold close_unless. by destruct (decide _). Qed.

Lemma child_program_command_child c argv in_fd out_fd :
  child_program (command_child c argv in_fd out_fd) = Some (c, argv).
Proof. unfold child_program, command_child. rewrite !app_assoc. by rewrite last_snoc. Qed.

(** The one-stage path: what was started, waited for and registered. *)
Lemma single_stage_outcome os l a0 rest w rv w' :
  single_stage_spec os l (a0 :: rest) w = (rv, w') →
  g_last_cmdline w' = g_last_cmdline w ∧
  ∃ evs,
    w_trace w' = w_trace w ++ evs ∧
    (rv = EXIT_SUCCESS ∧
       (∃ p, 0 < p ∧ spawned_pids evs = [p] ∧
          if l_bg l
          then blocking_waits evs = [] ∧
               g_jobs w' = g_jobs (snd (add_job p (Some (g_last_cmdline w)) w))
          else blocking_waits evs = [p] ∧ g_jobs w' = g_jobs w) ∧
       programs_run evs = [Some (a0, a0 :: rest)]
     ∨
     rv = EXIT_FAILURE ∧ spawned_pids evs = [] ∧ blocking_waits evs = [] ∧
       programs_run evs = [] ∧ g_jobs w' = g_jobs w).
Proof.
  unfold single_stage_spec, bind.
  pose proof (resolve_end_redirections_setup_events os l w) as [Hc1 (e1 & Ht1 & He1)].
  pose proof (resolve_end_redirections_same_jobs os l w) as Hj1. unfold same_jobs in Hj1.
  destruct (resolve_end_redirections os l w) as [[[in_fd out_fd]|] w1]; cbn [fst snd] in *.
  2:{ intros [= <- <-]. split; [done|]. exists e1. split; [done|]. right.
      rewrite spawned_pids_no_fork, programs_run_no_fork by by apply setup_event_no_fork.
      by rewrite blocking_waits_setup. }
  change (head (a0 :: rest)) with (Some a0).
  destruct (execute_command_run os a0 a0 rest in_fd out_fd (if l_bg l then 1 else 0) w1)
    as [Hfail Hok].
  assert (Hsp1 : spawned_pids e1 = []) by by apply spawned_pids_no_fork, setup_event_no_fork.
  assert (Hpr1 : programs_run e1 = []) by by apply programs_run_no_fork, setup_event_no_fork.
  assert (Hbw1 : blocking_waits e1 = []) by by apply blocking_waits_setup.
  set (closes := close_unless STDIN_FILENO in_fd ++ close_unless STDOUT_FILENO out_fd) in *.
  assert (Hcl_sp : spawned_pids closes = []).
  { unfold closes. by rewrite spawned_pids_app, !spawned_pids_close_unless. }
  assert (Hcl_s : spawned closes = []).
  { unfold closes. by rewrite spawned_app, !spawned_close_unless. }
  assert (Hcl_bw : blocking_waits closes = []).
  { unfold closes. by rewrite blocking_waits_app, !close_unless_no_wait. }
  destruct (os_fork os (w_trace w1)) as [p|].
  - rewrite (Hok p eq_refl). clear Hok Hfail.
    set (child := command_child a0 (a0 :: rest) in_fd out_fd).
    assert (Hprog : programs_run (e1 ++ [EvFork child (Z.pos p)] ++ closes) =
                    [Some (a0, a0 :: rest)]).
    { rewrite !programs_run_app, Hpr1. unfold programs_run. rewrite Hcl_s. simpl.
      unfold child. by rewrite child_program_command_child. }
    assert (Hsp : spawned_pids (e1 ++ [EvFork child (Z.pos p)] ++ closes) = [Z.pos p]).
    { by rewrite !spawned_pids_app, Hsp1, Hcl_sp. }
    assert (Hbw : blocking_waits (e1 ++ [EvFork child (Z.pos p)] ++ closes) = []).
    { by rewrite !blocking_waits_app, Hbw1, Hcl_bw. }
    destruct (l_bg l); cbn [Z.eqb].
    + set (w2 := World _ _ _ _).
      destruct (add_job_shape (Z.pos p) (Some (g_last_cmdline w1)) w2)
        as (r & jobs' & evs & Hadd & Hst).
      pose proof (add_job_jobs_only (Z.pos p) (Some (g_last_cmdline w1)) w2 w) as [_ Hjobs];
        [simpl; congruence|].
      rewrite Hadd in Hjobs |- *. cbn [snd] in *. intros [= <- <-]. simpl.
      split; [done|].
      exists ((e1 ++ [EvFork child (Z.pos p)] ++ closes) ++ evs).
      split; [rewrite Ht1; by rewrite <-!app_assoc|]. left.
      assert (Forall no_fork evs) as Hnf.
      { eapply Forall_impl; [exact Hst|]. by intros e [s ->]. }
      assert (blocking_waits evs = []) as Hbe.
      { clear -Hst. induction Hst as [|e evs [s ->] _ IH]; [done|exact IH]. }
      split; [done|]. split.
      * exists (Z.pos p). split; [lia|].
        rewrite spawned_pids_app, (spawned_pids_no_fork evs), app_nil_r by done.
        split; [done|]. rewrite blocking_waits_app, Hbw, Hbe. split; [done|].
        simpl in Hjobs. by rewrite <-Hc1.
      * by rewrite programs_run_app, (programs_run_no_fork evs), app_nil_r.
    + unfold sys_waitpid, emit. cbn [fst snd]. intros [= <- <-]. simpl.
      split; [done|]. eexists ((e1 ++ [EvFork child (Z.pos p)] ++ closes) ++ [_]).
      split; [rewrite Ht1; by rewrite <-!app_assoc|]. left.
      split; [done|]. split.
      * exists (Z.pos p). split; [lia|].
        rewrite spawned_pids_app, blocking_waits_app, Hsp, Hbw. done.
      * by rewrite programs_run_app, Hprog.
  - rewrite (Hfail eq_refl). intros [= <- <-]. simpl. split; [done|].
    set (child := command_child a0 (a0 :: rest) in_fd out_fd).
    exists (e1 ++ [EvFork child (-1); EvPerror "fork"] ++ closes).
    split; [rewrite Ht1; by rewrite <-!app_assoc|]. right.
    split; [done|].
    rewrite !spawned_pids_app, !blocking_waits_app, !programs_run_app.
    rewrite Hsp1, Hbw1, Hpr1, Hcl_sp, Hcl_bw. unfold programs_run at 2. rewrite Hcl_s.
    done.
Qed.

(** The content of [pids] before the loop is what [malloc] handed out. *)
Lemma pipeline_setup_garbage os l w pipes in_fd out_fd g w1 :
  pipeline_setup os l w = (Some (pipes, in_fd, out_fd, g), w1) →
  ∃ tr, os_malloc os tr = Some g.
Proof.
  unfold pipeline_setup, bind. set (n := (length (seq l) - 1)%nat).
  destruct ((if bool_decide (0 < n)%nat then sys_malloc os else ret (Some (λ _, 0))) w)
    as [[g0|] w2]; [|by destruct (perror _ w2)].
  destruct (create_pipes os n [] w2) as [[pipes'|] w3]; [|done].
  destruct (match l_in l with
            | Some path => sys_open os path O_RDONLY
            | None => ret STDIN_FILENO
            end w3) as [fd_in w4].
  destruct (fd_in <? 0).
  { destruct (perror _ w4) as [[] w5].
    by destruct (close_pipes pipes' w5) as [[] w6]. }
  destruct (match l_out l with
            | Some path => sys_open os path O_WRONLY_CREAT_TRUNC
            | None => ret STDOUT_FILENO
            end w4) as [fd_out w5].
  destruct (fd_out <? 0).
  { destruct (perror _ w5) as [[] w6].
    destruct (when_ _ _ w6) as [[] w7]. by destruct (close_pipes pipes' w7) as [[] w8]. }
  unfold sys_malloc at 1. cbn [fst snd].
  destruct (os_malloc os (w_trace w5)) as [g'|] eqn:Hg.
  - intros [= <- <- <- <- <-]. by exists (w_trace w5).
  - destruct (perror _ _) as [[] w6]. destruct (when_ _ _ w6) as [[] w7].
    destruct (when_ _ _ w7) as [[] w8]. by destruct (close_pipes pipes' w8) as [[] w9].
Qed.

(** A pipeline that fails has waited for every child it spawned, in spawn
    order, and after them for the positive values left in the cells of
    [pids] it never wrote. *)
Lemma execute_pipeline_failure os l w w' :
  execute_pipeline os l w = (EXIT_FAILURE, w') →
  ∃ evs junk,
    w_trace w' = w_trace w ++ evs ∧
    blocking_waits evs = spawned_pids evs ++ junk ∧
    Forall (λ x, 0 < x ∧ ∃ tr g n, os_malloc os tr = Some g ∧ x = g n) junk.
Proof.
  intros Hrun. rewrite execute_pipeline_phases in Hrun. unfold bind in Hrun.
  pose proof (pipeline_setup_setup_events os l w) as [_ (e1 & Ht1 & He1)].
  destruct (pipeline_setup os l w) as [[[[[pipes in_fd] out_fd] g]|] w1] eqn:Hsetup;
    cbn [fst snd] in *.
  2:{ inversion Hrun; subst. exists e1, []. split; [done|].
      rewrite spawned_pids_no_fork by by apply setup_event_no_fork.
      by rewrite blocking_waits_setup. }
  apply pipeline_setup_garbage in Hsetup as [tr Hg].
  unfold pipeline_run, bind in Hrun.
  set (pids0 := g <$> List.seq 0 (length (seq l))) in *.
  destruct (spawn_loop _ _ _ _ _ _ _ _ _ w1) as [[[ex in'] pids'] w2] eqn:Hloop.
  assert (Hlen0 : length pids0 = length (seq l))
    by (unfold pids0; by rewrite length_fmap, length_seq).
  apply spawn_loop_trace in Hloop
    as (e2 & k & Ht2 & _ & Hk & Hpos & Hpids & Hbw & _ & _); [|simpl; lia].
  rewrite take_0 in Hpids. simpl in Hpids.
  destruct ex.
  { apply pipeline_finish_done in Hrun as (Hbad & _). done. }
  apply pipeline_finish_fail in Hrun as (_ & _ & _ & e3 & Ht3 & Hnf3 & Hb3).
  exists ((e1 ++ e2) ++ e3), (filter (λ p, 0 < p) (drop k pids0)).
  split; [by rewrite Ht3, Ht2, Ht1, !app_assoc|].
  rewrite !spawned_pids_app, !blocking_waits_app.
  rewrite (spawned_pids_no_fork e1), (spawned_pids_no_fork e3), app_nil_r
    by (done || by apply setup_event_no_fork).
  rewrite blocking_waits_setup, Hbw, Hb3, Hpids by done. simpl.
  rewrite filter_app, filter_positive_all by done. split; [done|].
  apply Forall_forall. intros x Hx. apply list_elem_of_filter in Hx as [Hx0 Hx].
  split; [done|]. apply list_elem_of_lookup in Hx as [i Hi].
  rewrite lookup_drop in Hi. unfold pids0 in Hi.
  apply list_lookup_fmap_Some in Hi as (n & -> & _). by exists tr, g, n.
Qed.

Lemma nohang_no_fork evs : Forall is_nohang_wait evs → Forall no_fork evs.
Proof. intros H. eapply Forall_impl; [exact H|]. by intros []. Qed.

Lemma nohang_no_block evs : Forall is_nohang_wait evs → blocking_waits evs = [].
Proof. induction 1 as [|e evs He _ IH]; [done|]. destruct e; try done. by destruct nohang. Qed.

Lemma nohang_or_stdout_no_block evs : Forall nohang_or_stdout evs → blocking_waits evs = [].
Proof. induction 1 as [|e evs He _ IH]; [done|]. destruct e; try done. by destruct nohang. Qed.

(** X4.  When [execute] returns success for a foreground command line that
    is not the [jobs] builtin, it has started one child per stage, in stage
    order, the child of a stage ending in [execvp(argv[0], argv)]; and it
    has issued a blocking [waitpid] for each of these children and for
    nothing else, in the order it started them. *)
Theorem foreground_waits_for_every_stage (os : os_t) (l : cmdline_t) (w : world) :
  l_bg l = false → seq l ≠ [[]] → (∀ rest, seq l ≠ ["jobs" :: rest]) →
  fst (execute os (Some l) w) = EXIT_SUCCESS →
  ∃ evs,
    w_trace (snd (execute os (Some l) w)) = w_trace w ++ evs ∧
    programs_run evs = stage_program <$> seq l ∧
    length (spawned_pids evs) = length (seq l) ∧
    Forall (λ p, 0 < p) (spawned_pids evs) ∧
    blocking_waits evs = spawned_pids evs.
Proof.
  intros Hbg Hne Hnot.
  destruct (reap_finished_jobs_spec os w) as (_ & _ & _ & e0 & Ht0 & He0 & _).
  destruct (reap_finished_jobs os w) as [[] w1] eqn:Hr. cbn [snd] in Ht0.
  rewrite (execute_cases os l w w1 Hr).
  pose proof (spawned_pids_no_fork e0 (nohang_no_fork e0 He0)) as Hs0.
  pose proof (programs_run_no_fork e0 (nohang_no_fork e0 He0)) as Hp0.
  pose proof (nohang_no_block e0 He0) as Hb0.
  destruct (seq l) as [|argv [|argv' stages]] eqn:Hseq.
  - intros _. exists e0. cbn [snd]. by rewrite Hs0, Hp0, Hb0.
  - destruct argv as [|a0 rest]; [done|].
    rewrite bool_decide_false by (intros ->; by apply (Hnot rest)).
    destruct (single_stage_spec os l (a0 :: rest) w1) as [rv w'] eqn:Hs. cbn [fst snd].
    apply single_stage_outcome in Hs
      as (_ & e1 & Ht1 & [(_ & (p & Hp & Hsp & Hw) & Hprog)|(-> & _)]); [|done].
    intros _. rewrite Hbg in Hw. destruct Hw as [Hw _].
    exists (e0 ++ e1). split; [by rewrite Ht1, Ht0, app_assoc|].
    rewrite programs_run_app, spawned_pids_app, blocking_waits_app.
    rewrite Hs0, Hp0, Hb0, Hsp, Hw, Hprog. simpl.
    split; [done|]. split; [done|]. split; [|done]. by repeat constructor.
  - assert (match argv with
            | [] | _ => execute_pipeline os l w1
            end = execute_pipeline os l w1) as -> by by destruct argv.
    destruct (execute_pipeline os l w1) as [rv w'] eqn:Hp. cbn [fst snd].
    apply execute_pipeline_outcome in Hp
      as (_ & e1 & k & Ht1 & Hprog & Hk & Hpos & [(_ & -> & Hw)|(-> & _)]); [|done].
    intros _. rewrite Hbg in Hw. destruct Hw as [Hw _].
    exists (e0 ++ e1). split; [by rewrite Ht1, Ht0, app_assoc|].
    rewrite programs_run_app, spawned_pids_app, blocking_waits_app.
    rewrite Hs0, Hp0, Hb0, Hw, Hprog. simpl.
    rewrite Hseq in *. by rewrite firstn_all.
Qed.

Lemma foreground_waits_for_every_stage_witness :
  l_bg cmd_cat_wc = false ∧
  ∃ evs,
    w_trace (snd (execute os_ok (Some cmd_cat_wc) shell_start)) = w_trace shell_start ++ evs ∧
    length (spawned_pids evs) = 2%nat ∧
    blocking_waits evs = spawned_pids evs.
Proof.
  split; [reflexivity|].
  assert (fst (execute os_ok (Some cmd_cat_wc) shell_start) = EXIT_SUCCESS) as Hok
    by (vm_compute; reflexivity).
  assert (seq cmd_cat_wc ≠ [[]]) as H1 by (simpl; congruence).
  assert (∀ rest, seq cmd_cat_wc ≠ ["jobs" :: rest]) as H2 by (simpl; congruence).
  destruct (foreground_waits_for_every_stage os_ok cmd_cat_wc shell_start eq_refl H1 H2 Hok)
    as (evs & Ht & _ & Hlen & _ & Hw).
  exists evs. split; [exact Ht|]. split; [exact Hlen|exact Hw].
Defined.

(** X5.  A background command line that [execute] runs successfully never
    makes the shell block: no blocking [waitpid] is issued, whatever the
    number of stages (the [jobs] builtin and the empty command line
    included). *)
Theorem background_never_blocks (os : os_t) (l : cmdline_t) (w : world) :
  l_bg l = true →
  fst (execute os (Some l) w) = EXIT_SUCCESS →
  ∃ evs,
    w_trace (snd (execute os (Some l) w)) = w_trace w ++ evs ∧
    blocking_waits evs = [].
Proof.
  intros Hbg.
  destruct (reap_finished_jobs_spec os w) as (_ & _ & _ & e0 & Ht0 & He0 & _).
  destruct (reap_finished_jobs os w) as [[] w1] eqn:Hr. cbn [snd] in Ht0.
  rewrite (execute_cases os l w w1 Hr).
  pose proof (nohang_no_block e0 He0) as Hb0.
  destruct (seq l) as [|argv [|argv' stages]] eqn:Hseq.
  - intros _. by exists e0.
  - destruct argv as [|a0 rest]; [intros _; by exists e0|].
    destruct (bool_decide (a0 = "jobs")).
    + pose proof (print_jobs_grows nohang_or_stdout os (λ _ _, I) (λ _, I) w1)
        as [_ (e1 & Ht1 & He1)].
      destruct (print_jobs os w1) as [[] w2]. cbn [fst snd] in *.
      intros _. exists (e0 ++ e1). split; [by rewrite Ht1, Ht0, app_assoc|].
      by rewrite blocking_waits_app, Hb0, nohang_or_stdout_no_block.
    + destruct (single_stage_spec os l (a0 :: rest) w1) as [rv w'] eqn:Hs. cbn [fst snd].
      apply single_stage_outcome in Hs
        as (_ & e1 & Ht1 & [(_ & (p & Hp & Hsp & Hw) & Hprog)|(-> & _)]); [|done].
      intros _. rewrite Hbg in Hw. destruct Hw as [Hw _].
      exists (e0 ++ e1). split; [by rewrite Ht1, Ht0, app_assoc|].
      by rewrite blocking_waits_app, Hb0, Hw.
  - assert (match argv with
            | [] | _ => execute_pipeline os l w1
            end = execute_pipeline os l w1) as -> by by destruct argv.
    destruct (execute_pipeline os l w1) as [rv w'] eqn:Hp. cbn [fst snd].
    apply execute_pipeline_outcome in Hp
      as (_ & e1 & k & Ht1 & Hprog & Hk & Hpos & [(_ & -> & Hw)|(-> & _)]); [|done].
    intros _. rewrite Hbg in Hw. destruct Hw as [Hw _].
    exists (e0 ++ e1). split; [by rewrite Ht1, Ht0, app_assoc|].
    by rewrite blocking_waits_app, Hb0, Hw.
Qed.

Lemma background_never_blocks_witness :
  l_bg cmd_sleep_jobs_bg = true ∧
  ∃ evs,
    w_trace (snd (execute os_ok (Some cmd_sleep_jobs_bg) shell_start)) =
      w_trace shell_start ++ evs ∧
    blocking_waits evs = [].
Proof.
  split; [reflexivity|].
  assert (fst (execute os_ok (Some cmd_sleep_jobs_bg) shell_start) = EXIT_SUCCESS) as Hok
    by (vm_compute; reflexivity).
  exact (background_never_blocks os_ok cmd_sleep_jobs_bg shell_start eq_refl Hok).
Defined.

(** X6.  When [execute] reports failure it has waited, blocking, for every
    child it had started, in the order it started them.  Any further wait
    it issued is on a positive value read from a cell of freshly allocated
    memory; there is none when fresh memory holds no positive value. *)
Theorem failure_waits_for_spawned_children (os : os_t) (l : cmdline_t) (w : world) :
  fst (execute os (Some l) w) = EXIT_FAILURE →
  ∃ evs junk,
    w_trace (snd (execute os (Some l) w)) = w_trace w ++ evs ∧
    blocking_waits evs = spawned_pids evs ++ junk ∧
    Forall (λ x, 0 < x ∧ ∃ tr g n, os_malloc os tr = Some g ∧ x = g n) junk ∧
    ((∀ tr g n, os_malloc os tr = Some g → g n ≤ 0) → junk = []).
Proof.
  destruct (reap_finished_jobs_spec os w) as (_ & _ & _ & e0 & Ht0 & He0 & _).
  destruct (reap_finished_jobs os w) as [[] w1] eqn:Hr. cbn [snd] in Ht0.
  rewrite (execute_cases os l w w1 Hr).
  pose proof (spawned_pids_no_fork e0 (nohang_no_fork e0 He0)) as Hs0.
  pose proof (nohang_no_block e0 He0) as Hb0.
  assert (∀ junk,
    Forall (λ x, 0 < x ∧ ∃ tr g n, os_malloc os tr = Some g ∧ x = g n) junk →
    (∀ tr g n, os_malloc os tr = Some g → g n ≤ 0) → junk = []) as Hclean.
  { intros [|x junk] Hj Hz; [done|]. apply Forall_cons in Hj as [[Hx (tr & g & n & Hg & ->)] _].
    specialize (Hz tr g n Hg). lia. }
  destruct (seq l) as [|argv [|argv' stages]] eqn:Hseq; [done| |].
  - destruct argv as [|a0 rest]; [done|].
    destruct (bool_decide (a0 = "jobs")).
    { by destruct (print_jobs os w1) as [[] w2]. }
    destruct (single_stage_spec os l (a0 :: rest) w1) as [rv w'] eqn:Hs. cbn [fst snd].
    apply single_stage_outcome in Hs
      as (_ & e1 & Ht1 & [(-> & _)|(_ & Hsp & Hw & _)]); [done|].
    intros _. exists (e0 ++ e1), []. split; [by rewrite Ht1, Ht0, app_assoc|].
    rewrite spawned_pids_app, blocking_waits_app, Hs0, Hb0, Hsp, Hw. done.
  - assert (match argv with
            | [] | _ => execute_pipeline os l w1
            end = execute_pipeline os l w1) as -> by by destruct argv.
    destruct (execute_pipeline os l w1) as [rv w'] eqn:Hp. cbn [fst snd].
    intros ->. apply execute_pipeline_failure in Hp as (e1 & junk & Ht1 & Hw & Hj).
    exists (e0 ++ e1), junk. split; [by rewrite Ht1, Ht0, app_assoc|].
    rewrite spawned_pids_app, blocking_waits_app, Hs0, Hb0, Hw.
    split; [done|]. split; [done|]. by apply Hclean.
Qed.

Lemma failure_waits_for_spawned_children_witness :
  ∃ evs junk,
    w_trace (snd (execute os_second_fork_fails (Some cmd_yes_head) shell_start)) =
      w_trace shell_start ++ evs ∧
    blocking_waits evs = spawned_pids evs ++ junk.
Proof.
  assert (fst (execute os_second_fork_fails (Some cmd_yes_head) shell_start) = EXIT_FAILURE)
    as Hfail by (vm_compute; reflexivity).
  destruct (failure_waits_for_spawned_children os_second_fork_fails cmd_yes_head shell_start
              Hfail) as (evs & junk & Ht & Hw & _).
  exists evs, junk. split; [exact Ht|exact Hw].
Defined.

(** X7.  Only a successful background command registers a job.  When the
    command line is in the foreground, or when [execute] reports failure,
    the job table [execute] leaves is the one its opening
    [reap_finished_jobs] produced (the [jobs] builtin, which reaps once
    more, apart). *)
Theorem only_background_success_registers (os : os_t) (l : cmdline_t) (w : world) :
  (∀ rest, seq l ≠ ["jobs" :: rest]) →
  l_bg l = false ∨ fst (execute os (Some l) w) = EXIT_FAILURE →
  g_jobs (snd (execute os (Some l) w)) = g_jobs (snd (reap_finished_jobs os w)).
Proof.
  intros Hnot.
  destruct (reap_finished_jobs os w) as [[] w1] eqn:Hr.
  rewrite (execute_cases os l w w1 Hr). cbn [snd].
  destruct (seq l) as [|argv [|argv' stages]] eqn:Hseq; [done| |].
  - destruct argv as [|a0 rest]; [done|].
    rewrite bool_decide_false by (intros ->; by apply (Hnot rest)).
    destruct (single_stage_spec os l (a0 :: rest) w1) as [rv w'] eqn:Hs. cbn [fst snd].
    apply single_stage_outcome in Hs
      as (_ & e1 & Ht1 & [(-> & (p & Hp & Hsp & Hw) & _)|(_ & _ & _ & _ & Hj)]); [|done].
    intros [Hbg|Hbad]; [|done]. rewrite Hbg in Hw. by destruct Hw.
  - assert (match argv with
            | [] | _ => execute_pipeline os l w1
            end = execute_pipeline os l w1) as -> by by destruct argv.
    destruct (execute_pipeline os l w1) as [rv w'] eqn:Hp. cbn [fst snd].
    apply execute_pipeline_outcome in Hp
      as (_ & e1 & k & Ht1 & _ & _ & _ & [(-> & _ & Hw)|(_ & Hj & _)]); [|done].
    intros [Hbg|Hbad]; [|done]. rewrite Hbg in Hw. by destruct Hw.
Qed.

Lemma only_background_success_registers_witness :
  g_jobs (snd (execute os_all_done (Some cmd_cat_wc) w_bg_job)) =
  g_jobs (snd (reap_finished_jobs os_all_done w_bg_job)).
Proof.
  assert (∀ rest, seq cmd_cat_wc ≠ ["jobs" :: rest]) as H1 by (simpl; congruence).
  exact (only_background_success_registers os_all_done cmd_cat_wc w_bg_job H1
           (or_introl eq_refl)).
Defined.

(** X8.  A single command run in the background is registered under its
    own process id: when [execute] returns success for a one-stage
    background command line other than [jobs], exactly one child was
    started, and the job table is the reaped table after one
    [add_job(pid, g_last_cmdline)] with that child's process id; with a free
    slot, the first free slot holds the new record. *)
Theorem background_command_registers_its_pid (os : os_t) (l : cmdline_t) (w : world)
    (a0 : string) (rest : list string) :
  seq l = [a0 :: rest] → a0 ≠ "jobs" → l_bg l = true →
  fst (execute os (Some l) w) = EXIT_SUCCESS →
  let w1 := snd (reap_finished_jobs os w) in
  let w' := snd (execute os (Some l) w) in
  ∃ evs p,
    w_trace w' = w_trace w1 ++ evs ∧
    spawned_pids evs = [p] ∧
    programs_run evs = [Some (a0, a0 :: rest)] ∧
    g_jobs w' = g_jobs (snd (add_job p (Some (g_last_cmdline w)) w1)) ∧
    (∀ n, length (g_jobs w1) = MAX_JOBS → first_inactive (g_jobs w1) n →
       g_jobs w' = <[n := new_job p (Some (g_last_cmdline w))]> (g_jobs w1)).
Proof.
  intros Hseq Hne Hbg Hok w1 w'. subst w1 w'. revert Hok.
  destruct (reap_finished_jobs_spec os w) as (_ & Hcmd & _).
  destruct (reap_finished_jobs os w) as [[] w1] eqn:Hr. cbn [snd] in Hcmd.
  rewrite (execute_cases os l w w1 Hr). cbn [snd]. rewrite Hseq.
  rewrite bool_decide_false by done.
  destruct (single_stage_spec os l (a0 :: rest) w1) as [rv w'] eqn:Hs. cbn [fst snd].
  apply single_stage_outcome in Hs
    as (_ & e1 & Ht1 & [(_ & (p & Hp & Hsp & Hw) & Hprog)|(-> & _)]); [|done].
  intros _. rewrite Hbg in Hw. destruct Hw as [_ Hj]. rewrite Hcmd in Hj.
  exists e1, p. split; [done|]. split; [done|]. split; [done|]. split; [done|].
  intros n Hfull Hfree. rewrite Hj.
  by rewrite (add_job_first_inactive p (Some (g_last_cmdline w)) w1 n).
Qed.

Lemma background_command_registers_its_pid_witness :
  ∃ evs p,
    w_trace (snd (execute os_ok (Some (Cmdline [["sleep"; "5"]] None None true)) shell_start)) =
      w_trace (snd (reap_finished_jobs os_ok shell_start)) ++ evs ∧
    spawned_pids evs = [p].
Proof.
  assert (fst (execute os_ok (Some (Cmdline [["sleep"; "5"]] None None true)) shell_start)
          = EXIT_SUCCESS) as Hok by (vm_compute; reflexivity).
  assert ("sleep" ≠ "jobs") as Hne by (intros [=]).
  destruct (background_command_registers_its_pid os_ok
              (Cmdline [["sleep"; "5"]] None None true) shell_start "sleep" ["5"]
              eq_refl Hne eq_refl Hok) as (evs & p & Ht & Hsp & _).
  exists evs, p. split; [exact Ht|exact Hsp].
Defined.

(** ** Redirections that cannot be opened *)

#[global] Hint Extern 0 (no_truncate _) => exact I : frame.
#[global] Hint Extern 0 (no_child _) => exact I : frame.

Lemma sys_open_never os path mode w :
  (∀ tr, os_open os tr path mode = false) →
  sys_open os path mode w = (-1, snd (emit (EvOpen path mode (-1)) w)).
Proof. intros Hfail. unfold sys_open. by rewrite Hfail. Qed.

Lemma setup_event_no_child e : setup_event e → no_child e.
Proof. by destruct e. Qed.

Lemma nohang_no_child e : is_nohang_wait e → no_child e.
Proof. by destruct e as [| | | |p [] r| | | |]. Qed.

Lemma nohang_no_truncate e : is_nohang_wait e → no_truncate e.
Proof. by destruct e. Qed.

(** With an input path that cannot be opened the set-up of a pipeline
    stops before the output path is looked at. *)
Lemma pipeline_setup_unreadable os l path w :
  l_in l = Some path → (∀ tr, os_open os tr path O_RDONLY = false) →
  fst (pipeline_setup os l w) = None ∧
  grows no_truncate w (snd (pipeline_setup os l w)).
Proof.
  intros Hin Hfail. unfold pipeline_setup, bind. set (n := (length (seq l) - 1)%nat).
  assert (does (grows no_truncate)
            (if bool_decide (0 < n)%nat then sys_malloc os else ret (Some (λ _, 0)))) as H1
    by frame.
  specialize (H1 w).
  destruct ((if bool_decide (0 < n)%nat then sys_malloc os else ret (Some (λ _, 0))) w)
    as [[g0|] w2]; cbn [snd] in H1.
  2:{ split; [done|]. etrans; [exact H1|]. by apply (grows_emit no_truncate). }
  pose proof (create_pipes_grows no_truncate os n [] (λ _, I) (λ _, I) (λ _, I) w2) as H2.
  destruct (create_pipes os n [] w2) as [[pipes|] w3]; cbn [snd] in H2.
  2:{ split; [done|]. by etrans. }
  rewrite Hin. rewrite (sys_open_never os path O_RDONLY w3 Hfail).
  cbv beta iota. change (-1 <? 0) with true. cbv beta iota.
  split.
  - unfold perror. destruct (emit _ _) as [[] w4]. by destruct (close_pipes pipes w4).
  - etrans; [exact H1|]. etrans; [exact H2|].
    assert (does (grows no_truncate)
              (emit (EvOpen path O_RDONLY (-1)) ;;;
               perror (default "" (Some path)) ;;; close_pipes pipes ;;; ret (@None unit)))
      as H3 by frame.
    specialize (H3 w3). unfold bind in H3 |- *. unfold perror in *.
    destruct (emit (EvOpen path O_RDONLY (-1)) w3) as [[] w4]. cbn [snd] in *.
    destruct (emit (EvPerror _) w4) as [[] w5].
    by destruct (close_pipes pipes w5) as [[] w6].
Qed.

(** With an output path that cannot be opened the set-up of a pipeline
    fails. *)
Lemma pipeline_setup_unwritable os l path w :
  l_out l = Some path → (∀ tr, os_open os tr path O_WRONLY_CREAT_TRUNC = false) →
  fst (pipeline_setup os l w) = None.
Proof.
  intros Hout Hfail. unfold pipeline_setup, bind. set (n := (length (seq l) - 1)%nat).
  destruct ((if bool_decide (0 < n)%nat then sys_malloc os else ret (Some (λ _, 0))) w)
    as [[g0|] w2]; [|by destruct (perror _ w2)].
  destruct (create_pipes os n [] w2) as [[pipes|] w3]; [|done].
  destruct (match l_in l with
            | Some path => sys_open os path O_RDONLY
            | None => ret STDIN_FILENO
            end w3) as [fd_in w4].
  destruct (fd_in <? 0).
  { destruct (perror _ w4) as [[] w5]. by destruct (close_pipes pipes w5). }
  rewrite Hout. rewrite (sys_open_never os path O_WRONLY_CREAT_TRUNC w4 Hfail).
  cbv beta iota. change (-1 <? 0) with true. cbv beta iota.
  destruct (perror _ _) as [[] w6]. destruct (when_ _ _ w6) as [[] w7].
  by destruct (close_pipes pipes w7).
Qed.

Lemma resolve_end_redirections_unreadable os l path w :
  l_in l = Some path → (∀ tr, os_open os tr path O_RDONLY = false) →
  fst (resolve_end_redirections os l w) = None ∧
  grows no_truncate w (snd (resolve_end_redirections os l w)).
Proof.
  intros Hin Hfail. unfold resolve_end_redirections, and_then, bind. rewrite Hin.
  rewrite (sys_open_never os path O_RDONLY w Hfail).
  cbv beta iota. change (-1 <? 0) with true. cbv beta iota. unfold perror, emit. cbn [fst snd].
  split; [done|]. split; [done|]. eexists [_; _]. cbn [w_trace].
  split; [by rewrite <-app_assoc|]. by repeat constructor.
Qed.

Lemma and_then_stops {A B} (m : M (option A)) (k : A → M (option B)) :
  (∀ a w, fst (k a w) = None) → ∀ w, fst ((m >>>= k) w) = None.
Proof.
  intros Hk w. unfold and_then, bind. destruct (m w) as [[a|] w1]; [apply Hk|done].
Qed.

Lemma resolve_end_redirections_unwritable os l path w :
  l_out l = Some path → (∀ tr, os_open os tr path O_WRONLY_CREAT_TRUNC = false) →
  fst (resolve_end_redirections os l w) = None.
Proof.
  intros Hout Hfail. unfold resolve_end_redirections. apply and_then_stops.
  intros in_fd w1. rewrite Hout. unfold bind.
  rewrite (sys_open_never os path O_WRONLY_CREAT_TRUNC w1 Hfail).
  cbv beta iota. change (-1 <? 0) with true. cbv beta iota.
  destruct (perror _ _) as [[] w2]. by destruct (when_ _ _ w2).
Qed.

(** A stopped set-up stops [execute]: failure, and nothing but set-up. *)
Lemma execute_pipeline_stopped os l w :
  fst (pipeline_setup os l w) = None →
  execute_pipeline os l w = (EXIT_FAILURE, snd (pipeline_setup os l w)).
Proof.
  intros Hs. rewrite execute_pipeline_phases. unfold bind.
  destruct (pipeline_setup os l w) as [[s|] w1]; [done|done].
Qed.

Lemma single_stage_spec_stopped os l argv w :
  fst (resolve_end_redirections os l w) = None →
  single_stage_spec os l argv w = (EXIT_FAILURE, snd (resolve_end_redirections os l w)).
Proof.
  intros Hs. unfold single_stage_spec, bind.
  destruct (resolve_end_redirections os l w) as [[s|] w1]; [done|done].
Qed.

(** X9.  When the input path of a command line cannot be opened,
    [execute] reports failure without having started anything: no [fork]
    was attempted, no blocking wait issued, and the output path was not
    opened, so an existing output file is neither created nor truncated.
    (The [jobs] builtin ignores the redirections; an empty command line
    opens nothing.) *)
Theorem unreadable_input_starts_nothing (os : os_t) (l : cmdline_t) (w : world)
    (path : string) :
  l_in l = Some path → (∀ tr, os_open os tr path O_RDONLY = false) →
  seq l ≠ [] → seq l ≠ [[]] → (∀ rest, seq l ≠ ["jobs" :: rest]) →
  fst (execute os (Some l) w) = EXIT_FAILURE ∧
  ∃ evs,
    w_trace (snd (execute os (Some l) w)) = w_trace w ++ evs ∧
    Forall no_child evs ∧ Forall no_truncate evs.
Proof.
  intros Hin Hfail Hne0 Hne1 Hnot.
  destruct (reap_finished_jobs_spec os w) as (_ & _ & _ & e0 & Ht0 & He0 & _).
  destruct (reap_finished_jobs os w) as [[] w1] eqn:Hr. cbn [snd] in Ht0.
  rewrite (execute_cases os l w w1 Hr).
  assert (∀ w', grows setup_event w1 w' → grows no_truncate w1 w' →
            ∃ evs, w_trace w' = w_trace w ++ evs ∧
                   Forall no_child evs ∧ Forall no_truncate evs) as Hdone.
  { intros w' [_ (e1 & Ht1 & He1)] [_ (e2 & Ht2 & He2)].
    assert (e2 = e1) as -> by (rewrite Ht1 in Ht2; by apply app_inv_head in Ht2).
    exists (e0 ++ e1). split; [by rewrite Ht1, Ht0, app_assoc|].
    split; apply Forall_app; split; try done.
    - eapply Forall_impl; [exact He0|]. apply nohang_no_child.
    - eapply Forall_impl; [exact He1|]. apply setup_event_no_child.
    - eapply Forall_impl; [exact He0|]. apply nohang_no_truncate. }
  destruct (seq l) as [|argv [|argv' stages]] eqn:Hseq; [done| |].
  - destruct argv as [|a0 rest]; [done|].
    rewrite bool_decide_false by (intros ->; by apply (Hnot rest)).
    destruct (resolve_end_redirections_unreadable os l path w1 Hin Hfail) as [Hnone Hg].
    rewrite (single_stage_spec_stopped os l (a0 :: rest) w1 Hnone). cbn [fst snd].
    split; [done|]. apply Hdone; [apply resolve_end_redirections_setup_events|done].
  - assert (match argv with
            | [] | _ => execute_pipeline os l w1
            end = execute_pipeline os l w1) as -> by by destruct argv.
    destruct (pipeline_setup_unreadable os l path w1 Hin Hfail) as [Hnone Hg].
    rewrite (execute_pipeline_stopped os l w1 Hnone). cbn [fst snd].
    split; [done|]. apply Hdone; [apply pipeline_setup_setup_events|done].
Qed.

Lemma unreadable_input_starts_nothing_witness :
  fst (execute os_no_open (Some cmd_cat_wc) shell_start) = EXIT_FAILURE ∧
  ∃ evs,
    w_trace (snd (execute os_no_open (Some cmd_cat_wc) shell_start)) =
      w_trace shell_start ++ evs ∧
    Forall no_child evs ∧ Forall no_truncate evs.
Proof.
  assert (seq cmd_cat_wc ≠ []) as H0 by (simpl; congruence).
  assert (seq cmd_cat_wc ≠ [[]]) as H1 by (simpl; congruence).
  assert (∀ rest, seq cmd_cat_wc ≠ ["jobs" :: rest]) as H2 by (simpl; congruence).
  exact (unreadable_input_starts_nothing os_no_open cmd_cat_wc shell_start "in.txt"
           eq_refl (λ _, eq_refl) H0 H1 H2).
Defined.

(** X10.  When the output path of a command line cannot be opened,
    [execute] reports failure without having started anything: no [fork]
    was attempted and no blocking wait issued. *)
Theorem unwritable_output_starts_nothing (os : os_t) (l : cmdline_t) (w : world)
    (path : string) :
  l_out l = Some path → (∀ tr, os_open os tr path O_WRONLY_CREAT_TRUNC = false) →
  seq l ≠ [] → seq l ≠ [[]] → (∀ rest, seq l ≠ ["jobs" :: rest]) →
  fst (execute os (Some l) w) = EXIT_FAILURE ∧
  ∃ evs,
    w_trace (snd (execute os (Some l) w)) = w_trace w ++ evs ∧
    Forall no_child evs.
Proof.
  intros Hout Hfail Hne0 Hne1 Hnot.
  destruct (reap_finished_jobs_spec os w) as (_ & _ & _ & e0 & Ht0 & He0 & _).
  destruct (reap_finished_jobs os w) as [[] w1] eqn:Hr. cbn [snd] in Ht0.
  rewrite (execute_cases os l w w1 Hr).
  assert (∀ w', grows setup_event w1 w' →
            ∃ evs, w_trace w' = w_trace w ++ evs ∧ Forall no_child evs) as Hdone.
  { intros w' [_ (e1 & Ht1 & He1)].
    exists (e0 ++ e1). split; [by rewrite Ht1, Ht0, app_assoc|].
    apply Forall_app; split.
    - eapply Forall_impl; [exact He0|]. apply nohang_no_child.
    - eapply Forall_impl; [exact He1|]. apply setup_event_no_child. }
  destruct (seq l) as [|argv [|argv' stages]] eqn:Hseq; [done| |].
  - destruct argv as [|a0 rest]; [done|].
    rewrite bool_decide_false by (intros ->; by apply (Hnot rest)).
    pose proof (resolve_end_redirections_unwritable os l path w1 Hout Hfail) as Hnone.
    rewrite (single_stage_spec_stopped os l (a0 :: rest) w1 Hnone). cbn [fst snd].
    split; [done|]. apply Hdone, resolve_end_redirections_setup_events.
  - assert (match argv with
            | [] | _ => execute_pipeline os l w1
            end = execute_pipeline os l w1) as -> by by destruct argv.
    pose proof (pipeline_setup_unwritable os l path w1 Hout Hfail) as Hnone.
    rewrite (execute_pipeline_stopped os l w1 Hnone). cbn [fst snd].
    split; [done|]. apply Hdone, pipeline_setup_setup_events.
Qed.

Lemma unwritable_output_starts_nothing_witness :
  (∀ tr, os_open os_no_write tr "out.txt" O_WRONLY_CREAT_TRUNC = false) ∧
  EvOpen "out.txt" O_WRONLY_CREAT_TRUNC (-1)
    ∈ w_trace (snd (execute os_no_write (Some cmd_cat_wc) shell_start)) ∧
  fst (execute os_no_write (Some cmd_cat_wc) shell_start) = EXIT_FAILURE ∧
  ∃ evs,
    w_trace (snd (execute os_no_write (Some cmd_cat_wc) shell_start)) =
      w_trace shell_start ++ evs ∧
    Forall no_child evs.
Proof.
  assert (seq cmd_cat_wc ≠ []) as H0 by (simpl; congruence).
  assert (seq cmd_cat_wc ≠ [[]]) as H1 by (simpl; congruence).
  assert (∀ rest, seq cmd_cat_wc ≠ ["jobs" :: rest]) as H2 by (simpl; congruence).
  split; [intros tr; reflexivity|]. split.
  { assert (w_trace (snd (execute os_no_write (Some cmd_cat_wc) shell_start)) =
            [EvMalloc true; EvPipe (Some (3, 4)); EvOpen "in.txt" O_RDONLY 5;
             EvOpen "out.txt" O_WRONLY_CREAT_TRUNC (-1); EvPerror "out.txt";
             EvClose 5; EvClose 3; EvClose 4]) as -> by (vm_compute; reflexivity).
    do 3 (apply elem_of_cons; right). apply elem_of_cons. by left. }
  exact (unwritable_output_starts_nothing os_no_write cmd_cat_wc shell_start "out.txt"
           eq_refl (λ _, eq_refl) H0 H1 H2).
Defined.

(** ** The descriptors a child program starts with *)

Lemma close_all_lookup fds m x :
  close_all fds m !! x = if decide (x ∈ fds) then None else m !! x.
Proof.
  unfold close_all. revert m. induction fds as [|fd fds IH]; intros m; cbn [foldl].
  { rewrite decide_False; [done|]. by intros ?%elem_of_nil. }
  rewrite IH. destruct (decide (x ∈ fds)) as [Hin|Hnin].
  - rewrite decide_True; [done|]. by right.
  - destruct (decide (x = fd)) as [->|Hne].
    + rewrite decide_True by by left. apply lookup_delete_eq.
    + rewrite decide_False by (intros [?|?]%elem_of_cons; done).
      by apply lookup_delete_ne.
Qed.

Lemma run_child_close_pipes m pipes script :
  run_child m (child_close_pipes pipes ++ script) =
  run_child (close_all (pipe_ends pipes) m) script.
Proof.
  unfold child_close_pipes, pipe_ends, close_all. revert m.
  induction pipes as [|p pipes IH]; intros m; [done|]. simpl. apply IH.
Qed.

Lemma run_child_dup2 m oldfd newfd file script :
  m !! oldfd = Some file →
  run_child m (CDup2 oldfd newfd :: script) = run_child (<[newfd := file]> m) script.
Proof. intros H. cbn [run_child]. by rewrite H. Qed.

Ltac map_lookup :=
  repeat first
    [ rewrite lookup_insert_eq
    | rewrite lookup_delete_eq
    | rewrite lookup_insert_ne by congruence
    | rewrite lookup_delete_ne by congruence ].

(** The table the program of a single command starts with, descriptor by
    descriptor. *)
Lemma command_child_table (cmd : string) (args : list string) (in_ out : Z)
    (m : gmap Z Z) (fin fout : Z) :
  m !! in_ = Some fin → m !! out = Some fout →
  in_ ≠ STDOUT_FILENO → out ≠ STDIN_FILENO → in_ ≠ out →
  ∃ m',
    run_child m (command_child cmd args in_ out) = Some (m', cmd, args) ∧
    ∀ fd, m' !! fd =
      if decide (fd = STDIN_FILENO) then Some fin
      else if decide (fd = STDOUT_FILENO) then Some fout
      else if decide (fd = in_ ∨ fd = out) then None
      else m !! fd.
Proof.
  unfold command_child, STDIN_FILENO, STDOUT_FILENO. intros Hin Hout Hi1 Ho0 Hio.
  destruct (decide (in_ ≠ 0)) as [Hi0|Hi0], (decide (out ≠ 1)) as [Ho1|Ho1];
    cbn [app run_child].
  - rewrite Hin. rewrite lookup_delete_ne, lookup_insert_ne, Hout by done.
    eexists. split; [done|]. intros fd.
    destruct (decide (fd = 0)) as [->|Hf0]; [by map_lookup|].
    destruct (decide (fd = 1)) as [->|Hf1]; [by map_lookup|].
    destruct (decide (fd = in_ ∨ fd = out)) as [[-> | ->]|Hn]; [by map_lookup..|].
    assert (fd ≠ in_ ∧ fd ≠ out) as [? ?] by (split; intros ->; apply Hn; auto).
    by map_lookup.
  - apply dec_stable in Ho1 as ->. rewrite Hin.
    eexists. split; [done|]. intros fd.
    destruct (decide (fd = 0)) as [->|Hf0]; [by map_lookup|].
    destruct (decide (fd = 1)) as [->|Hf1]; [by map_lookup|].
    destruct (decide (fd = in_ ∨ fd = 1)) as [[-> | ->]|Hn]; [by map_lookup..|].
    assert (fd ≠ in_) by (intros ->; apply Hn; auto).
    by map_lookup.
  - apply dec_stable in Hi0 as ->. rewrite Hout.
    eexists. split; [done|]. intros fd.
    destruct (decide (fd = 0)) as [->|Hf0]; [by map_lookup|].
    destruct (decide (fd = 1)) as [->|Hf1]; [by map_lookup|].
    destruct (decide (fd = 0 ∨ fd = out)) as [[-> | ->]|Hn]; [by map_lookup..|].
    assert (fd ≠ out) by (intros ->; apply Hn; auto).
    by map_lookup.
  - apply dec_stable in Hi0 as ->. apply dec_stable in Ho1 as ->.
    eexists. split; [done|]. intros fd.
    destruct (decide (fd = 0)) as [->|Hf0]; [done|].
    destruct (decide (fd = 1)) as [->|Hf1]; [done|].
    destruct (decide (fd = 0 ∨ fd = 1)) as [[-> | ->]|Hn]; done.
Qed.

(** X11.  The child of [execute_command] starts its program with the
    descriptors wired as requested: for every inherited table in which
    [in] and [out] are open, provided [in] is not descriptor 1, [out] is
    not descriptor 0 and the two differ, no [dup2] fails, the child reaches
    [execvp(cmd, args)], descriptor 0 refers to the file of [in],
    descriptor 1 to the file of [out], [in] and [out] themselves are closed
    unless they are 0 or 1, and every other descriptor is as inherited. *)
Theorem command_child_wiring (cmd : string) (args : list string) (in_ out : Z)
    (m : gmap Z Z) (fin fout : Z) :
  m !! in_ = Some fin → m !! out = Some fout →
  in_ ≠ STDOUT_FILENO → out ≠ STDIN_FILENO → in_ ≠ out →
  ∃ m',
    run_child m (command_child cmd args in_ out) = Some (m', cmd, args) ∧
    m' !! STDIN_FILENO = Some fin ∧
    m' !! STDOUT_FILENO = Some fout ∧
    ∀ fd, fd ≠ STDIN_FILENO → fd ≠ STDOUT_FILENO →
      m' !! fd = if decide (fd = in_ ∨ fd = out) then None else m !! fd.
Proof.
  intros Hin Hout Hi1 Ho0 Hio.
  destruct (command_child_table cmd args in_ out m fin fout) as (m' & Hrun & Htab);
    try done.
  exists m'. split; [exact Hrun|]. split; [by rewrite Htab, decide_True|].
  split; [rewrite Htab, decide_False, decide_True; done|].
  intros fd Hf0 Hf1. rewrite Htab. rewrite decide_False by done. by rewrite decide_False.
Qed.

Lemma command_child_wiring_witness :
  ∃ m',
    run_child {[0 := 0; 1 := 1; 2 := 2; 3 := 3]} (command_child "cat" ["cat"] 3 1) =
      Some (m', "cat", ["cat"]) ∧
    m' !! 0 = Some 3 ∧ m' !! 1 = Some 1.
Proof.
  destruct (command_child_wiring "cat" ["cat"] 3 1 {[0 := 0; 1 := 1; 2 := 2; 3 := 3]} 3 1)
    as (m' & Hrun & H0 & H1 & _);
    [vm_compute; reflexivity|vm_compute; reflexivity|
     unfold STDOUT_FILENO; lia|unfold STDIN_FILENO; lia|lia|].
  exists m'. split; [exact Hrun|]. split; [exact H0|exact H1].
Defined.

Lemma pipe_at_ends pipes k :
  (k < length pipes)%nat →
  fst (pipe_at pipes k) ∈ pipe_ends pipes ∧ snd (pipe_at pipes k) ∈ pipe_ends pipes.
Proof.
  intros Hk. unfold pipe_at, pipe_ends.
  destruct (lookup_lt_is_Some_2 pipes k Hk) as [p Hp]. rewrite Hp. simpl.
  apply list_elem_of_lookup_2 in Hp.
  split; apply list_elem_of_In, in_flat_map; exists p.
  all: split; [by apply list_elem_of_In|simpl; auto].
Qed.

(** The table a stage's program starts with, descriptor by descriptor. *)
Lemma stage_child_table (l : cmdline_t) (ncmds i : nat) (pipes : list (Z * Z))
    (in_fd_first out_fd_last : Z) (argv0 : string) (argv : list string)
    (m : gmap Z Z) (fin fout : Z) :
  (i < ncmds)%nat → length pipes = (ncmds - 1)%nat →
  STDIN_FILENO ∉ pipe_ends pipes → STDOUT_FILENO ∉ pipe_ends pipes →
  in_fd_first ≠ STDOUT_FILENO → out_fd_last ≠ STDIN_FILENO →
  m !! stage_in pipes i in_fd_first = Some fin →
  m !! stage_out pipes ncmds i out_fd_last = Some fout →
  ∃ m',
    run_child m (stage_child l ncmds i pipes in_fd_first out_fd_last argv0 argv) =
      Some (m', argv0, argv) ∧
    ∀ fd, m' !! fd =
      if decide (fd = STDIN_FILENO) then Some fin
      else if decide (fd = STDOUT_FILENO) then Some fout
      else if decide (fd ∈ pipe_ends pipes) then None
      else if decide (is_Some (l_in l) ∧ in_fd_first ≠ STDIN_FILENO ∧ fd = in_fd_first)
      then None
      else if decide (is_Some (l_out l) ∧ out_fd_last ≠ STDOUT_FILENO ∧ fd = out_fd_last)
      then None
      else m !! fd.
Proof.
  intros Hi Hlen Hp0 Hp1 Hin1 Hout0 Hin Hout.
  unfold stage_child. fold (stage_in pipes i in_fd_first).
  fold (stage_out pipes ncmds i out_fd_last).
  set (in_fd := stage_in pipes i in_fd_first) in *.
  set (out_fd := stage_out pipes ncmds i out_fd_last) in *.
  cbv zeta.
  (* where the two descriptors of the stage can lie *)
  assert (Hin_where : in_fd = in_fd_first ∨ in_fd ∈ pipe_ends pipes).
  { unfold in_fd, stage_in. destruct (decide (i = 0%nat)); [by left|right].
    apply pipe_at_ends. lia. }
  assert (Hout_where : out_fd = out_fd_last ∨ out_fd ∈ pipe_ends pipes).
  { unfold out_fd, stage_out. destruct (decide (i = (ncmds - 1)%nat)); [by left|right].
    apply pipe_at_ends. lia. }
  assert (Hout_ne0 : out_fd ≠ STDIN_FILENO).
  { destruct Hout_where as [->|Hw]; [done|]. by intros ->. }
  assert (Hin_closed : in_fd_first ≠ STDIN_FILENO → in_fd ≠ STDIN_FILENO).
  { intros Hne. destruct Hin_where as [->|Hw]; [done|]. by intros ->. }
  assert (Hout_closed : out_fd_last ≠ STDOUT_FILENO → out_fd ≠ STDOUT_FILENO).
  { intros Hne. destruct Hout_where as [->|Hw]; [done|]. by intros ->. }
  clearbody in_fd out_fd. clear Hin_where Hout_where.
  (* wiring of standard input *)
  assert (∃ m1, (∀ k, run_child m ((if decide (in_fd ≠ STDIN_FILENO)
                                     then [CDup2 in_fd STDIN_FILENO] else []) ++ k) =
                      run_child m1 k) ∧
                m1 !! STDIN_FILENO = Some fin ∧
                ∀ fd, fd ≠ STDIN_FILENO → m1 !! fd = m !! fd) as (m1 & Hrun1 & H10 & H1).
  { destruct (decide (in_fd ≠ STDIN_FILENO)) as [Hne|Heq].
    - exists (<[STDIN_FILENO := fin]> m). split; [|split].
      + intros k. cbn [app run_child]. by rewrite Hin.
      + apply lookup_insert_eq.
      + intros fd Hfd. by apply lookup_insert_ne.
    - apply dec_stable in Heq. rewrite Heq in Hin. by exists m. }
  (* wiring of standard output *)
  assert (∃ m2, (∀ k, run_child m1 ((if decide (out_fd ≠ STDOUT_FILENO)
                                      then [CDup2 out_fd STDOUT_FILENO] else []) ++ k) =
                      run_child m2 k) ∧
                m2 !! STDIN_FILENO = Some fin ∧
                m2 !! STDOUT_FILENO = Some fout ∧
                ∀ fd, fd ≠ STDIN_FILENO → fd ≠ STDOUT_FILENO → m2 !! fd = m !! fd)
    as (m2 & Hrun2 & H20 & H21 & H2).
  { destruct (decide (out_fd ≠ STDOUT_FILENO)) as [Hne|Heq].
    - exists (<[STDOUT_FILENO := fout]> m1). split; [|split; [|split]].
      + intros k. cbn [app run_child]. by rewrite (H1 out_fd Hout_ne0), Hout.
      + by rewrite lookup_insert_ne.
      + apply lookup_insert_eq.
      + intros fd Hf0 Hf1. rewrite lookup_insert_ne by done. by apply H1.
    - apply dec_stable in Heq. rewrite Heq in Hout. exists m1.
      split; [done|]. split; [done|]. split; [by rewrite H1|].
      intros fd Hf0 Hf1. by apply H1. }
  (* the closes *)
  set (m3 := close_all (pipe_ends pipes) m2).
  set (c_in := is_Some (l_in l) ∧ in_fd_first ≠ STDIN_FILENO ∧ in_fd ≠ STDIN_FILENO).
  set (c_out := is_Some (l_out l) ∧ out_fd_last ≠ STDOUT_FILENO ∧ out_fd ≠ STDOUT_FILENO).
  set (m4 := if decide c_in then delete in_fd_first m3 else m3).
  set (m5 := if decide c_out then delete out_fd_last m4 else m4).
  assert (Hrun : run_child m
            ((if decide (in_fd ≠ STDIN_FILENO) then [CDup2 in_fd STDIN_FILENO] else []) ++
             (if decide (out_fd ≠ STDOUT_FILENO) then [CDup2 out_fd STDOUT_FILENO] else []) ++
             child_close_pipes pipes ++
             (if decide c_in then [CClose in_fd_first] else []) ++
             (if decide c_out then [CClose out_fd_last] else []) ++
             [CExecvp argv0 argv]) = Some (m5, argv0, argv)).
  { rewrite Hrun1, Hrun2, run_child_close_pipes. fold m3. unfold m5, m4.
    by destruct (decide c_in), (decide c_out). }
  assert (H3 : ∀ fd, m3 !! fd = if decide (fd ∈ pipe_ends pipes) then None else m2 !! fd).
  { intros fd. apply close_all_lookup. }
  assert (H4 : ∀ fd, m4 !! fd = if decide (c_in ∧ fd = in_fd_first) then None else m3 !! fd).
  { intros fd. unfold m4. destruct (decide c_in) as [Hc|Hc].
    - destruct (decide (fd = in_fd_first)) as [->|Hne].
      + rewrite decide_True by done. apply lookup_delete_eq.
      + rewrite decide_False by (by intros [_ ?]). by apply lookup_delete_ne.
    - rewrite decide_False; [done|]. by intros [? _]. }
  assert (H5 : ∀ fd, m5 !! fd = if decide (c_out ∧ fd = out_fd_last) then None else m4 !! fd).
  { intros fd. unfold m5. destruct (decide c_out) as [Hc|Hc].
    - destruct (decide (fd = out_fd_last)) as [->|Hne].
      + rewrite decide_True by done. apply lookup_delete_eq.
      + rewrite decide_False by (by intros [_ ?]). by apply lookup_delete_ne.
    - rewrite decide_False; [done|]. by intros [? _]. }
  exists m5. split; [exact Hrun|]. clear Hrun Hrun1 Hrun2.
  intros fd. rewrite H5, H4, H3.
  destruct (decide (fd = STDIN_FILENO)) as [->|Hf0].
  { rewrite decide_False by (intros [(_ & _ & _) Heq]; done).
    rewrite decide_False by (intros [(_ & Hne & _) Heq]; done).
    by rewrite decide_False. }
  destruct (decide (fd = STDOUT_FILENO)) as [->|Hf1].
  { rewrite decide_False by (intros [(_ & Hne & _) Heq]; done).
    rewrite decide_False by (intros [(_ & _ & _) Heq]; done).
    by rewrite decide_False. }
  destruct (decide (fd ∈ pipe_ends pipes)) as [Hpe|Hpe].
  { by destruct (decide (c_out ∧ fd = out_fd_last)), (decide (c_in ∧ fd = in_fd_first)). }
  destruct (decide (is_Some (l_in l) ∧ in_fd_first ≠ STDIN_FILENO ∧ fd = in_fd_first))
    as [(Hs & Hne & ->)|Hci].
  { destruct (decide (c_out ∧ in_fd_first = out_fd_last)); [done|].
    rewrite decide_True; [done|]. split; [|done]. split; [done|]. split; [done|auto]. }
  rewrite (decide_False (P := c_in ∧ fd = in_fd_first))
    by (intros [(Hs & Hne & _) Heq]; by apply Hci).
  destruct (decide (is_Some (l_out l) ∧ out_fd_last ≠ STDOUT_FILENO ∧ fd = out_fd_last))
    as [(Hs & Hne & ->)|Hco].
  { rewrite decide_True; [done|]. split; [|done]. split; [done|]. split; [done|auto]. }
  rewrite (decide_False (P := c_out ∧ fd = out_fd_last))
    by (intros [(Hs & Hne & _) Heq]; by apply Hco).
  by apply H2.
Qed.

(** X12.  The child of stage [i] of a pipeline starts its program wired to
    its neighbours.  Provided no pipe end is descriptor 0 or 1, the input
    redirection is not descriptor 1 and the output redirection is not
    descriptor 0, then for every inherited table in which the stage's input
    and output descriptors are open: no [dup2] fails, the child reaches
    [execvp(argv[0], argv)], descriptor 0 refers to the file of the
    stage's input (the input redirection for stage 0, the read end of pipe
    [i-1] otherwise), descriptor 1 to the file of the stage's output (the
    output redirection for the last stage, the write end of pipe [i]
    otherwise), both ends of every pipe are closed, so are the descriptors
    of the redirections, and every other descriptor is as inherited. *)
Theorem stage_child_wiring (l : cmdline_t) (ncmds i : nat) (pipes : list (Z * Z))
    (in_fd_first out_fd_last : Z) (argv0 : string) (argv : list string)
    (m : gmap Z Z) (fin fout : Z) :
  (i < ncmds)%nat → length pipes = (ncmds - 1)%nat →
  STDIN_FILENO ∉ pipe_ends pipes → STDOUT_FILENO ∉ pipe_ends pipes →
  in_fd_first ≠ STDOUT_FILENO → out_fd_last ≠ STDIN_FILENO →
  m !! stage_in pipes i in_fd_first = Some fin →
  m !! stage_out pipes ncmds i out_fd_last = Some fout →
  ∃ m',
    run_child m (stage_child l ncmds i pipes in_fd_first out_fd_last argv0 argv) =
      Some (m', argv0, argv) ∧
    m' !! STDIN_FILENO = Some fin ∧
    m' !! STDOUT_FILENO = Some fout ∧
    (∀ fd, fd ∈ pipe_ends pipes → m' !! fd = None) ∧
    (is_Some (l_in l) → in_fd_first ≠ STDIN_FILENO → m' !! in_fd_first = None) ∧
    (is_Some (l_out l) → out_fd_last ≠ STDOUT_FILENO → m' !! out_fd_last = None) ∧
    (∀ fd, fd ≠ STDIN_FILENO → fd ≠ STDOUT_FILENO → fd ∉ pipe_ends pipes →
       fd ≠ in_fd_first → fd ≠ out_fd_last → m' !! fd = m !! fd).
Proof.
  intros Hi Hlen Hp0 Hp1 Hin1 Hout0 Hin Hout.
  destruct (stage_child_table l ncmds i pipes in_fd_first out_fd_last argv0 argv m fin fout)
    as (m' & Hrun & Htab); try done.
  exists m'. split; [exact Hrun|]. split; [|split; [|split; [|split; [|split]]]].
  - by rewrite Htab, decide_True.
  - rewrite Htab, decide_False, decide_True; done.
  - intros fd Hfd. rewrite Htab.
    rewrite decide_False by (by intros ->). rewrite decide_False by (by intros ->).
    by rewrite decide_True.
  - intros Hs Hne. rewrite Htab. rewrite decide_False by done.
    rewrite decide_False by done. destruct (decide (in_fd_first ∈ pipe_ends pipes)); [done|].
    by rewrite decide_True.
  - intros Hs Hne. rewrite Htab. rewrite decide_False by done.
    rewrite decide_False by done. destruct (decide (out_fd_last ∈ pipe_ends pipes)); [done|].
    destruct (decide (is_Some (l_in l) ∧ in_fd_first ≠ STDIN_FILENO ∧
                      out_fd_last = in_fd_first)); [done|].
    by rewrite decide_True.
  - intros fd Hf0 Hf1 Hfp Hfi Hfo. rewrite Htab.
    rewrite !decide_False; try done; by intros (_ & _ & ?).
Qed.

Lemma stage_child_wiring_witness :
  ∃ m',
    run_child {[0 := 0; 1 := 1; 2 := 2; 3 := 3; 4 := 4; 5 := 5; 6 := 6]}
      (stage_child cmd_cat_wc 2 1 [(3, 4)] 0 6 "wc" ["wc"]) = Some (m', "wc", ["wc"]) ∧
    m' !! 0 = Some 3 ∧ m' !! 1 = Some 6 ∧ m' !! 3 = None ∧ m' !! 4 = None.
Proof.
  destruct (stage_child_wiring cmd_cat_wc 2 1 [(3, 4)] 0 6 "wc" ["wc"]
              {[0 := 0; 1 := 1; 2 := 2; 3 := 3; 4 := 4; 5 := 5; 6 := 6]} 3 6)
    as (m' & Hrun & H0 & H1 & Hp & _).
  - lia.
  - reflexivity.
  - vm_compute. intros H. repeat (apply elem_of_cons in H as [H|H]; [lia|]).
    by apply elem_of_nil in H.
  - vm_compute. intros H. repeat (apply elem_of_cons in H as [H|H]; [lia|]).
    by apply elem_of_nil in H.
  - unfold STDOUT_FILENO. lia.
  - unfold STDIN_FILENO. lia.
  - vm_compute. reflexivity.
  - vm_compute. reflexivity.
  - exists m'. split; [exact Hrun|]. split; [exact H0|]. split; [exact H1|].
    split; apply Hp; simpl; [left|right; left].
Defined.

(** ** A full job table *)



(** ** Why [execute] fails *)

#[global] Hint Extern 0 (call_ok _) => exact (λ x, x) : frame.

Lemma fails_after P w1 w2 w3 : grows P w1 w2 → fails_in w2 w3 → fails_in w1 w3.
Proof.
  intros [_ (e1 & Ht1 & _)] (e2 & Ht2 & Hf). exists (e1 ++ e2).
  split; [by rewrite Ht2, Ht1, app_assoc|]. apply Exists_app. by right.
Qed.

Lemma fails_before P w1 w2 w3 : fails_in w1 w2 → grows P w2 w3 → fails_in w1 w3.
Proof.
  intros (e1 & Ht1 & Hf) [_ (e2 & Ht2 & _)]. exists (e1 ++ e2).
  split; [by rewrite Ht2, Ht1, app_assoc|]. apply Exists_app. by left.
Qed.

Lemma sys_open_verdict os path mode w :
  if fst (sys_open os path mode w) <? 0
  then fails_in w (snd (sys_open os path mode w))
  else grows call_ok w (snd (sys_open os path mode w)).
Proof.
  unfold sys_open. destruct (os_open os (w_trace w) path mode); cbn [fst snd].
  - pose proof (lowest_free_nonneg (w_fds w)) as Hpos.
    destruct (lowest_free (w_fds w) <? 0) eqn:Hneg; [lia|].
    split; [done|]. eexists [_]. split; [done|]. repeat constructor.
    unfold call_ok. simpl. lia.
  - change (-1 <? 0) with true. cbv iota. eexists [_]. split; [done|].
    apply Exists_cons_hd. simpl. lia.
Qed.

Lemma sys_pipe_verdict os w :
  outcome_ok (fst (sys_pipe os w)) w (snd (sys_pipe os w)).
Proof.
  unfold sys_pipe. destruct (os_pipe os (w_trace w)); cbn [fst snd outcome_ok].
  - split; [done|]. eexists [_]. split; [done|]. repeat constructor. by intros [].
  - eexists [_]. split; [done|]. by apply Exists_cons_hd.
Qed.

Lemma sys_malloc_verdict os w :
  outcome_ok (fst (sys_malloc os w)) w (snd (sys_malloc os w)).
Proof.
  unfold sys_malloc. cbn [fst snd].
  destruct (os_malloc os (w_trace w)) as [g|]; cbn [outcome_ok].
  - split; [done|]. eexists [_]. split; [done|]. repeat constructor. by intros [].
  - eexists [_]. split; [done|]. by apply Exists_cons_hd.
Qed.

Lemma create_pipes_verdict os n acc w :
  outcome_ok (fst (create_pipes os n acc w)) w (snd (create_pipes os n acc w)).
Proof.
  revert acc w. induction n as [|n IH]; intros acc w; [simpl; reflexivity|].
  cbn [create_pipes]. unfold bind.
  pose proof (sys_pipe_verdict os w) as Hp.
  destruct (sys_pipe os w) as [[p|] w1]; cbn [fst snd outcome_ok] in Hp.
  - specialize (IH (acc ++ [p]) w1).
    destruct (create_pipes os n (acc ++ [p]) w1) as [[pipes|] w2];
      cbn [fst snd outcome_ok] in *.
    + by etrans.
    + by eapply fails_after.
  - assert (does (grows any_event)
              (perror "pipe" ;;; close_pipes acc ;;; ret (@None (list (Z * Z))))) as Hc
      by frame.
    specialize (Hc w1). unfold bind in Hc.
    destruct (perror "pipe" w1) as [[] w2]. destruct (close_pipes acc w2) as [[] w3].
    cbn [fst snd outcome_ok ret] in *. by eapply fails_before.
Qed.

Section Checked.
Context {A B : Type}.

Lemma checked_ret (a : A) : checked (ret (Some a)).
Proof. intros w. simpl. reflexivity. Qed.

Lemma aborts_ret : aborts (ret (@None A)).
Proof. split; [frame|done]. Qed.

Lemma aborts_seq (m : M unit) (c : M (option A)) :
  does (grows any_event) m → aborts c → aborts (m ;;; c).
Proof.
  intros Hm [Hc Hn]. split; [frame|].
  intros w. unfold bind. destruct (m w) as [[] w1]. apply Hn.
Qed.

Lemma checked_bind_opt (m : M (option A)) (k : A → M (option B)) (kfail : M (option B)) :
  checked m → (∀ a, checked (k a)) → aborts kfail →
  checked (r <~ m ;; match r with Some a => k a | None => kfail end).
Proof.
  intros Hm Hk [Hc Hn] w. unfold bind. specialize (Hm w).
  destruct (m w) as [[a|] w1]; cbn [fst snd outcome_ok] in Hm.
  - specialize (Hk a w1). destruct (k a w1) as [[b|] w2]; cbn [fst snd outcome_ok] in *.
    + by etrans.
    + by eapply fails_after.
  - rewrite Hn. cbn [outcome_ok]. eapply fails_before; [exact Hm|apply Hc].
Qed.

Lemma checked_bind_fd (m : M Z) (k : Z → M (option B)) (kfail : M (option B)) :
  checked_fd m → (∀ fd, checked (k fd)) → aborts kfail →
  checked (fd <~ m ;; if fd <? 0 then kfail else k fd).
Proof.
  intros Hm Hk [Hc Hn] w. unfold bind. specialize (Hm w).
  destruct (m w) as [fd w1]; cbn [fst snd] in Hm. destruct (fd <? 0).
  - rewrite Hn. cbn [outcome_ok]. eapply fails_before; [exact Hm|apply Hc].
  - specialize (Hk fd w1). destruct (k fd w1) as [[b|] w2]; cbn [fst snd outcome_ok] in *.
    + by etrans.
    + by eapply fails_after.
Qed.

End Checked.

Lemma checked_fd_redirection os (path : option string) mode dflt :
  0 ≤ dflt →
  checked_fd (match path with
              | Some p => sys_open os p mode
              | None => ret dflt
              end).
Proof.
  intros Hd. destruct path as [p|]; intros w; [apply sys_open_verdict|].
  simpl. destruct (dflt <? 0) eqn:Hneg; [lia|reflexivity].
Qed.

Lemma checked_create_pipes os n acc : checked (create_pipes os n acc).
Proof. intros w. apply create_pipes_verdict. Qed.

Lemma checked_malloc os : checked (sys_malloc os).
Proof. intros w. apply sys_malloc_verdict. Qed.

Ltac aborting :=
  repeat first [apply aborts_ret | apply aborts_seq; [solve [frame]|]].

Lemma pipeline_setup_checked os l : checked (pipeline_setup os l).
Proof.
  unfold pipeline_setup. cbv zeta.
  apply (checked_bind_opt _ (λ _, _)); [|intros _|aborting].
  { destruct (bool_decide _); [apply checked_malloc|apply checked_ret]. }
  apply (checked_bind_opt _ (λ pipes, _)); [apply checked_create_pipes|intros pipes|aborting].
  apply (checked_bind_fd _ (λ in_fd_first, _));
    [by apply checked_fd_redirection|intros in_fd|aborting].
  apply (checked_bind_fd _ (λ out_fd_last, _));
    [by apply checked_fd_redirection|intros out_fd|aborting].
  apply (checked_bind_opt _ (λ garbage, _)); [apply checked_malloc|intros g|aborting].
  apply checked_ret.
Qed.

Lemma resolve_end_redirections_checked os l : checked (resolve_end_redirections os l).
Proof.
  unfold resolve_end_redirections, and_then.
  apply (checked_bind_opt _ (λ in_fd, _)); [|intros in_fd|aborting].
  - destruct (l_in l) as [path|]; [|apply checked_ret].
    apply (checked_bind_fd _ (λ fd, ret (Some fd))); [|intros fd; apply checked_ret|aborting].
    intros w. apply sys_open_verdict.
  - destruct (l_out l) as [path|]; [|apply checked_ret].
    apply (checked_bind_fd _ (λ fd, ret (Some (in_fd, fd))));
      [|intros fd; apply checked_ret|aborting].
    intros w. apply sys_open_verdict.
Qed.

Lemma verdict_ok cause w w' :
  grows call_ok w w' → ¬ cause → verdict cause EXIT_SUCCESS w w'.
Proof. intros [_ (evs & Ht & Hev)] Hc. exists evs. split; [done|]. by left. Qed.

Lemma verdict_failed cause w w' : fails_in w w' → verdict cause EXIT_FAILURE w w'.
Proof. intros (evs & Ht & Hev). exists evs. split; [done|]. right. by split; [|left]. Qed.

Lemma verdict_cause (cause : Prop) P w w' :
  grows P w w' → cause → verdict cause EXIT_FAILURE w w'.
Proof. intros [_ (evs & Ht & _)] Hc. exists evs. split; [done|]. right. by split; [|right]. Qed.

Lemma verdict_after cause rv w0 w w' :
  grows call_ok w0 w → verdict cause rv w w' → verdict cause rv w0 w'.
Proof.
  intros [_ (e0 & Ht0 & He0)] (evs & Ht & Hv). exists (e0 ++ evs).
  split; [by rewrite Ht, Ht0, app_assoc|].
  destruct Hv as [(-> & Hev & Hc)|(-> & [Hev|Hc])].
  - left. split; [done|]. split; [by apply Forall_app|done].
  - right. split; [done|]. left. apply Exists_app. by right.
  - right. split; [done|]. by right.
Qed.

Lemma verdict_iff (c1 c2 : Prop) rv w w' : (c1 ↔ c2) → verdict c1 rv w w' → verdict c2 rv w w'.
Proof.
  intros Hc (evs & Ht & Hv). exists evs. split; [done|].
  destruct Hv as [(-> & Hev & Hn)|(-> & [Hev|Hn])].
  - left. split; [done|]. split; [done|]. by rewrite <-Hc.
  - right. split; [done|]. by left.
  - right. split; [done|]. right. by apply Hc.
Qed.

Lemma spawn_loop_verdict os l ncmds pipes out stages :
  ∀ i in_fd pids w,
    match fst (fst (fst (spawn_loop os l ncmds pipes out stages i in_fd pids w))) with
    | LoopDone =>
        grows call_ok w (snd (spawn_loop os l ncmds pipes out stages i in_fd pids w)) ∧
        [] ∉ stages
    | LoopFail =>
        fails_in w (snd (spawn_loop os l ncmds pipes out stages i in_fd pids w)) ∨
        [] ∈ stages
    end.
Proof.
  induction stages as [|argv stages IH]; intros i in_fd pids w.
  { simpl. split; [reflexivity|]. by intros ?%elem_of_nil. }
  destruct argv as [|a0 args].
  { rewrite spawn_loop_empty_stage. cbn [fst snd]. right. by left. }
  destruct (os_fork os (w_trace w)) as [p|] eqn:Hf.
  2:{ rewrite spawn_loop_fork_fails by done. cbn [fst snd]. left.
      eexists [_; _]. split; [done|]. apply Exists_cons_hd. simpl. lia. }
  rewrite (spawn_loop_fork_ok _ _ _ _ _ _ _ _ _ _ _ _ p) by done.
  match goal with |- context [spawn_loop _ _ _ _ _ _ _ ?in1 ?pids1 ?w1] =>
    specialize (IH (S i) in1 pids1 w1);
    assert (Hstep : grows call_ok w w1);
    [|destruct (spawn_loop os l ncmds pipes out stages (S i) in1 pids1 w1)
        as [[[[] in'] pids'] w2]; cbn [fst snd] in *]
  end.
  - split; [done|]. eexists (_ :: _). split; [done|]. constructor.
    + unfold call_ok. simpl. lia.
    + apply Forall_fmap, Forall_forall. intros fd _. by intros [].
  - destruct IH as [Hg Hne]. split; [by etrans|].
    intros [?|?]%elem_of_cons; done.
  - destruct IH as [Hfail|Hem]; [left; by eapply fails_after|right; by right].
Qed.

Lemma pipeline_finish_calls os l pipes out r :
  does (grows call_ok) (pipeline_finish os l pipes out r).
Proof. unfold pipeline_finish, pipe_fail. frame. Qed.

Lemma execute_pipeline_verdict os l w :
  verdict ([] ∈ seq l) (fst (execute_pipeline os l w)) w (snd (execute_pipeline os l w)).
Proof.
  rewrite execute_pipeline_phases. unfold bind.
  pose proof (pipeline_setup_checked os l w) as Hs.
  destruct (pipeline_setup os l w) as [[[[[pipes in_fd] out_fd] g]|] w1];
    cbn [fst snd outcome_ok] in Hs; [|by apply verdict_failed].
  apply (verdict_after _ _ w w1); [done|]. clear Hs w.
  unfold pipeline_run, bind.
  set (pids0 := g <$> List.seq 0 (length (seq l))).
  pose proof (spawn_loop_verdict os l (length (seq l)) pipes out_fd (seq l) 0%nat in_fd
                pids0 w1) as Hl.
  pose proof (spawn_loop_quiet os l (length (seq l)) pipes out_fd (seq l) 0%nat in_fd
                pids0 w1) as Hq.
  destruct (spawn_loop _ _ _ _ _ _ _ _ _ w1) as [[[ex in'] pids'] w2]. cbn [fst snd] in *.
  pose proof (pipeline_finish_calls os l pipes out_fd (ex, in', pids') w2) as Hfin.
  destruct (pipeline_finish os l pipes out_fd (ex, in', pids') w2) as [rv w3] eqn:Hrun.
  cbn [fst snd] in *. destruct ex.
  - apply pipeline_finish_done in Hrun as (-> & _). destruct Hl as [Hg Hne].
    apply verdict_ok; [by etrans|done].
  - apply pipeline_finish_fail in Hrun as (-> & _). destruct Hl as [Hfail|Hem].
    + apply verdict_failed. by eapply fails_before.
    + apply (verdict_cause _ any_event); [|done].
      etrans; [eapply grows_mono; [|exact Hq]; done|].
      eapply grows_mono; [|exact Hfin]. done.
Qed.

Lemma execute_command_verdict os c a0 rest in_ out bg w :
  verdict False (fst (execute_command os (Some c) (Some (a0 :: rest)) in_ out bg w)) w
    (snd (execute_command os (Some c) (Some (a0 :: rest)) in_ out bg w)).
Proof.
  destruct (execute_command_run os c a0 rest in_ out bg w) as [Hfail Hok].
  assert (Forall call_ok (close_unless STDIN_FILENO in_ ++ close_unless STDOUT_FILENO out))
    as Hcl.
  { apply Forall_app. unfold close_unless.
    split; destruct (decide _); repeat constructor; by intros []. }
  destruct (os_fork os (w_trace w)) as [p|].
  - rewrite (Hok p eq_refl). cbn [fst snd]. apply verdict_ok; [|tauto].
    match goal with |- context [sys_waitpid os _ false ?w0] =>
      assert (grows call_ok w w0) as Hstep end.
    { split; [done|]. eexists (_ :: _). split; [done|]. constructor; [|done].
      unfold call_ok. simpl. lia. }
    etrans; [exact Hstep|]. destruct (bg =? 0).
    + apply (grows_waitpid call_ok). by intros r [].
    + apply (add_job_grows call_ok). by intros s [].
  - rewrite (Hfail eq_refl). cbn [fst snd]. apply verdict_failed.
    eexists (_ :: _). split; [done|]. apply Exists_cons_hd. simpl. lia.
Qed.

Lemma single_stage_spec_verdict os l a0 rest w :
  verdict False (fst (single_stage_spec os l (a0 :: rest) w)) w
    (snd (single_stage_spec os l (a0 :: rest) w)).
Proof.
  unfold single_stage_spec, bind.
  pose proof (resolve_end_redirections_checked os l w) as Hs.
  destruct (resolve_end_redirections os l w) as [[[in_fd out_fd]|] w1];
    cbn [fst snd outcome_ok] in Hs; [|by apply verdict_failed].
  apply (verdict_after _ _ w w1); [done|]. apply execute_command_verdict.
Qed.

(** X14.  [execute] reports failure for a reason, and for every reason.
    It returns [EXIT_SUCCESS] or [EXIT_FAILURE]; and it returns
    [EXIT_FAILURE] exactly when one of the calls it made to [fork], [open],
    [pipe] or [malloc] failed, or the command line is a pipeline of two or
    more stages one of which has an empty argv.  (The results of [waitpid]
    and of [add_job] have no influence.) *)
Theorem execute_fails_exactly_for_a_cause (os : os_t) (l : cmdline_t) (w : world) :
  ∃ evs,
    w_trace (snd (execute os (Some l) w)) = w_trace w ++ evs ∧
    (fst (execute os (Some l) w) = EXIT_SUCCESS ∨
     fst (execute os (Some l) w) = EXIT_FAILURE) ∧
    (fst (execute os (Some l) w) = EXIT_FAILURE ↔
     Exists failed_call evs ∨ ((2 ≤ length (seq l))%nat ∧ [] ∈ seq l)).
Proof.
  assert (verdict ((2 ≤ length (seq l))%nat ∧ [] ∈ seq l)
            (fst (execute os (Some l) w)) w (snd (execute os (Some l) w))) as Hv.
  { pose proof (reap_grows call_ok os (λ _ _ H, H) w) as Hg0.
    destruct (reap_finished_jobs os w) as [[] w1] eqn:Hr. cbn [snd] in Hg0.
    rewrite (execute_cases os l w w1 Hr).
    destruct (seq l) as [|argv [|argv' stages]] eqn:Hseq.
    - apply verdict_ok; [done|]. simpl. lia.
    - destruct argv as [|a0 rest]; [apply verdict_ok; [done|simpl; lia]|].
      destruct (bool_decide (a0 = "jobs")).
      + pose proof (print_jobs_grows call_ok os (λ _ _ H, H) (λ _ H, H) w1) as Hg1.
        destruct (print_jobs os w1) as [[] w2]. cbn [fst snd] in *.
        apply verdict_ok; [by etrans|simpl; lia].
      + apply (verdict_after _ _ w w1); [done|].
        apply (verdict_iff False); [simpl; intuition lia|].
        apply single_stage_spec_verdict.
    - assert (match argv with
              | [] | _ => execute_pipeline os l w1
              end = execute_pipeline os l w1) as -> by by destruct argv.
      apply (verdict_after _ _ w w1); [done|].
      apply (verdict_iff ([] ∈ seq l)); [|apply execute_pipeline_verdict].
      rewrite Hseq. simpl. intuition lia. }
  destruct Hv as (evs & Ht & Hv). exists evs. split; [done|].
  destruct Hv as [(Hrv & Hev & Hc)|(Hrv & Hc)]; rewrite Hrv.
  - split; [by left|]. split; [done|].
    intros [Hex|Hcause]; [|done].
    apply Exists_exists in Hex as (e & Hin & Hfail).
    by apply (proj1 (Forall_forall _ _) Hev e Hin) in Hfail.
  - split; [by right|]. done.
Qed.

(** ** The pipeline, stage by stage *)

Lemma fds_after_app F e1 e2 : fds_after F (e1 ++ e2) = fds_after (fds_after F e1) e2.
Proof. apply foldl_app. Qed.

Lemma fds_after_closes F cl : fds_after F (EvClose <$> cl) = F ∖ list_to_set cl.
Proof.
  revert F. induction cl as [|fd cl IH]; intros F; simpl.
  - set_solver.
  - unfold fds_after in *. rewrite IH. set_solver.
Qed.

Lemma fds_after_nohang F evs : Forall is_nohang_wait evs → fds_after F evs = F.
Proof. induction 1 as [|e evs He _ IH]; [done|]. by destruct e. Qed.

Lemma pipes_created_app e1 e2 :
  pipes_created (e1 ++ e2) = pipes_created e1 ++ pipes_created e2.
Proof. apply omap_app. Qed.

Lemma inherit_lookup (fds : gset Z) fd :
  inherit fds !! fd = if decide (fd ∈ fds) then Some fd else None.
Proof.
  unfold inherit. destruct (decide (fd ∈ fds)) as [Hin|Hnin].
  - apply lookup_set_to_map; [by intros ?? _ _ [= ->]|]. by exists fd.
  - apply eq_None_not_Some. intros [x Hx].
    apply lookup_set_to_map in Hx as (y & Hy & [= -> ->]); [done|].
    by intros ?? _ _ [= ->].
Qed.

Lemma pipe_ends_app p1 p2 : pipe_ends (p1 ++ p2) = pipe_ends p1 ++ pipe_ends p2.
Proof. unfold pipe_ends. apply flat_map_app. Qed.

Lemma pipe_ends_lookup pipes k :
  (k < length pipes)%nat →
  pipe_ends pipes !! (2 * k)%nat = Some (fst (pipe_at pipes k)) ∧
  pipe_ends pipes !! (2 * k + 1)%nat = Some (snd (pipe_at pipes k)).
Proof.
  revert k. induction pipes as [|p pipes IH]; intros k Hk; [simpl in Hk; lia|].
  destruct k as [|k]; [done|].
  simpl in Hk. destruct (IH k) as [H1 H2]; [lia|].
  unfold pipe_at in *. cbn [lookup list_lookup pipe_ends flat_map app] in *.
  replace (2 * S k)%nat with (S (S (2 * k))) by lia.
  replace (S (S (2 * k)) + 1)%nat with (S (S (2 * k + 1))) by lia.
  done.
Qed.

Lemma pipe_ends_distinct pipes k k' :
  NoDup (pipe_ends pipes) → (k < length pipes)%nat → (k' < length pipes)%nat →
  fst (pipe_at pipes k) ≠ snd (pipe_at pipes k') ∧
  (k ≠ k' → snd (pipe_at pipes k) ≠ snd (pipe_at pipes k')).
Proof.
  intros Hnd Hk Hk'.
  destruct (pipe_ends_lookup pipes k Hk) as [Hf Hs].
  destruct (pipe_ends_lookup pipes k' Hk') as [Hf' Hs'].
  split.
  - intros Heq. rewrite Heq in Hf.
    pose proof (NoDup_lookup _ _ _ _ Hnd Hf Hs'). lia.
  - intros Hne Heq. rewrite Heq in Hs.
    pose proof (NoDup_lookup _ _ _ _ Hnd Hs Hs'). lia.
Qed.

(** The pipes [create_pipes] returns are those it created, after [acc];
    their ends are pairwise distinct, open, and were not open before. *)
Lemma create_pipes_layout os n :
  ∀ acc w pipes w',
    NoDup (pipe_ends acc) → (∀ fd, fd ∈ pipe_ends acc → fd ∈ w_fds w) →
    create_pipes os n acc w = (Some pipes, w') →
    NoDup (pipe_ends pipes) ∧
    (∀ fd, fd ∈ pipe_ends pipes → fd ∈ w_fds w') ∧
    ∃ evs,
      w_trace w' = w_trace w ++ evs ∧
      pipes = acc ++ pipes_created evs ∧
      w_fds w' = fds_after (w_fds w) evs ∧
      (∀ fd, fd ∈ pipe_ends (pipes_created evs) → fd ∉ w_fds w).
Proof.
  induction n as [|n IH]; intros acc w pipes w' Hnd Hopen.
  { intros [= <- <-]. split; [done|]. split; [done|]. exists [].
    rewrite !app_nil_r. split; [done|]. split; [done|]. split; [done|].
    by intros fd ?%elem_of_nil. }
  cbn [create_pipes]. unfold bind, sys_pipe.
  destruct (os_pipe os (w_trace w)); cbn [fst snd emit].
  2:{ unfold perror. cbn [emit]. by destruct (close_pipes acc _) as [[] w3]. }
  pose proof (lowest_free_fresh (w_fds w)) as Hr.
  pose proof (lowest_free_fresh (w_fds w ∪ {[lowest_free (w_fds w)]})) as Hw.
  set (r := lowest_free (w_fds w)) in *.
  set (wr := lowest_free (w_fds w ∪ {[r]})) in *. clearbody wr. clearbody r.
  intros Hrun. apply IH in Hrun as (Hnd' & Hopen' & evs & Ht & Hp & Hf & Hnew).
  - split; [done|]. split; [done|]. exists (EvPipe (Some (r, wr)) :: evs).
    cbn [w_trace w_fds] in *. split; [by rewrite Ht, <-app_assoc|].
    split; [by rewrite Hp, <-app_assoc|]. split; [done|].
    intros fd. cbn [pipes_created omap]. fold (pipes_created evs).
    change (pipe_ends ((r, wr) :: pipes_created evs))
      with ([r; wr] ++ pipe_ends (pipes_created evs)).
    intros [Hin|Hin]%elem_of_app.
    + apply elem_of_cons in Hin as [->|Hin]; [done|].
      apply elem_of_cons in Hin as [->|Hin]; [set_solver|by apply elem_of_nil in Hin].
    + apply Hnew in Hin. set_solver.
  - rewrite pipe_ends_app. apply NoDup_app. split; [done|]. split.
    + intros fd Hin Hin'. apply Hopen in Hin.
      apply elem_of_cons in Hin' as [->|Hin']; [done|].
      apply elem_of_cons in Hin' as [->|Hin']; [set_solver|by apply elem_of_nil in Hin'].
    + cbn. apply NoDup_cons. split; [|apply NoDup_singleton].
      intros ->%list_elem_of_singleton. set_solver.
  - intros fd. rewrite pipe_ends_app. cbn [w_fds].
    intros [Hin|Hin]%elem_of_app; [apply Hopen in Hin; set_solver|].
    apply elem_of_cons in Hin as [->|Hin]; [set_solver|].
    apply elem_of_cons in Hin as [->|Hin]; [set_solver|by apply elem_of_nil in Hin].
Qed.

Lemma open_redirection_layout os (path : option string) mode dflt w fd w' :
  match path with
  | Some p => sys_open os p mode
  | None => ret dflt
  end w = (fd, w') →
  (fd <? 0) = false →
  ∃ evs,
    w_trace w' = w_trace w ++ evs ∧
    w_fds w' = fds_after (w_fds w) evs ∧
    pipes_created evs = [] ∧
    match path with
    | Some p => evs = [EvOpen p mode fd] ∧ (fd ∉ w_fds w) ∧ w_fds w' = w_fds w ∪ {[fd]}
    | None => fd = dflt ∧ evs = [] ∧ w_fds w' = w_fds w
    end.
Proof.
  destruct path as [p|].
  - unfold sys_open. destruct (os_open os (w_trace w) p mode); cbn [fst snd emit].
    + intros [= <- <-] Hpos. eexists [_]. cbn [w_trace w_fds]. split; [done|].
      split; [|split; [done|]].
      * cbn. by rewrite Hpos.
      * split; [done|]. split; [apply lowest_free_fresh|done].
    + intros [= <- <-] Hpos. done.
  - intros [= <- <-] _. exists []. by rewrite app_nil_r.
Qed.

(** What the set-up of a pipeline leaves for the spawning loop. *)
Lemma pipeline_setup_layout os l w pipes in_fd out_fd g w' :
  STDIN_FILENO ∈ w_fds w → STDOUT_FILENO ∈ w_fds w →
  pipeline_setup os l w = (Some (pipes, in_fd, out_fd, g), w') →
  layout l (w_fds w) pipes (length (seq l)) in_fd out_fd ∧
  loop_fds (w_fds w) pipes (length (seq l)) 0 in_fd out_fd (w_fds w') ∧
  ∃ evs,
    w_trace w' = w_trace w ++ evs ∧
    pipes_created evs = pipes ∧
    w_fds w' = fds_after (w_fds w) evs ∧
    match l_in l with
    | Some path => EvOpen path O_RDONLY in_fd ∈ evs
    | None => in_fd = STDIN_FILENO
    end ∧
    match l_out l with
    | Some path => EvOpen path O_WRONLY_CREAT_TRUNC out_fd ∈ evs
    | None => out_fd = STDOUT_FILENO
    end.
Proof.
  intros Hstdin Hstdout Hrun.
  pose proof (pipeline_setup_fds os l w _ w' Hstdin Hstdout Hrun)
    as (Hlen & Hfds & Hdisj & _ & _).
  revert Hrun. unfold pipeline_setup, bind. set (n := (length (seq l) - 1)%nat).
  destruct ((if bool_decide (0 < n)%nat then sys_malloc os else ret (Some (λ _, 0))) w)
    as [[g0|] w2] eqn:Hm; [|by destruct (perror _ w2)].
  assert (∃ em, w_trace w2 = w_trace w ++ em ∧ w_fds w2 = w_fds w ∧
                pipes_created em = [] ∧ ∀ F, fds_after F em = F) as (em & Htm & Hfm & Hpm & Ham).
  { destruct (bool_decide (0 < n)%nat).
    - unfold sys_malloc in Hm. cbn in Hm. injection Hm as _ <-. by eexists [_].
    - injection Hm as _ <-. exists []. by rewrite app_nil_r. }
  clear Hm.
  destruct (create_pipes os n [] w2) as [[pipes'|] w3] eqn:Hcp; [|done].
  pose proof (create_pipes_fds os n [] w2 (w_fds w2)) as Hcf. rewrite Hcp in Hcf.
  cbn [fst snd] in Hcf. rewrite pipe_fds_nil, union_empty_r_L in Hcf.
  destruct (Hcf eq_refl (disjoint_empty_r _)) as (Hf3 & _ & _). clear Hcf.
  apply create_pipes_layout in Hcp as (Hnd & Hopen & ep & Htp & Hpp & Hfp & Hnew);
    [|apply NoDup_nil_2|by intros fd ?%elem_of_nil].
  cbn [app] in Hpp.
  destruct (match l_in l with
            | Some path => sys_open os path O_RDONLY
            | None => ret STDIN_FILENO
            end w3) as [fd_in w4] eqn:Hin.
  destruct (fd_in <? 0) eqn:Hneg_in.
  { destruct (perror _ w4) as [[] w5]. by destruct (close_pipes pipes' w5) as [[] w6]. }
  apply open_redirection_layout in Hin as (ei & Hti & Hfi & Hpi & Hini); [|done].
  destruct (match l_out l with
            | Some path => sys_open os path O_WRONLY_CREAT_TRUNC
            | None => ret STDOUT_FILENO
            end w4) as [fd_out w5] eqn:Hout.
  destruct (fd_out <? 0) eqn:Hneg_out.
  { destruct (perror _ w5) as [[] w6].
    destruct (when_ _ _ w6) as [[] w7]. by destruct (close_pipes pipes' w7) as [[] w8]. }
  apply open_redirection_layout in Hout as (eo & Hto & Hfo & Hpo & Houti); [|done].
  unfold sys_malloc at 1. cbn [fst snd].
  destruct (os_malloc os (w_trace w5)) as [g'|] eqn:Hg.
  2:{ destruct (perror _ _) as [[] w6]. destruct (when_ _ _ w6) as [[] w7].
      destruct (when_ _ _ w7) as [[] w8]. by destruct (close_pipes pipes' w8) as [[] w9]. }
  intros [= <- <- <- <- <-]. cbn [emit snd w_trace w_fds] in *.
  assert (Hpe : ∀ fd, fd ∈ pipe_ends pipes' ↔ fd ∈ pipe_fds pipes').
  { intros fd. unfold pipe_fds, pipe_ends. by rewrite elem_of_list_to_set. }
  assert (Hin_facts : fd_in = STDIN_FILENO ∨
            is_Some (l_in l) ∧ (fd_in ∉ w_fds w) ∧ (fd_in ∉ pipe_ends pipes')).
  { destruct (l_in l) as [pin|]; [right|left; by destruct Hini].
    destruct Hini as (_ & Hfresh & _). rewrite Hf3, Hfm in Hfresh.
    split; [done|]. rewrite Hpe. clear -Hfresh. set_solver. }
  assert (Hout_facts : fd_out = STDOUT_FILENO ∨
            is_Some (l_out l) ∧ (fd_out ∉ w_fds w) ∧ (fd_out ∉ pipe_ends pipes')).
  { destruct (l_out l) as [pout|]; [right|left; by destruct Houti].
    destruct Houti as (_ & Hfresh & _).
    assert (w_fds w ∪ pipe_fds pipes' ⊆ w_fds w4) as Hsub.
    { rewrite <-Hfm, <-Hf3. clear -Hini.
      destruct (l_in l); destruct Hini as (_ & _ & ->); set_solver. }
    split; [done|]. rewrite Hpe. clear -Hfresh Hsub. set_solver. }
  assert (Hne : fd_in ≠ fd_out).
  { destruct Hin_facts as [->|(_ & Hi1 & _)], Hout_facts as [->|(_ & Ho1 & _)].
    - done.
    - by intros <-.
    - by intros ->.
    - destruct (l_out l) as [pout|]; [|by destruct Houti as [-> _]].
      destruct Houti as (_ & Hfresh & _).
      destruct (l_in l) as [pin|]; [|by destruct Hini as [-> _]].
      destruct Hini as (_ & _ & Hw4). rewrite Hw4 in Hfresh. clear -Hfresh. set_solver. }
  split; [|split].
  - split; [done|]. split; [done|]. split; [done|]. split; [done|]. split.
    { intros fd Hfd. rewrite Hpp in Hfd. apply Hnew in Hfd. by rewrite Hfm in Hfd. }
    done.
  - split; [rewrite Hfds; clear; set_solver|]. split.
    { intros fd. rewrite Hfds. rewrite (Hpe fd). unfold redir_fds. clear.
      destruct (l_in l), (l_out l); set_solver. }
    split.
    { rewrite Hfds. clear -Hin_facts Hstdin.
      destruct Hin_facts as [->|(Hs & _)]; [set_solver|].
      unfold redir_fds. destruct (l_in l); [set_solver|by destruct Hs]. }
    split.
    { rewrite Hfds. clear -Hout_facts Hstdout.
      destruct Hout_facts as [->|(Hs & _)]; [set_solver|].
      unfold redir_fds. destruct (l_out l); [set_solver|by destruct Hs]. }
    split; intros k Hk; rewrite Hfds.
    + destruct (pipe_at_ends pipes' k) as [Hf _]; [lia|]. apply Hpe in Hf.
      clear -Hf. set_solver.
    + destruct (pipe_at_ends pipes' k) as [_ Hs]; [lia|]. apply Hpe in Hs.
      clear -Hs. set_solver.
  - eexists (em ++ ep ++ ei ++ eo ++ [_]).
    split; [by rewrite Hto, Hti, Htp, Htm, <-!app_assoc|].
    split; [by rewrite !pipes_created_app, Hpm, Hpi, Hpo, Hpp, !app_nil_r|].
    split.
    { rewrite !fds_after_app, Ham, <-Hfm, <-Hfp, <-Hfi, <-Hfo. done. }
    split.
    + destruct (l_in l) as [pin|]; [|by destruct Hini].
      destruct Hini as (-> & _). clear. set_solver.
    + destruct (l_out l) as [pout|]; [|by destruct Houti].
      destruct Houti as (-> & _). clear. set_solver.
Qed.

Lemma layout_not_std l F pipes ncmds in_fd out_fd :
  layout l F pipes ncmds in_fd out_fd →
  (STDIN_FILENO ∉ pipe_ends pipes) ∧ (STDOUT_FILENO ∉ pipe_ends pipes) ∧
  in_fd ≠ STDOUT_FILENO ∧ out_fd ≠ STDIN_FILENO ∧
  (in_fd ≠ STDIN_FILENO → is_Some (l_in l) ∧ (in_fd ∉ F) ∧ (in_fd ∉ pipe_ends pipes)) ∧
  (out_fd ≠ STDOUT_FILENO → is_Some (l_out l) ∧ (out_fd ∉ F) ∧ (out_fd ∉ pipe_ends pipes)).
Proof.
  intros (H0 & H1 & Hlen & Hnd & Hnew & Hin & Hout & Hne).
  split; [by intros ?%Hnew|]. split; [by intros ?%Hnew|].
  split; [destruct Hin as [->|(_ & Hi & _)]; [done|by intros ->]|].
  split; [destruct Hout as [->|(_ & Ho & _)]; [done|by intros ->]|].
  split; intros Hd; [by destruct Hin|by destruct Hout].
Qed.

(** One turn of the spawning loop keeps the descriptors the later stages
    need. *)
Lemma loop_fds_step l F pipes ncmds i in_fd out_fd W :
  layout l F pipes ncmds in_fd out_fd → (i < ncmds)%nat →
  loop_fds F pipes ncmds i in_fd out_fd W →
  layout l F pipes ncmds
    (if bool_decide (i = 0%nat ∧ in_fd ≠ STDIN_FILENO) then STDIN_FILENO else in_fd) out_fd ∧
  loop_fds F pipes ncmds (S i)
    (if bool_decide (i = 0%nat ∧ in_fd ≠ STDIN_FILENO) then STDIN_FILENO else in_fd) out_fd
    (W ∖ list_to_set (parent_closes pipes i in_fd)).
Proof.
  intros Hlay Hi (Hsub & Hmem & HinW & HoutW & Hrd & Hwr).
  destruct (layout_not_std _ _ _ _ _ _ Hlay) as (Hp0 & Hp1 & Hin1 & Hout0 & Hin & Hout).
  destruct Hlay as (H0 & H1 & Hlen & Hnd & Hnew & Hin' & Hout' & Hne).
  unfold parent_closes.
  destruct (bool_decide (i = 0%nat ∧ in_fd ≠ STDIN_FILENO)) eqn:Hb.
  - apply bool_decide_eq_true in Hb as [-> Hd].
    rewrite bool_decide_false by lia. rewrite app_nil_r.
    destruct (Hin Hd) as (Hs & HiF & HiP).
    split.
    { split; [done|]. split; [done|]. split; [done|]. split; [done|]. split; [done|].
      split; [by left|]. split; [done|]. by apply not_eq_sym. }
    assert (∀ fd, fd ∈ W → fd ≠ in_fd → fd ∈ W ∖ list_to_set [in_fd]) as Hkeep.
    { intros fd HfW Hfne. apply elem_of_difference. split; [done|].
      rewrite elem_of_list_to_set. by intros ->%list_elem_of_singleton. }
    split; [|split; [|split; [|split; [|split]]]].
    + intros fd HfF. apply Hkeep; [by apply Hsub|]. by intros ->.
    + intros fd [HfW Hfn]%elem_of_difference.
      destruct (Hmem fd HfW) as [?|[?|[->|?]]]; auto.
      exfalso. apply Hfn. rewrite elem_of_list_to_set. by left.
    + apply Hkeep; [by apply Hsub|]. by apply not_eq_sym.
    + apply Hkeep; [done|]. by apply not_eq_sym.
    + intros k Hk. apply Hkeep; [apply Hrd; lia|].
      destruct (pipe_at_ends pipes k) as [Hf _]; [lia|]. by intros Heq; rewrite Heq in Hf.
    + intros k Hk. apply Hkeep; [apply Hwr; lia|].
      destruct (pipe_at_ends pipes k) as [_ Hs']; [lia|]. by intros Heq; rewrite Heq in Hs'.
  - split; [done|]. cbn [app].
    destruct (bool_decide (0 < i)%nat) eqn:Hpos.
    2:{ apply bool_decide_eq_false in Hpos. assert (i = 0%nat) as -> by lia.
        assert (W ∖ list_to_set [] = W) as -> by (clear; set_solver).
        split; [done|]. split; [done|]. split; [done|]. split; [done|].
        split; intros k Hk; [apply Hrd|apply Hwr]; lia. }
    apply bool_decide_eq_true in Hpos.
    set (c := snd (pipe_at pipes (i - 1))).
    assert (Hc : c ∈ pipe_ends pipes) by (apply pipe_at_ends; lia).
    assert (∀ fd, fd ∈ W → fd ≠ c → fd ∈ W ∖ list_to_set [c]) as Hkeep.
    { intros fd HfW Hfne. apply elem_of_difference. split; [done|].
      rewrite elem_of_list_to_set. by intros ->%list_elem_of_singleton. }
    split; [|split; [|split; [|split; [|split]]]].
    + intros fd HfF. apply Hkeep; [by apply Hsub|]. intros ->. by apply (Hnew c).
    + intros fd [HfW _]%elem_of_difference. by apply Hmem.
    + apply Hkeep; [done|]. intros Heq.
      destruct Hin' as [->|(_ & _ & HiP)]; [by rewrite Heq in Hp0|by rewrite Heq in HiP].
    + apply Hkeep; [done|]. intros Heq.
      destruct Hout' as [->|(_ & _ & HoP)]; [by rewrite Heq in Hp1|by rewrite Heq in HoP].
    + intros k Hk. apply Hkeep; [apply Hrd; lia|].
      apply (pipe_ends_distinct pipes k (i - 1) Hnd); lia.
    + intros k Hk. apply Hkeep; [apply Hwr; lia|].
      apply (pipe_ends_distinct pipes k (i - 1) Hnd); lia.
Qed.

(** Every stage of a spawning loop that runs to its end was forked, as the
    child [stage_child] describes, from a parent holding the descriptors
    the stage needs. *)
Lemma spawn_loop_forks os l ncmds pipes out_fd F stages :
  ∀ i in_fd pids w in' pids' w',
    layout l F pipes ncmds in_fd out_fd → (i + length stages = ncmds)%nat →
    loop_fds F pipes ncmds i in_fd out_fd (w_fds w) →
    spawn_loop os l ncmds pipes out_fd stages i in_fd pids w = (LoopDone, in', pids', w') →
    ∃ evs,
      w_trace w' = w_trace w ++ evs ∧
      pipes_created evs = [] ∧
      ∀ j argv, stages !! j = Some argv →
        ∃ pre in_j pid post,
          evs = pre ++
                EvFork (stage_child l ncmds (i + j) pipes in_j out_fd
                          (default "" (head argv)) argv) pid :: post ∧
          length (spawned_pids pre) = j ∧
          layout l F pipes ncmds in_j out_fd ∧
          loop_fds F pipes ncmds (i + j) in_j out_fd (fds_after (w_fds w) pre) ∧
          ((i + j)%nat = 0%nat → in_j = in_fd).
Proof.
  induction stages as [|argv stages IH]; intros i in_fd pids w in' pids' w' Hlay Hlen Hinv Hrun.
  { injection Hrun as _ _ <-. exists []. rewrite app_nil_r.
    split; [done|]. split; [done|]. intros j argv Hj. by rewrite lookup_nil in Hj. }
  destruct argv as [|a0 args].
  { by rewrite spawn_loop_empty_stage in Hrun. }
  destruct (os_fork os (w_trace w)) as [p|] eqn:Hf.
  2:{ by rewrite spawn_loop_fork_fails in Hrun. }
  rewrite (spawn_loop_fork_ok _ _ _ _ _ _ _ _ _ _ _ _ p) in Hrun by done.
  cbn [length] in Hlen.
  destruct (loop_fds_step l F pipes ncmds i in_fd out_fd (w_fds w) Hlay) as [Hlay' Hinv'];
    [lia|done|].
  apply IH in Hrun as (evs & Ht & Hpc & Hforks); [|done|lia|done].
  cbn [w_trace w_fds] in *.
  set (child := stage_child l ncmds i pipes in_fd out_fd a0 (a0 :: args)) in *.
  set (cl := parent_closes pipes i in_fd) in *.
  exists (EvFork child (Z.pos p) :: (EvClose <$> cl) ++ evs).
  split; [by rewrite Ht, <-app_assoc|]. split.
  { assert (pipes_created (EvClose <$> cl) = []) as Hcl by (clear; by induction cl).
    change (EvFork child (Z.pos p) :: (EvClose <$> cl) ++ evs)
      with ([EvFork child (Z.pos p)] ++ (EvClose <$> cl) ++ evs).
    by rewrite !pipes_created_app, Hpc, Hcl. }
  intros [|j] argv Hj.
  - injection Hj as <-. exists [], in_fd, (Z.pos p), ((EvClose <$> cl) ++ evs).
    rewrite Nat.add_0_r. split; [done|]. split; [done|]. split; [done|]. split; [done|done].
  - cbn [lookup list_lookup] in Hj.
    destruct (Hforks j argv Hj) as (pre & in_j & pid & post & -> & Hlp & Hl & Hi & Hz).
    exists (EvFork child (Z.pos p) :: (EvClose <$> cl) ++ pre), in_j, pid, post.
    replace (i + S j)%nat with (S i + j)%nat by lia.
    split; [by norm_trace|]. split; [|split; [done|split; [|lia]]].
    + change (EvFork child (Z.pos p) :: (EvClose <$> cl) ++ pre)
        with ([EvFork child (Z.pos p)] ++ (EvClose <$> cl) ++ pre).
      by rewrite !spawned_pids_app, spawned_pids_closes, !length_app, Hlp.
    + change (fds_after (w_fds w) (EvFork child (Z.pos p) :: (EvClose <$> cl) ++ pre))
        with (fds_after (w_fds w) ((EvClose <$> cl) ++ pre)).
      by rewrite fds_after_app, fds_after_closes.
Qed.

(** The program of a stage forked in the loop starts wired to its
    neighbours and with the descriptors of the shell only. *)
Lemma stage_child_in_loop l F pipes ncmds t in_fd out_fd W argv0 argv :
  layout l F pipes ncmds in_fd out_fd → loop_fds F pipes ncmds t in_fd out_fd W →
  (t < ncmds)%nat →
  ∃ m',
    run_child (inherit W) (stage_child l ncmds t pipes in_fd out_fd argv0 argv) =
      Some (m', argv0, argv) ∧
    m' !! STDIN_FILENO = Some (stage_in pipes t in_fd) ∧
    m' !! STDOUT_FILENO = Some (stage_out pipes ncmds t out_fd) ∧
    dom m' = F.
Proof.
  intros Hlay (Hsub & Hmem & HinW & HoutW & Hrd & Hwr) Ht.
  destruct (layout_not_std _ _ _ _ _ _ Hlay) as (Hp0 & Hp1 & Hin1 & Hout0 & Hin & Hout).
  destruct Hlay as (H0 & H1 & Hlen & Hnd & Hnew & _ & _ & Hne).
  assert (Hsi : stage_in pipes t in_fd ∈ W).
  { unfold stage_in. destruct (decide (t = 0%nat)); [done|]. apply Hrd. lia. }
  assert (Hso : stage_out pipes ncmds t out_fd ∈ W).
  { unfold stage_out. destruct (decide (t = (ncmds - 1)%nat)); [done|]. apply Hwr. lia. }
  destruct (stage_child_table l ncmds t pipes in_fd out_fd argv0 argv (inherit W)
              (stage_in pipes t in_fd) (stage_out pipes ncmds t out_fd))
    as (m' & Hrun & Htab); try done.
  { by rewrite inherit_lookup, decide_True. }
  { by rewrite inherit_lookup, decide_True. }
  exists m'. split; [done|]. split; [by rewrite Htab, decide_True|].
  split; [rewrite Htab, decide_False, decide_True; done|].
  apply set_eq. intros fd. rewrite elem_of_dom, Htab.
  destruct (decide (fd = STDIN_FILENO)) as [->|Hf0]; [by split|].
  destruct (decide (fd = STDOUT_FILENO)) as [->|Hf1]; [by split|].
  destruct (decide (fd ∈ pipe_ends pipes)) as [Hpe|Hpe].
  { split; [by intros [? ?]|]. intros HF. by destruct (Hnew fd Hpe). }
  destruct (decide (is_Some (l_in l) ∧ in_fd ≠ STDIN_FILENO ∧ fd = in_fd))
    as [(_ & Hd & ->)|Hci].
  { split; [by intros [? ?]|]. intros HF. by destruct (Hin Hd) as (_ & ? & _). }
  destruct (decide (is_Some (l_out l) ∧ out_fd ≠ STDOUT_FILENO ∧ fd = out_fd))
    as [(_ & Hd & ->)|Hco].
  { split; [by intros [? ?]|]. intros HF. by destruct (Hout Hd) as (_ & ? & _). }
  rewrite inherit_lookup. destruct (decide (fd ∈ W)) as [HW|HW].
  - split; [intros _|by eexists].
    destruct (Hmem fd HW) as [?|[?|[-> | ->]]]; [done|done| |].
    + exfalso. apply Hci. by destruct (Hin Hf0) as (? & _).
    + exfalso. apply Hco. by destruct (Hout Hf1) as (? & _).
  - split; [by intros [? ?]|]. intros HF. by apply Hsub in HF.
Qed.

#[global] Hint Extern 0 (not_pipe _) => exact I : frame.

Lemma pipeline_finish_not_pipe os l pipes out r :
  does (grows not_pipe) (pipeline_finish os l pipes out r).
Proof. unfold pipeline_finish, pipe_fail. frame. Qed.

Lemma pipes_created_not_pipe evs : Forall not_pipe evs → pipes_created evs = [].
Proof. induction 1 as [|e evs He _ IH]; [done|]. by destruct e. Qed.

(** X15.  A pipeline that runs to success connects its stages.  From a
    shell in which descriptors 0 and 1 are open, when [execute] returns
    success for a command line of [N >= 2] stages, it has created [N - 1]
    pipes, and every stage [i] was forked as a child that, run on the
    descriptor table the parent held at that [fork], reaches
    [execvp(argv[0], argv)] without a failed [dup2], with descriptor 0
    referring to the stage's input (the opened input file or the shell's
    standard input for stage 0, the read end of the pipe created [i-1]-th
    otherwise), descriptor 1 referring to the stage's output (the opened
    output file or the shell's standard output for the last stage, the
    write end of the pipe created [i]-th otherwise), and holding besides
    exactly the descriptors the shell had before the call: no pipe end and
    no redirection descriptor is left open in any program. *)
Theorem pipeline_stages_are_connected (os : os_t) (l : cmdline_t) (w : world) :
  STDIN_FILENO ∈ w_fds w → STDOUT_FILENO ∈ w_fds w →
  (2 ≤ length (seq l))%nat →
  fst (execute os (Some l) w) = EXIT_SUCCESS →
  ∃ evs in_fd out_fd,
    w_trace (snd (execute os (Some l) w)) = w_trace w ++ evs ∧
    length (pipes_created evs) = (length (seq l) - 1)%nat ∧
    match l_in l with
    | Some path => EvOpen path O_RDONLY in_fd ∈ evs
    | None => in_fd = STDIN_FILENO
    end ∧
    match l_out l with
    | Some path => EvOpen path O_WRONLY_CREAT_TRUNC out_fd ∈ evs
    | None => out_fd = STDOUT_FILENO
    end ∧
    ∀ i argv, seq l !! i = Some argv →
      ∃ pre child pid post m',
        evs = pre ++ EvFork child pid :: post ∧
        length (spawned_pids pre) = i ∧
        run_child (inherit (fds_after (w_fds w) pre)) child =
          Some (m', default "" (head argv), argv) ∧
        m' !! STDIN_FILENO = Some (stage_in (pipes_created evs) i in_fd) ∧
        m' !! STDOUT_FILENO =
          Some (stage_out (pipes_created evs) (length (seq l)) i out_fd) ∧
        dom m' = w_fds w.
Proof.
  intros Hstdin Hstdout Hlen.
  destruct (reap_finished_jobs_spec os w) as (Hf0 & _ & _ & e0 & Ht0 & He0 & _).
  destruct (reap_finished_jobs os w) as [[] w1] eqn:Hr. cbn [snd] in Hf0, Ht0.
  rewrite (execute_cases os l w w1 Hr).
  destruct (seq l) as [|argv0 [|argv1 stages]] eqn:Hseq; [simpl in Hlen; lia..|].
  assert (match argv0 with
          | [] | _ => execute_pipeline os l w1
          end = execute_pipeline os l w1) as -> by by destruct argv0.
  rewrite execute_pipeline_phases. unfold bind.
  pose proof (pipeline_setup_setup_events os l w1) as [_ (e1' & Ht1' & He1)].
  destruct (pipeline_setup os l w1) as [[[[[pipes in_fd] out_fd] g]|] w2] eqn:Hsetup;
    [|done].
  cbn [snd] in Ht1'.
  apply pipeline_setup_layout in Hsetup
    as (Hlay & Hinv & e1 & Ht1 & Hpc & Hfa & Hin & Hout); [|by rewrite Hf0..].
  assert (e1' = e1) as -> by (rewrite Ht1 in Ht1'; by apply app_inv_head in Ht1').
  clear Ht1'. rewrite Hseq in Hlay, Hinv.
  unfold pipeline_run, bind. rewrite Hseq.
  set (N := length (argv0 :: argv1 :: stages)) in *.
  destruct (spawn_loop os l N pipes out_fd (argv0 :: argv1 :: stages) 0 in_fd
              (g <$> List.seq 0 N) w2) as [[[ex in'] pids'] w3] eqn:Hloop.
  pose proof (pipeline_finish_not_pipe os l pipes out_fd (ex, in', pids') w3)
    as [_ (e3 & Ht3 & He3)].
  destruct (pipeline_finish os l pipes out_fd (ex, in', pids') w3) as [rv w4] eqn:Hfin.
  cbn [fst snd] in *. destruct ex.
  2:{ apply pipeline_finish_fail in Hfin as (-> & _). done. }
  intros _. clear Hfin.
  apply (spawn_loop_forks os l N pipes out_fd (w_fds w1)) in Hloop
    as (e2 & Ht2 & Hpc2 & Hforks); [|done|done|done].
  assert (Hpipes : pipes_created (e0 ++ e1 ++ e2 ++ e3) = pipes).
  { rewrite !pipes_created_app, Hpc, Hpc2, (pipes_created_not_pipe e3 He3), !app_nil_r.
    rewrite pipes_created_not_pipe; [done|].
    eapply Forall_impl; [exact He0|]. by intros []. }
  exists (e0 ++ e1 ++ e2 ++ e3), in_fd, out_fd.
  split; [by rewrite Ht3, Ht2, Ht1, Ht0, <-!app_assoc|].
  rewrite Hpipes.
  split; [by destruct Hlay as (_ & _ & ? & _)|].
  split.
  { destruct (l_in l); [|done]. apply elem_of_app. right. apply elem_of_app. by left. }
  split.
  { destruct (l_out l); [|done]. apply elem_of_app. right. apply elem_of_app. by left. }
  intros i argv Hi.
  destruct (Hforks i argv Hi) as (pre & in_i & pid & post & -> & Hlp & Hl & Hfds & Hz).
  cbn [Nat.add] in *.
  destruct (stage_child_in_loop l (w_fds w1) pipes N i in_i out_fd
              (fds_after (w_fds w2) pre) (default "" (head argv)) argv Hl Hfds)
    as (m' & Hrun & Hm0 & Hm1 & Hdom).
  { apply lookup_lt_Some in Hi. exact Hi. }
  exists (e0 ++ e1 ++ pre),
    (stage_child l N i pipes in_i out_fd (default "" (head argv)) argv), pid, (post ++ e3), m'.
  split; [by rewrite <-!app_assoc|].
  split.
  { rewrite !spawned_pids_app, (spawned_pids_no_fork e0), (spawned_pids_no_fork e1); [done|..].
    - by apply setup_event_no_fork.
    - by apply nohang_no_fork. }
  split.
  { by rewrite !fds_after_app, (fds_after_nohang _ e0 He0), <-Hf0, <-Hfa. }
  split.
  { rewrite Hm0. f_equal. unfold stage_in. destruct (decide (i = 0%nat)); [auto|done]. }
  split; [done|]. by rewrite Hdom.
Qed.

Lemma pipeline_stages_are_connected_witness :
  ∃ evs in_fd out_fd,
    w_trace (snd (execute os_ok (Some cmd_cat_wc) shell_start)) = w_trace shell_start ++ evs ∧
    length (pipes_created evs) = 1%nat ∧
    EvOpen "in.txt" O_RDONLY in_fd ∈ evs ∧
    EvOpen "out.txt" O_WRONLY_CREAT_TRUNC out_fd ∈ evs.
Proof.
  assert (STDIN_FILENO ∈ w_fds shell_start) as H0 by (vm_compute; reflexivity).
  assert (STDOUT_FILENO ∈ w_fds shell_start) as H1 by (vm_compute; reflexivity).
  assert (2 ≤ length (seq cmd_cat_wc))%nat as H2 by (simpl; lia).
  assert (fst (execute os_ok (Some cmd_cat_wc) shell_start) = EXIT_SUCCESS) as Hok
    by (vm_compute; reflexivity).
  destruct (pipeline_stages_are_connected os_ok cmd_cat_wc shell_start H0 H1 H2 Hok)
    as (evs & in_fd & out_fd & Ht & Hn & Hin & Hout & _).
  exists evs, in_fd, out_fd. split; [exact Ht|]. split; [exact Hn|]. split; [exact Hin|exact Hout].
Defined.


(** ** The single command, from the shell to its program *)

Lemma bind_inv {A B} (m : M A) (k : A → M B) w r w' :
  bind m k w = (r, w') → ∃ a w1, m w = (a, w1) ∧ k a w1 = (r, w').
Proof. unfold bind. destruct (m w) as [a w1]. intros Hk. by exists a, w1. Qed.

Lemma and_then_inv {A B} (m : M (option A)) (k : A → M (option B)) w b w' :
  (m >>>= k) w = (Some b, w') → ∃ a w1, m w = (Some a, w1) ∧ k a w1 = (Some b, w').
Proof.
  unfold and_then. intros (r & w1 & Hm & Hk)%bind_inv.
  destruct r as [a|]; [by exists a, w1|done].
Qed.

(** An end redirection that was resolved: the default, or a descriptor
    that was not open before. *)
Lemma checked_open_layout {A} os (path : option string) mode dflt
    (fail : string → M (option A)) (ok : Z → A) w r w' :
  (∀ p w0, fst (fail p w0) = None) →
  match path with
  | Some p => fd <~ sys_open os p mode ;; if fd <? 0 then fail p else ret (Some (ok fd))
  | None => ret (Some (ok dflt))
  end w = (Some r, w') →
  ∃ fd evs,
    r = ok fd ∧
    w_trace w' = w_trace w ++ evs ∧
    w_fds w' = fds_after (w_fds w) evs ∧
    match path with
    | Some p => evs = [EvOpen p mode fd] ∧ (fd ∉ w_fds w) ∧ w_fds w' = w_fds w ∪ {[fd]}
    | None => fd = dflt ∧ evs = [] ∧ w_fds w' = w_fds w
    end.
Proof.
  intros Hfail. destruct path as [p|].
  - intros (fd & w1 & Hopen & Hk)%bind_inv. destruct (fd <? 0) eqn:Hneg.
    { pose proof (Hfail p w1) as Hn. by rewrite Hk in Hn. }
    injection Hk as <- <-.
    destruct (open_redirection_layout os (Some p) mode dflt w fd w1 Hopen Hneg)
      as (evs & Ht & Hf & _ & Hev).
    by exists fd, evs.
  - intros [= <- <-]. exists dflt, []. by rewrite app_nil_r.
Qed.

Lemma resolve_end_redirections_layout os l w in_fd out_fd w' :
  STDIN_FILENO ∈ w_fds w → STDOUT_FILENO ∈ w_fds w →
  resolve_end_redirections os l w = (Some (in_fd, out_fd), w') →
  in_fd ∈ w_fds w' ∧ out_fd ∈ w_fds w' ∧
  in_fd ≠ STDOUT_FILENO ∧ out_fd ≠ STDIN_FILENO ∧ in_fd ≠ out_fd ∧
  w_fds w ⊆ w_fds w' ∧
  (∀ fd, fd ∈ w_fds w' → fd ∈ w_fds w ∨ fd = in_fd ∨ fd = out_fd) ∧
  (in_fd ≠ STDIN_FILENO → in_fd ∉ w_fds w) ∧
  (out_fd ≠ STDOUT_FILENO → out_fd ∉ w_fds w) ∧
  ∃ evs,
    w_trace w' = w_trace w ++ evs ∧
    w_fds w' = fds_after (w_fds w) evs ∧
    match l_in l with
    | Some path => EvOpen path O_RDONLY in_fd ∈ evs
    | None => in_fd = STDIN_FILENO
    end ∧
    match l_out l with
    | Some path => EvOpen path O_WRONLY_CREAT_TRUNC out_fd ∈ evs
    | None => out_fd = STDOUT_FILENO
    end.
Proof.
  intros Hstdin Hstdout. unfold resolve_end_redirections.
  intros (fd_in & w1 & Hin & Hout)%and_then_inv.
  apply (checked_open_layout os (l_in l) O_RDONLY STDIN_FILENO
           (λ p, perror p ;;; ret None) (λ fd, fd)) in Hin
    as (fi & ei & -> & Hti & Hfi & Hini).
  2:{ intros p w0. unfold bind. by destruct (perror p w0). }
  apply (checked_open_layout os (l_out l) O_WRONLY_CREAT_TRUNC STDOUT_FILENO
           (λ p, perror p ;;;
                 when_ (bool_decide (fi ≠ STDIN_FILENO)) (sys_close fi) ;;; ret None)
           (λ fd, (fi, fd))) in Hout
    as (fo & eo & [= <- <-] & Hto & Hfo & Houti).
  2:{ intros p w0. unfold bind. destruct (perror p w0) as [[] w2].
      by destruct (when_ _ _ w2). }
  assert (Hw1 : w_fds w1 = w_fds w ∪ redir_fds (l_in l) in_fd).
  { unfold redir_fds. destruct (l_in l); destruct Hini as (_ & _ & ->); [done|].
    clear. set_solver. }
  assert (Hw' : w_fds w' = w_fds w1 ∪ redir_fds (l_out l) out_fd).
  { unfold redir_fds. destruct (l_out l); destruct Houti as (_ & _ & ->); [done|].
    clear. set_solver. }
  assert (Hi : in_fd = STDIN_FILENO ∨ is_Some (l_in l) ∧ (in_fd ∉ w_fds w)).
  { destruct (l_in l); [right; by destruct Hini as (_ & ? & _)|left; by destruct Hini]. }
  assert (Ho : out_fd = STDOUT_FILENO ∨ is_Some (l_out l) ∧ (out_fd ∉ w_fds w1)).
  { destruct (l_out l); [right; by destruct Houti as (_ & ? & _)|left; by destruct Houti]. }
  split.
  { rewrite Hw', Hw1. clear -Hi Hstdin.
    destruct Hi as [->|[Hs _]]; [set_solver|].
    unfold redir_fds at 1. destruct (l_in l); [set_solver|by destruct Hs]. }
  split.
  { rewrite Hw', Hw1. clear -Ho Hstdout.
    destruct Ho as [->|[Hs _]]; [set_solver|].
    unfold redir_fds at 2. destruct (l_out l); [set_solver|by destruct Hs]. }
  split; [destruct Hi as [->|[_ Hn]]; [done|by intros ->]|].
  split.
  { destruct Ho as [->|[_ Hn]]; [done|]. intros ->. apply Hn. rewrite Hw1.
    clear -Hstdin. set_solver. }
  split.
  { destruct Ho as [->|[_ Hn]].
    - destruct Hi as [->|[_ Hn]]; [done|by intros ->].
    - intros <-. apply Hn. rewrite Hw1. clear -Hi Hstdin.
      destruct Hi as [->|[Hs _]]; [set_solver|].
      unfold redir_fds. destruct (l_in l); [set_solver|by destruct Hs]. }
  split; [rewrite Hw', Hw1; clear; set_solver|].
  split.
  { intros fd. rewrite Hw', Hw1. unfold redir_fds. clear.
    destruct (l_in l), (l_out l); set_solver. }
  split; [intros Hne; by destruct Hi as [?|[_ ?]]|].
  split.
  { intros Hne. destruct Ho as [?|[_ Hn]]; [done|]. intros HF. apply Hn.
    rewrite Hw1. clear -HF. set_solver. }
  exists (ei ++ eo). split; [by rewrite Hto, Hti, app_assoc|].
  split; [by rewrite fds_after_app, <-Hfi, <-Hfo|].
  split.
  - destruct (l_in l); [|by destruct Hini]. destruct Hini as (-> & _). clear. set_solver.
  - destruct (l_out l); [|by destruct Houti]. destruct Houti as (-> & _). clear. set_solver.
Qed.

(** The program of a single command starts wired to its redirections and
    with the descriptors of the shell only. *)
Lemma command_child_in_shell (F W : gset Z) cmd args in_fd out_fd :
  STDIN_FILENO ∈ F → STDOUT_FILENO ∈ F →
  in_fd ∈ W → out_fd ∈ W →
  in_fd ≠ STDOUT_FILENO → out_fd ≠ STDIN_FILENO → in_fd ≠ out_fd →
  F ⊆ W → (∀ fd, fd ∈ W → fd ∈ F ∨ fd = in_fd ∨ fd = out_fd) →
  (in_fd ≠ STDIN_FILENO → in_fd ∉ F) → (out_fd ≠ STDOUT_FILENO → out_fd ∉ F) →
  ∃ m',
    run_child (inherit W) (command_child cmd args in_fd out_fd) = Some (m', cmd, args) ∧
    m' !! STDIN_FILENO = Some in_fd ∧
    m' !! STDOUT_FILENO = Some out_fd ∧
    dom m' = F.
Proof.
  intros H0 H1 HiW HoW Hi1 Ho0 Hio Hsub Hmem Hin Hout.
  destruct (command_child_table cmd args in_fd out_fd (inherit W) in_fd out_fd)
    as (m' & Hrun & Htab); try done.
  { by rewrite inherit_lookup, decide_True. }
  { by rewrite inherit_lookup, decide_True. }
  exists m'. split; [done|]. split; [by rewrite Htab, decide_True|].
  split; [rewrite Htab, decide_False, decide_True; done|].
  apply set_eq. intros fd. rewrite elem_of_dom, Htab.
  destruct (decide (fd = STDIN_FILENO)) as [->|Hf0]; [by split|].
  destruct (decide (fd = STDOUT_FILENO)) as [->|Hf1]; [by split|].
  destruct (decide (fd = in_fd ∨ fd = out_fd)) as [[-> | ->]|Hn].
  - split; [by intros [? ?]|]. intros HF. by destruct (Hin Hf0).
  - split; [by intros [? ?]|]. intros HF. by destruct (Hout Hf1).
  - rewrite inherit_lookup. destruct (decide (fd ∈ W)) as [HW|HW].
    + split; [intros _|by eexists].
      destruct (Hmem fd HW) as [?|[?|?]]; [done|..]; exfalso; apply Hn; auto.
    + split; [by intros [? ?]|]. intros HF. by apply Hsub in HF.
Qed.


